(** * public_image_scanner: the digest-tracking sweep of th_pub_docker_scanner.py

    A shallow embedding of [th_pub_docker_scanner.py].  Every function of the
    script is a definition of the same name.  The script talks to four
    outside parties; each one is a field of an explicit environment:

    - the registry (requests.get / requests.head) is a function from the
      request to the response it returns;
    - the container runtime, tar and the scanner (subprocess) are given by
      the faults injected into each command; a command without a fault
      follows its contract on the set of containers and directories;
    - the Slack client and the wall clock are oracles indexed by the
      position of the call in the sweep;
    - [images.db] is part of the state.

    Python exceptions are an outcome of their own, so that [try], [except]
    and [finally] read as in the script. *)

From Stdlib Require Import ZArith String Ascii List.
From stdpp Require Import gmap strings list pretty.

Open Scope string_scope.
Open Scope list_scope.
Open Scope Z_scope.

(** ** Exceptions and outcomes *)

Inductive exn :=
| CalledProcessError (returncode : Z) (cmd : list string)
| OSError (msg : string)
| OperationalError (msg : string)
| SlackApiError (error : string)
| RequestException (msg : string).

(** What a call does: it returns, it raises, or (for the [while url:] loops
    only) it is still running when the fuel is spent. *)
Inductive outcome (A : Type) :=
| Return (a : A)
| Raise (e : exn)
| OutOfFuel.
Arguments Return {A} a.
Arguments Raise {A} e.
Arguments OutOfFuel {A}.

(** ** SQLite: the [images] table *)

Inductive value :=
| NULL
| TEXT (s : string)
| INTEGER (n : Z).

#[global] Instance value_eq_dec : EqDecision value.
Proof. solve_decision. Defined.

(** A row gives a value to column names; a column it does not mention
    reads as NULL. *)
Abbreviation row := (gmap string value).

Definition cell (r : row) (c : string) : value := default NULL (r !! c).

(** [PRIMARY KEY (image_name, tag)]: at most one row per pair, so the rows
    are a finite map on the key. *)
Record table := {
  columns : list string;
  rows : gmap (string * string) row
}.

Definition has_columns (t : table) (cs : list string) : bool :=
  forallb (λ c, bool_decide (c ∈ columns t)) cs.

(** [CREATE TABLE IF NOT EXISTS images (...)]: an existing table is left as
    it is, whatever its columns. *)
Definition create_table_if_not_exists (db : option table) : table :=
  match db with
  | Some t => t
  | None =>
      {| columns := ["image_name"; "tag"; "digest";
                     "last_updated_image_timestamp"; "vulnerabilities_count"];
         rows := ∅ |}
  end.

(** [ALTER TABLE images ADD COLUMN c]: the rows already there read NULL in
    the new column; SQLite refuses a column name that exists.  Names are
    compared as they are spelled, as the [in] of lines 37 and 39 compares
    them; SQLite itself ignores letter case, so a table with a column
    spelled [Digest] is outside what this definition covers. *)
Definition alter_table_add_column (c : string) (t : table) : outcome table :=
  if bool_decide (c ∈ columns t)
  then Raise (OperationalError ("duplicate column name: " +:+ c))
  else Return {| columns := columns t ++ [c];
                 rows := <[c := NULL]> <$> rows t |}.

(** [SELECT digest FROM images WHERE image_name=? AND tag=?] followed by
    [fetchone()]: the one-column row, or None. *)
Definition fetchone_digest (R : option row) : option value :=
  (λ r, cell r "digest") <$> R.

Definition select_digest (db : option table) (image_name tag : string)
  : outcome (option value) :=
  match db with
  | None => Raise (OperationalError "no such table: images")
  | Some t =>
      if has_columns t ["digest"; "image_name"; "tag"]
      then Return (fetchone_digest (rows t !! (image_name, tag)))
      else Raise (OperationalError "no such column")
  end.

(** [INSERT OR REPLACE INTO images (image_name, tag, digest,
    last_updated_image_timestamp, vulnerabilities_count) VALUES (?,?,?,?,?)]:
    the row with this key, if any, is replaced; a column of the table that
    the statement does not name is NULL in the new row. *)
Definition new_row (t : table) (named : row) : row :=
  list_to_map ((λ c, (c, cell named c)) <$> columns t).

Definition insert_or_replace (db : option table)
    (image_name tag digest timestamp : string) (vulnerabilities_count : Z)
  : outcome table :=
  match db with
  | None => Raise (OperationalError "no such table: images")
  | Some t =>
      if has_columns t ["image_name"; "tag"; "digest";
                        "last_updated_image_timestamp"; "vulnerabilities_count"]
      then
        let named : row :=
          <["image_name" := TEXT image_name]>
          (<["tag" := TEXT tag]>
          (<["digest" := TEXT digest]>
          (<["last_updated_image_timestamp" := TEXT timestamp]>
          (<["vulnerabilities_count" := INTEGER vulnerabilities_count]> ∅)))) in
        Return {| columns := columns t;
                  rows := <[(image_name, tag) := new_row t named]> (rows t) |}
      else Raise (OperationalError "table images has no column named")
  end.

(** ** Change detection (scan_images, lines 199-207)

    [result] is what [fetchone()] gave, [digest] the digest just resolved
    (a string: None was dropped by [continue] before). *)

Inductive decision := Skip | Scan.

#[global] Instance decision_eq_dec : EqDecision decision.
Proof. solve_decision. Defined.

(** Python's [digest != stored_digest] with a string on the left. *)
Definition str_ne (digest : string) (stored_digest : value) : bool :=
  match stored_digest with
  | TEXT s => negb (String.eqb digest s)
  | NULL | INTEGER _ => true
  end.

Definition decide (result : option value) (digest : string) : decision :=
  let stored_digest :=
    match result with
    | Some v => v        (* if result: stored_digest = result[0] *)
    | None => NULL       (* else: stored_digest = None *)
    end in
  if str_ne digest stored_digest then Scan else Skip.

(** ** The state of the host and the trace of a call *)

Inductive event :=
| Print (line : string)
| HttpGet (url : string) (params : list (string * Z))
| HttpHead (url : string) (headers : list (string * string))
| ChatPostMessage (channel text : string)
| Mkdtemp (path : string)
| Exec (cmd : list string)
| Rmtree (path : string).

Record state := {
  images_db : option table;      (* the table of images.db, None before CREATE *)
  containers : gset string;      (* names of the containers of the daemon *)
  dirs : gset string;            (* directories under the temporary directory *)
  image_store : gset string      (* references of the images the daemon holds *)
}.

Definition set_db (db : option table) (s : state) : state :=
  {| images_db := db; containers := containers s; dirs := dirs s;
     image_store := image_store s |}.
Definition set_containers (c : gset string) (s : state) : state :=
  {| images_db := images_db s; containers := c; dirs := dirs s;
     image_store := image_store s |}.
Definition set_dirs (d : gset string) (s : state) : state :=
  {| images_db := images_db s; containers := containers s; dirs := d;
     image_store := image_store s |}.
Definition set_image_store (i : gset string) (s : state) : state :=
  {| images_db := images_db s; containers := containers s; dirs := dirs s;
     image_store := i |}.

(** A call maps the state before it to the events it emits, the state
    after it and its outcome. *)
Definition M (A : Type) : Type := state → list event * state * outcome A.

Definition ret {A} (a : A) : M A := λ s, ([], s, Return a).

Definition bind {A B} (m : M A) (k : A → M B) : M B := λ s,
  match m s with
  | (ev, s1, Return a) => let '(ev', s2, o) := k a s1 in (ev ++ ev', s2, o)
  | (ev, s1, Raise e) => (ev, s1, Raise e)
  | (ev, s1, OutOfFuel) => (ev, s1, OutOfFuel)
  end.

Declare Scope py_scope.
Delimit Scope py_scope with py.
Notation "x <- m ;; k" := (bind m (λ x, k))
  (at level 100, m at next level, right associativity) : py_scope.
Notation "m ;;; k" := (bind m (λ _, k))
  (at level 100, right associativity) : py_scope.
Open Scope py_scope.

Definition emit (e : event) : M unit := λ s, ([e], s, Return tt).
Definition print (line : string) : M unit := emit (Print line).
Definition raise {A} (e : exn) : M A := λ s, ([], s, Raise e).
Definition get_state : M state := λ s, ([], s, Return s).
Definition put_state (s' : state) : M unit := λ _, ([], s', Return tt).
Definition lift {A} (o : outcome A) : M A := λ s, ([], s, o).

(** [try: body except ...: handler]: the handler sees every exception and
    re-raises the ones its clause does not name. *)
Definition try_except {A} (body : M A) (handler : exn → M A) : M A := λ s,
  match body s with
  | (ev, s1, Raise e) => let '(ev', s2, o) := handler e s1 in (ev ++ ev', s2, o)
  | r => r
  end.

(** [try: body finally: final]: [final] runs after [body] whether it
    returned or raised; an exception of [final] replaces the outcome of
    [body], otherwise that outcome stands. *)
Definition try_finally {A} (body : M A) (final : M unit) : M A := λ s,
  match body s with
  | (ev, s1, OutOfFuel) => (ev, s1, OutOfFuel)
  | (ev, s1, o) =>
      match final s1 with
      | (ev', s2, Return _) => (ev ++ ev', s2, o)
      | (ev', s2, Raise e) => (ev ++ ev', s2, Raise e)
      | (ev', s2, OutOfFuel) => (ev ++ ev', s2, OutOfFuel)
      end
  end.

(** A call that only emits events and never touches the state. *)
Definition io {A} (w : list event * outcome A) : M A := λ s, (w.1, s, w.2).

(** ** Python strings *)

Definition nl : string := String "010"%char "".

(** [s.replace(old, new)] for one-character [old] and [new]. *)
Fixpoint replace (old new : ascii) (s : string) : string :=
  match s with
  | EmptyString => EmptyString
  | String c s' => String (if Ascii.eqb c old then new else c) (replace old new s')
  end.

(** The ASCII characters that [str.strip()] removes. *)
Definition isspace (c : ascii) : bool :=
  let n := nat_of_ascii c in
  ((9 <=? n) && (n <=? 13) || (28 <=? n) && (n <=? 32))%nat.

Fixpoint lstrip (s : string) : string :=
  match s with
  | EmptyString => EmptyString
  | String c s' => if isspace c then lstrip s' else s
  end.

Definition strip (s : string) : string :=
  String.rev (lstrip (String.rev (lstrip s))).

(** [s.split(sep)] for a one-character separator. *)
Fixpoint split (sep : ascii) (s : string) : list string :=
  match s with
  | EmptyString => [EmptyString]
  | String c s' =>
      if Ascii.eqb c sep then EmptyString :: split sep s'
      else match split sep s' with
           | h :: t => String c h :: t
           | [] => [String c EmptyString]
           end
  end.

(** A string or None used as a condition: [while url:], [if not token:]. *)
Definition truthy (o : option string) : bool :=
  match o with
  | Some (String _ _) => true
  | Some EmptyString | None => false
  end.

Definition join (sep : string) (l : list string) : string :=
  match l with
  | [] => ""
  | x :: l' => fold_left (λ acc y, acc +:+ sep +:+ y) l' x
  end.

(** [str()] of a list of plain strings: ['a', 'b']. *)
Definition str_list (l : list string) : string :=
  "[" +:+ join ", " ((λ x, "'" +:+ x +:+ "'") <$> l) +:+ "]".

(** [str(e)]; for a process killed by a signal Python prints the name of
    the signal where this prints its number. *)
Definition str_exn (e : exn) : string :=
  match e with
  | CalledProcessError returncode cmd =>
      if returncode <? 0
      then "Command '" +:+ str_list cmd +:+ "' died with signal "
           +:+ pretty (- returncode) +:+ "."
      else "Command '" +:+ str_list cmd +:+ "' returned non-zero exit status "
           +:+ pretty returncode +:+ "."
  | OSError msg => msg
  | OperationalError msg => msg
  | SlackApiError error => error
  | RequestException msg => msg
  end.

(** ** Registry client *)

(** The decoded JSON body: [results[].name], [next] and [token]; a key that
    is missing reads as the empty list or None, as [dict.get] does. *)
Record json := {
  results : list string;
  next : option string;
  token : option string
}.

Record response := {
  status_code : Z;
  body : json;
  headers : gmap string string
}.

Record registry := {
  requests_get : string → list (string * Z) → response;
  requests_head : string → list (string * string) → response
}.

(** What a request can run into before its answer is used.  The requests
    library raises a RequestException (no connection, a timeout) from
    [requests.get] and [requests.head], and from [response.json()] when the
    body is not JSON; the script catches none of them. *)
Inductive http_fault :=
| Answered                      (* the answer arrives and its body decodes *)
| RequestFails (ex : exn)       (* the request itself raises *)
| BodyNotJson (ex : exn).       (* the answer arrives, [.json()] raises *)

(** The registry as the script reaches it: its answers and the faults on
    the way to them.  A HEAD answer is never decoded, so [BodyNotJson] on a
    HEAD request is no fault. *)
Record transport := {
  answers : registry;
  get_fault : string → list (string * Z) → http_fault;
  head_fault : string → list (string * string) → http_fault
}.

(** A registry every request to which is answered. *)
Definition answering (r : registry) : transport :=
  {| answers := r;
     get_fault := λ _ _, Answered;
     head_fault := λ _ _, Answered |}.
Coercion answering : registry >-> transport.

(** The [while url:] loop shared by get_all_repositories and get_all_tags,
    which differ in the first URL and in the line printed on an error.
    [acc] is [repos] (or [tags]); one unit of fuel pays for one request. *)
Fixpoint while_url (reg : transport) (error_line : Z → string) (fuel : nat)
    (url : option string) (params : list (string * Z)) (acc : list string)
  : list event * outcome (list string) :=
  if truthy url then
    match fuel with
    | O => ([], OutOfFuel)
    | S fuel' =>
        let u := default "" url in
        match get_fault reg u params with
        | RequestFails ex => ([HttpGet u params], Raise ex)
        | fault =>
            let response := requests_get (answers reg) u params in
            if bool_decide (status_code response ≠ 200)
            then ([HttpGet u params; Print (error_line (status_code response))],
                  Return acc)                                  (* break *)
            else
              match fault with
              | BodyNotJson ex => ([HttpGet u params], Raise ex)
              | _ =>
                  let data := body response in
                  let '(ev, o) :=
                    while_url reg error_line fuel' (next data) []
                      (acc ++ results data) in
                  (HttpGet u params :: ev, o)
              end
        end
    end
  else ([], Return acc).

Definition get_all_repositories (reg : transport) (fuel : nat) (namespace : string)
  : list event * outcome (list string) :=
  let repos := [] in
  let url := "https://hub.docker.com/v2/repositories/" +:+ namespace +:+ "/" in
  let params := [("page_size", 100)] in
  while_url reg (λ code, "Error fetching repositories: " +:+ pretty code)
    fuel (Some url) params repos.

Definition get_all_tags (reg : transport) (fuel : nat) (namespace repository : string)
  : list event * outcome (list string) :=
  let tags := [] in
  let url := "https://hub.docker.com/v2/repositories/" +:+ namespace +:+ "/"
             +:+ repository +:+ "/tags/" in
  let params := [("page_size", 100)] in
  while_url reg
    (λ code, "Error fetching tags for " +:+ repository +:+ ": " +:+ pretty code)
    fuel (Some url) params tags.

Definition get_image_digest (reg : transport) (namespace repository tag : string)
  : list event * outcome (option string) :=
  let ref := namespace +:+ "/" +:+ repository +:+ ":" +:+ tag in
  let token_url :=
    "https://auth.docker.io/token?service=registry.docker.io&scope=repository:"
    +:+ namespace +:+ "/" +:+ repository +:+ ":pull" in
  match get_fault reg token_url [] with
  | RequestFails ex => ([HttpGet token_url []], Raise ex)
  | fault =>
      let token_response := requests_get (answers reg) token_url [] in
      if bool_decide (status_code token_response ≠ 200)
      then ([HttpGet token_url [];
             Print ("Error fetching token for " +:+ ref +:+ ": "
                    +:+ pretty (status_code token_response))],
            Return None)
      else
        match fault with
        | BodyNotJson ex => ([HttpGet token_url []], Raise ex)
        | _ =>
            let token := token (body token_response) in
            if negb (truthy token)
            then ([HttpGet token_url []; Print ("No token found for " +:+ ref)],
                  Return None)
            else
              let manifest_url :=
                "https://registry-1.docker.io/v2/" +:+ namespace +:+ "/"
                +:+ repository +:+ "/manifests/" +:+ tag in
              let headers' :=
                [("Authorization", "Bearer " +:+ default "" token);
                 ("Accept", "application/vnd.docker.distribution.manifest.v2+json")] in
              match head_fault reg manifest_url headers' with
              | RequestFails ex =>
                  ([HttpGet token_url []; HttpHead manifest_url headers'], Raise ex)
              | _ =>
                  let response :=
                    requests_head (answers reg) manifest_url headers' in
                  if bool_decide (status_code response ≠ 200)
                  then ([HttpGet token_url []; HttpHead manifest_url headers';
                         Print ("Error fetching digest for " +:+ ref +:+ ": "
                                +:+ pretty (status_code response))],
                        Return None)
                  else
                    let digest := headers response !! "Docker-Content-Digest" in
                    ([HttpGet token_url []; HttpHead manifest_url headers'],
                     Return digest)
              end
        end
  end.

(** ** Scan executor *)

(** A failure injected into one command: it exits with a status of the
    injector's choice and does nothing, or it cannot be started at all
    (the executable is missing: Python raises an OSError). *)
Inductive fault :=
| NoFault
| ExitStatus (returncode : Z)
| CannotLaunch (msg : string).

Record scan_env := {
  tmp_names : list string;       (* the names mkdtemp draws, in order *)
  pull_fault : fault;
  create_fault : fault;
  export_fault : fault;
  tar_fault : fault;
  text_fault : fault;
  text_stdout : string;          (* stdout of the human-readable run *)
  json_fault : fault;
  json_stdout : string;          (* stdout of the --json run *)
  rm_fault : fault;
  rmtree_fault : option string   (* the OSError of shutil.rmtree, if any *)
}.

(** What a started process gives back: return code and captured stdout. *)
Definition process (f : fault) (contract : M (Z * string)) : M (Z * string) :=
  match f with
  | NoFault => contract
  | ExitStatus returncode => ret (returncode, "")
  | CannotLaunch msg => raise (OSError msg)
  end.

(** The commands as they behave without a fault. *)
Definition docker_pull (image_tag : string) : M (Z * string) :=
  s <- get_state;;
  put_state (set_image_store ({[image_tag]} ∪ image_store s) s);;; ret (0, "").

Definition docker_create (name : string) : M (Z * string) :=
  s <- get_state;;
  if bool_decide (name ∈ containers s)
  then ret (1, "")                       (* the name is already in use *)
  else put_state (set_containers ({[name]} ∪ containers s) s);;; ret (0, "").

Definition docker_export (name : string) : M (Z * string) :=
  s <- get_state;;
  ret (if bool_decide (name ∈ containers s) then 0 else 1, "").

Definition tar_extract : M (Z * string) := ret (0, "").

Definition docker_rm (name : string) : M (Z * string) :=
  s <- get_state;;
  if bool_decide (name ∈ containers s)
  then put_state (set_containers (containers s ∖ {[name]}) s);;; ret (0, "")
  else ret (1, "").                      (* no such container *)

(** The scanner is a black box: its output is the environment's, also
    when it exits with a failure status. *)
Definition trufflehog (f : fault) (stdout : string) : M (Z * string) :=
  match f with
  | NoFault => ret (0, stdout)
  | ExitStatus returncode => ret (returncode, stdout)
  | CannotLaunch msg => raise (OSError msg)
  end.

(** [subprocess.run(cmd, check=...)]. *)
Definition subprocess_run (cmd : list string) (check : bool)
    (p : M (Z * string)) : M (Z * string) :=
  emit (Exec cmd);;;
  completed <- p;;
  if check && bool_decide (completed.1 ≠ 0)
  then raise (CalledProcessError completed.1 cmd)
  else ret completed.

(** [subprocess.Popen(cmd, ...)] used as a context manager: the exit
    status is never looked at. *)
Definition subprocess_Popen (cmd : list string) (p : M (Z * string)) : M unit :=
  emit (Exec cmd);;;
  _ <- p;;
  ret tt.

(** [tempfile.mkdtemp()]: the first drawn name that does not exist yet. *)
Definition mkdtemp (names : list string) : M string := λ s,
  match List.find (λ n, negb (bool_decide (n ∈ dirs s))) names with
  | Some d => ([Mkdtemp d], set_dirs ({[d]} ∪ dirs s) s, Return d)
  | None => ([], s, Raise (OSError "No usable temporary directory name found"))
  end.

(** [shutil.rmtree(path)]. *)
Definition rmtree (f : option string) (path : string) : M unit :=
  emit (Rmtree path);;;
  match f with
  | Some msg => raise (OSError msg)
  | None => s <- get_state;; put_state (set_dirs (dirs s ∖ {[path]}) s)
  end.

Definition container_name_of (image_tag : string) : string :=
  "temp_container_" +:+ replace ":" "_" (replace "/" "_" image_tag).

(** Lines 163-166: the number of non-blank lines of the JSON output. *)
Definition count_findings (scan_results_json : string) : Z :=
  Z.of_nat (List.length
    (List.filter (λ line, negb (String.eqb (strip line) ""))
       (split "010" (strip scan_results_json)))).

Definition scan_error_text (image_tag : string) (e : exn) : string :=
  "Error during scanning " +:+ image_tag +:+ ": " +:+ str_exn e.

(** The three blocks of run_trufflehog: lines 139-166, 168-170, 172-174. *)
Definition try_block (e : scan_env) (image_tag temp_dir container_name : string)
  : M (string * Z) :=
  subprocess_run ["docker"; "pull"; "--platform"; "linux/amd64"; image_tag]
    true (process (pull_fault e) (docker_pull image_tag));;;
  subprocess_run ["docker"; "create"; "--platform"; "linux/amd64";
                  "--name"; container_name; image_tag]
    true (process (create_fault e) (docker_create container_name));;;
  subprocess_Popen ["docker"; "export"; container_name]
    (process (export_fault e) (docker_export container_name));;;
  subprocess_Popen ["tar"; "-x"; "-C"; temp_dir]
    (process (tar_fault e) tar_extract);;;
  result <- subprocess_run
              ["trufflehog"; "filesystem"; temp_dir; "--only-verified"]
              false (trufflehog (text_fault e) (text_stdout e));;
  let scan_results := result.2 in
  result_json <- subprocess_run
              ["trufflehog"; "filesystem"; temp_dir; "--only-verified"; "--json"]
              false (trufflehog (json_fault e) (json_stdout e));;
  let scan_results_json := result_json.2 in
  ret (scan_results, count_findings scan_results_json).

(** [except subprocess.CalledProcessError as e:]; an exception is raised
    before line 163 is reached, so [vulnerabilities_count] still holds the
    value it had before the [try]. *)
Definition except_block (image_tag : string) (vulnerabilities_count : Z)
    (ex : exn) : M (string * Z) :=
  match ex with
  | CalledProcessError _ _ =>
      print (scan_error_text image_tag ex);;;
      ret (scan_error_text image_tag ex, vulnerabilities_count)
  | _ => raise ex
  end.

Definition finally_block (e : scan_env) (temp_dir container_name : string)
  : M unit :=
  subprocess_run ["docker"; "rm"; container_name] false
    (process (rm_fault e) (docker_rm container_name));;;
  rmtree (rmtree_fault e) temp_dir.

Definition run_trufflehog (e : scan_env) (image_tag : string) : M (string * Z) :=
  print ("Running TruffleHog on extracted filesystem of " +:+ image_tag);;;
  temp_dir <- mkdtemp (tmp_names e);;
  let container_name := container_name_of image_tag in
  let vulnerabilities_count := 0 in
  try_finally
    (try_except (try_block e image_tag temp_dir container_name)
                (except_block image_tag vulnerabilities_count))
    (finally_block e temp_dir container_name).

(** ** Run coordinator *)

Record env := {
  reg : transport;
  slack_channel : string;
  (* the SlackApiError of the n-th chat_postMessage of the sweep, if any *)
  chat_postMessage_error : nat → option string;
  (* datetime.now(ist).strftime('%Y-%m-%d %H:%M:%S') at the n-th reading *)
  now_ist : nat → string;
  (* the scanner and runtime as they behave during the n-th scan *)
  scan_env_of : nat → scan_env
}.

Definition initialize_db : M unit :=
  s <- get_state;;
  let t := create_table_if_not_exists (images_db s) in
  let columns := columns t in                       (* PRAGMA table_info *)
  t1 <- (if negb (bool_decide ("digest" ∈ columns))
         then lift (alter_table_add_column "digest" t) else ret t);;
  t2 <- (if negb (bool_decide ("vulnerabilities_count" ∈ columns))
         then lift (alter_table_add_column "vulnerabilities_count" t1)
         else ret t1);;
  put_state (set_db (Some t2) s).

Definition update_db (e : env) (n : nat) (image_name tag digest : string)
    (vulnerabilities_count : Z) : M unit :=
  s <- get_state;;
  let current_time_ist := now_ist e n in
  t <- lift (insert_or_replace (images_db s) image_name tag digest
               current_time_ist vulnerabilities_count);;
  put_state (set_db (Some t) s).

Definition chat_postMessage (e : env) (n : nat) (text : string) : M unit :=
  emit (ChatPostMessage (slack_channel e) text);;;
  match chat_postMessage_error e n with
  | Some error => raise (SlackApiError error)
  | None => ret tt
  end.

Definition send_message_to_slack (e : env) (n : nat) (message : string) : M unit :=
  try_except
    (chat_postMessage e n message;;;
     print "Message sent to Slack successfully.")
    (λ ex,
       match ex with
       | SlackApiError error => print ("Error sending message to Slack: " +:+ error)
       | _ => raise ex
       end).

(** A ScanTask: (repo, tag, digest). *)
Abbreviation task := (string * string * string)%type.

(** [for tag in tags:] of scan_images, lines 187-207. *)
Fixpoint for_tag (e : env) (namespace repo : string) (tags : list string)
    (images_to_scan : list task) : M (list task) :=
  match tags with
  | [] => ret images_to_scan
  | tag :: tags' =>
      let image_name := repo in
      digest <- io (get_image_digest (reg e) namespace repo tag);;
      match digest with
      | None => for_tag e namespace repo tags' images_to_scan      (* continue *)
      | Some digest =>
          s <- get_state;;
          result <- lift (select_digest (images_db s) image_name tag);;
          match decide result digest with
          | Scan =>
              for_tag e namespace repo tags' (images_to_scan ++ [(repo, tag, digest)])
          | Skip =>
              print ("No changes detected for " +:+ image_name +:+ ":" +:+ tag
                     +:+ ", skipping scan.");;;
              for_tag e namespace repo tags' images_to_scan
          end
      end
  end.

(** [for repo in repos:], lines 185-207. *)
Fixpoint for_repo (e : env) (fuel : nat) (namespace : string) (repos : list string)
    (images_to_scan : list task) : M (list task) :=
  match repos with
  | [] => ret images_to_scan
  | repo :: repos' =>
      tags <- io (get_all_tags (reg e) fuel namespace repo);;
      images_to_scan' <- for_tag e namespace repo tags images_to_scan;;
      for_repo e fuel namespace repos' images_to_scan'
  end.

(** Lines 180-207: everything up to the plan [images_to_scan]. *)
Definition plan_images (e : env) (fuel : nat) (namespace : string) : M (list task) :=
  initialize_db;;;
  repos <- io (get_all_repositories (reg e) fuel namespace);;
  let images_to_scan := [] in
  for_repo e fuel namespace repos images_to_scan.

Definition summary_message (n : nat) (now : string) : string :=
  "Number of Public Docker images to be scanned: " +:+ pretty n +:+ "." +:+ nl
  +:+ "Scan started at " +:+ now +:+ " IST.".

Definition scan_message_of (repo tag scan_results : string)
    (vulnerabilities_count : Z) : string :=
  if 0 <? vulnerabilities_count
  then ":alert: TruffleHog found " +:+ pretty vulnerabilities_count
       +:+ " vulnerabilities in " +:+ repo +:+ ":" +:+ tag +:+ "." +:+ nl
       +:+ "Verified results are:" +:+ nl +:+ "```" +:+ nl +:+ scan_results
       +:+ nl +:+ "```"
  else "No vulnerabilities found in " +:+ repo +:+ ":" +:+ tag +:+ ".".

(** [for repo, tag, digest in images_to_scan:], lines 215-227; [i] counts
    the tasks done so far. *)
Fixpoint for_image (e : env) (namespace : string) (i : nat)
    (images_to_scan : list task) : M unit :=
  match images_to_scan with
  | [] => ret tt
  | (repo, tag, digest) :: rest =>
      let image_tag := namespace +:+ "/" +:+ repo +:+ ":" +:+ tag in
      r <- run_trufflehog (scan_env_of e i) image_tag;;
      let scan_results := r.1 in
      let vulnerabilities_count := r.2 in
      update_db e (S i) repo tag digest vulnerabilities_count;;;
      send_message_to_slack e (S i)
        (scan_message_of repo tag scan_results vulnerabilities_count);;;
      for_image e namespace (S i) rest
  end.

(** Lines 209-229. *)
Definition execute_plan (e : env) (namespace : string) (images_to_scan : list task)
  : M unit :=
  match images_to_scan with
  | _ :: _ =>
      let message := summary_message (List.length images_to_scan) (now_ist e 0) in
      send_message_to_slack e 0 message;;;
      for_image e namespace 0 images_to_scan
  | [] => print "No new or updated images to scan."
  end.

Definition scan_images (e : env) (fuel : nat) (namespace : string) : M unit :=
  images_to_scan <- plan_images e fuel namespace;;
  execute_plan e namespace images_to_scan.

(** ** Vocabulary of the statements *)

(** A table written by an older version of the script: the key and the
    timestamp are there, [digest] and [vulnerabilities_count] may be not. *)
Definition older_schema (t : table) : Prop :=
  "image_name" ∈ columns t ∧ "tag" ∈ columns t
  ∧ "last_updated_image_timestamp" ∈ columns t.

(** A paginated source as the client sees it from [url]: the pages that
    answer 200 one after the other, each but the last naming the next. *)
Inductive paged (r : registry) : string → list (string * Z) → list (list string) → Prop :=
| paged_last url params :
    status_code (requests_get r url params) = 200 →
    truthy (next (body (requests_get r url params))) = false →
    paged r url params [results (body (requests_get r url params))]
| paged_next url params url' pages :
    status_code (requests_get r url params) = 200 →
    next (body (requests_get r url params)) = Some url' →
    truthy (Some url') = true →
    paged r url' [] pages →
    paged r url params (results (body (requests_get r url params)) :: pages).

(** The same source when the page after [pages] answers [code], not 200. *)
Inductive paged_until (r : registry) (code : Z)
  : string → list (string * Z) → list (list string) → Prop :=
| paged_error url params :
    status_code (requests_get r url params) = code →
    code ≠ 200 →
    paged_until r code url params []
| paged_then url params url' pages :
    status_code (requests_get r url params) = 200 →
    next (body (requests_get r url params)) = Some url' →
    truthy (Some url') = true →
    paged_until r code url' [] pages →
    paged_until r code url params (results (body (requests_get r url params)) :: pages).

Definition is_HttpGet (ev : event) : Prop :=
  match ev with HttpGet _ _ => True | _ => False end.

Definition repositories_url (namespace : string) : string :=
  "https://hub.docker.com/v2/repositories/" +:+ namespace +:+ "/".

Definition tags_url (namespace repository : string) : string :=
  "https://hub.docker.com/v2/repositories/" +:+ namespace +:+ "/"
  +:+ repository +:+ "/tags/".

(** Lines 135-136 of run_trufflehog on their own: the two resources an
    invocation acquires, the scratch directory and the container name. *)
Definition acquire (e : scan_env) (image_tag : string) : M (string * string) :=
  temp_dir <- mkdtemp (tmp_names e);;
  ret (temp_dir, container_name_of image_tag).

(** The digest get_image_digest resolves, None when it gives up. *)
Definition resolve (r : transport) (namespace repository tag : string)
  : option string :=
  match (get_image_digest r namespace repository tag).2 with
  | Return digest => digest
  | _ => None
  end.

Definition token_url (namespace repository : string) : string :=
  "https://auth.docker.io/token?service=registry.docker.io&scope=repository:"
  +:+ namespace +:+ "/" +:+ repository +:+ ":pull".

Definition manifest_url (namespace repository tag : string) : string :=
  "https://registry-1.docker.io/v2/" +:+ namespace +:+ "/" +:+ repository
  +:+ "/manifests/" +:+ tag.

Definition manifest_headers (token : option string) : list (string * string) :=
  [("Authorization", "Bearer " +:+ default "" token);
   ("Accept", "application/vnd.docker.distribution.manifest.v2+json")].

(** The request got an answer: [requests.get] or [requests.head] returned. *)
Definition answered (f : http_fault) : Prop := ∀ ex, f ≠ RequestFails ex.


(** The events of [ev] followed by the run [r]. *)
Definition prepend {A} (ev : list event) (r : list event * state * outcome A)
  : list event * state * outcome A :=
  (ev ++ r.1.1, r.1.2, r.2).

(** Events of the enumeration: requests and log lines only. *)
Definition is_quiet (ev : event) : Prop :=
  match ev with
  | Print _ | HttpGet _ _ | HttpHead _ _ => True
  | _ => False
  end.

(** The table is there with the columns the sweep reads and writes. *)
Definition ready (db : option table) : Prop :=
  ∃ t, db = Some t
       ∧ has_columns t ["image_name"; "tag"; "digest";
                        "last_updated_image_timestamp"; "vulnerabilities_count"]
         = true.

(** A task as the detection plans it against [db]: its digest is the one
    resolved for the pair and the decision on the stored row is Scan. *)
Definition planned (r : transport) (db : option table) (namespace : string)
    (tk : task) : Prop :=
  resolve r namespace tk.1.1 tk.1.2 = Some tk.2
  ∧ ∃ result, select_digest db tk.1.1 tk.1.2 = Return result
              ∧ decide result tk.2 = Scan.

(** The resolution of every tag of [tags] ends with a digest or None. *)
Definition resolves (r : transport) (namespace repo : string)
    (tags : list string) : Prop :=
  Forall (λ tag, ∃ d, (get_image_digest r namespace repo tag).2 = Return d) tags.

(** Every listing of tags of [repos] returns within the fuel, and so does
    the resolution of every tag listed. *)
Definition enumerates (r : transport) (fuel : nat) (namespace : string)
    (repos : list string) : Prop :=
  Forall (λ repo, ∃ tags, (get_all_tags r fuel namespace repo).2 = Return tags
                          ∧ resolves r namespace repo tags)
         repos.

(** [s'] differs from [s] at most in whether the container [name] exists. *)
Definition untouched_but (name : string) (s s' : state) : Prop :=
  dirs s' = dirs s ∧ images_db s' = images_db s
  ∧ ∀ x, x ≠ name → x ∈ containers s' ↔ x ∈ containers s.

(** [m] ends (it returns or raises) and touches nothing but that. *)
Definition keeps {A} (name : string) (m : M A) : Prop :=
  ∀ s ev s' o, m s = (ev, s', o) → untouched_but name s s' ∧ o ≠ OutOfFuel.

(** The host after [docker pull] brought [image_tag] into the image store. *)
Definition pulled (image_tag : string) (s : state) : state :=
  set_image_store ({[image_tag]} ∪ image_store s) s.

(** The command can be started: its fault, if any, is an exit status. *)
Definition launches (f : fault) : bool :=
  match f with
  | CannotLaunch _ => false
  | NoFault | ExitStatus _ => true
  end.

Definition pull_cmd (image_tag : string) : list string :=
  ["docker"; "pull"; "--platform"; "linux/amd64"; image_tag].

Definition create_cmd (image_tag : string) : list string :=
  ["docker"; "create"; "--platform"; "linux/amd64"; "--name";
   container_name_of image_tag; image_tag].

(** Every event of [m] satisfies [P]. *)
Definition emits {A} (P : event → Prop) (m : M A) : Prop :=
  ∀ s ev s' o, m s = (ev, s', o) → Forall P ev.

(** The summary notification of a sweep, whatever its count and time. *)
Definition is_summary (ev : event) : Prop :=
  ∃ channel rest,
    ev = ChatPostMessage channel
           ("Number of Public Docker images to be scanned: " +:+ rest).

(** An action of a scan: a command or a change of the scratch space. *)
Definition is_scan_action (ev : event) : Prop :=
  match ev with
  | Mkdtemp _ | Exec _ | Rmtree _ => True
  | _ => False
  end.

(** The pair of [tk] is one the enumeration of [repos] visits. *)
Definition enumerated (r : transport) (fuel : nat) (namespace : string)
    (repos : list string) (tk : task) : Prop :=
  tk.1.1 ∈ repos
  ∧ ∃ tags, (get_all_tags r fuel namespace tk.1.1).2 = Return tags
            ∧ tk.1.2 ∈ tags.

(** The store is absent or has at least the key and the timestamp. *)
Definition well_formed_store (db : option table) : Prop :=
  ∀ t, db = Some t → older_schema t.

(** ** A small world to run the definitions on

    The namespace [ns] has one repository [app]; its tags come in two
    pages, [v1] and then [v2]. *)

Definition answer (status : Z) (items : list string) (nxt tok : option string)
    (hs : gmap string string) : response :=
  {| status_code := status;
     body := {| results := items; next := nxt; token := tok |};
     headers := hs |}.

Definition demo_get (tags_page2_status : Z) (url : string)
    (params : list (string * Z)) : response :=
  if String.eqb url "https://hub.docker.com/v2/repositories/ns/"
  then answer 200 ["app"] None None ∅
  else if String.eqb url "https://hub.docker.com/v2/repositories/ns/app/tags/"
  then answer 200 ["v1"] (Some "https://hub.docker.com/page2") None ∅
  else if String.eqb url "https://hub.docker.com/page2"
  then answer tags_page2_status ["v2"] None None ∅
  else if String.prefix "https://auth.docker.io/token" url
  then answer 200 [] None (Some "secret") ∅
  else answer 404 [] None None ∅.

Definition demo_head (url : string) (hs : list (string * string)) : response :=
  if String.eqb url "https://registry-1.docker.io/v2/ns/app/manifests/v1"
  then answer 200 [] None None {[ "Docker-Content-Digest" := "sha:one" ]}
  else if String.eqb url "https://registry-1.docker.io/v2/ns/app/manifests/v2"
  then answer 200 [] None None {[ "Docker-Content-Digest" := "sha:new" ]}
  else answer 404 [] None None ∅.

Definition demo_registry : registry :=
  {| requests_get := demo_get 200; requests_head := demo_head |}.

(** The same registry when the second page of tags answers 503. *)
Definition demo_registry_503 : registry :=
  {| requests_get := demo_get 503; requests_head := demo_head |}.

Definition demo_scan_env : scan_env :=
  {| tmp_names := ["/tmp/tmpa"; "/tmp/tmpb"];
     pull_fault := NoFault; create_fault := NoFault;
     export_fault := NoFault; tar_fault := NoFault;
     text_fault := NoFault; text_stdout := "Found verified result";
     json_fault := NoFault; json_stdout := "{}" +:+ nl +:+ "{}" +:+ nl;
     rm_fault := NoFault; rmtree_fault := None |}.

(** The export and the --json run fail with an exit status. *)
Definition export_and_scanner_fail : scan_env :=
  {| tmp_names := ["/tmp/tmpa"; "/tmp/tmpb"];
     pull_fault := NoFault; create_fault := NoFault;
     export_fault := ExitStatus 1; tar_fault := NoFault;
     text_fault := NoFault; text_stdout := "Found verified result";
     json_fault := ExitStatus 1; json_stdout := "{}" +:+ nl +:+ "{}" +:+ nl;
     rm_fault := NoFault; rmtree_fault := None |}.

(** The scanner is not installed. *)
Definition scanner_missing : scan_env :=
  {| tmp_names := ["/tmp/tmpa"; "/tmp/tmpb"];
     pull_fault := NoFault; create_fault := NoFault;
     export_fault := NoFault; tar_fault := NoFault;
     text_fault := CannotLaunch "No such file or directory: 'trufflehog'";
     text_stdout := EmptyString;
     json_fault := NoFault; json_stdout := EmptyString;
     rm_fault := NoFault; rmtree_fault := None |}.

(** The container runtime is not installed: no docker command starts. *)
Definition docker_missing : scan_env :=
  {| tmp_names := ["/tmp/tmpa"; "/tmp/tmpb"];
     pull_fault := CannotLaunch "No such file or directory: 'docker'";
     create_fault := CannotLaunch "No such file or directory: 'docker'";
     export_fault := CannotLaunch "No such file or directory: 'docker'";
     tar_fault := NoFault;
     text_fault := NoFault; text_stdout := EmptyString;
     json_fault := NoFault; json_stdout := EmptyString;
     rm_fault := CannotLaunch "No such file or directory: 'docker'";
     rmtree_fault := None |}.

(** The extracted files cannot be removed from the scratch directory. *)
Definition scratch_locked : scan_env :=
  {| tmp_names := ["/tmp/tmpa"; "/tmp/tmpb"];
     pull_fault := NoFault; create_fault := NoFault;
     export_fault := NoFault; tar_fault := NoFault;
     text_fault := NoFault; text_stdout := "Found verified result";
     json_fault := NoFault; json_stdout := "{}" +:+ nl;
     rm_fault := NoFault;
     rmtree_fault := Some "Permission denied: '/tmp/tmpa/etc'" |}.

(** The image cannot be pulled. *)
Definition pull_fails : scan_env :=
  {| tmp_names := ["/tmp/tmpa"; "/tmp/tmpb"];
     pull_fault := ExitStatus 1; create_fault := NoFault;
     export_fault := NoFault; tar_fault := NoFault;
     text_fault := NoFault; text_stdout := "Found verified result";
     json_fault := NoFault; json_stdout := "{}" +:+ nl;
     rm_fault := NoFault; rmtree_fault := None |}.

Definition demo_env : env :=
  {| reg := demo_registry;
     slack_channel := "C0";
     chat_postMessage_error := λ _, None;
     now_ist := λ n, "2024-01-01 00:00:0" +:+ pretty n;
     scan_env_of := λ _, demo_scan_env |}.

(** The same sweep on a host where no image can be pulled. *)
Definition demo_env_pull_fails : env :=
  {| reg := demo_registry;
     slack_channel := "C0";
     chat_postMessage_error := λ _, None;
     now_ist := λ n, "2024-01-01 00:00:0" +:+ pretty n;
     scan_env_of := λ _, pull_fails |}.

Definition empty_host : state :=
  {| images_db := None; containers := ∅; dirs := ∅; image_store := ∅ |}.

(** ** Vocabulary of the further properties *)

(** The columns the script writes. *)
Definition written_columns : list string :=
  ["image_name"; "tag"; "digest"; "last_updated_image_timestamp";
   "vulnerabilities_count"].

(** The row stored for a key, None when the table or the row is absent. *)
Definition row_of (db : option table) (key : string * string) : option row :=
  match db with
  | Some t => rows t !! key
  | None => None
  end.

(** Every character of [s] is one that [strip] removes. *)
Fixpoint all_space (s : string) : bool :=
  match s with
  | EmptyString => true
  | String c s' => isspace c && all_space s'
  end.

(** What a listing emits after its first request: requests without
    parameters and printed lines. *)
Definition follows_up (ev : event) : Prop :=
  match ev with
  | HttpGet _ params => params = []
  | Print _ => True
  | _ => False
  end.

(** The lines of [s] that hold a character [strip] would keep. *)
Definition nonblank_lines (s : string) : list string :=
  List.filter (λ line, negb (all_space line)) (split "010" s).

(** The characters of a string, first to last. *)
Fixpoint chars (s : string) : list ascii :=
  match s with
  | EmptyString => []
  | String c s' => c :: chars s'
  end.

Definition export_cmd (container_name : string) : list string :=
  ["docker"; "export"; container_name].

Definition tar_cmd (temp_dir : string) : list string :=
  ["tar"; "-x"; "-C"; temp_dir].

Definition scan_cmd (temp_dir : string) : list string :=
  ["trufflehog"; "filesystem"; temp_dir; "--only-verified"].

Definition scan_json_cmd (temp_dir : string) : list string :=
  ["trufflehog"; "filesystem"; temp_dir; "--only-verified"; "--json"].

Definition rm_cmd (container_name : string) : list string :=
  ["docker"; "rm"; container_name].

Definition running_line (image_tag : string) : string :=
  "Running TruffleHog on extracted filesystem of " +:+ image_tag.

(** The reference scan_images builds for a task: [namespace/repo:tag]. *)
Definition image_ref (namespace repo tag : string) : string :=
  namespace +:+ "/" +:+ repo +:+ ":" +:+ tag.

(** The sweep of the small world when every export and every [--json]
    run exits with status 1. *)
Definition demo_env_export_fails : env :=
  {| reg := demo_registry;
     slack_channel := "C0";
     chat_postMessage_error := λ _, None;
     now_ist := λ n, "2024-01-01 00:00:0" +:+ pretty n;
     scan_env_of := λ _, export_and_scanner_fail |}.

(** The sweep of the small world on a host without the scanner. *)
Definition demo_env_scanner_missing : env :=
  {| reg := demo_registry;
     slack_channel := "C0";
     chat_postMessage_error := λ _, None;
     now_ist := λ n, "2024-01-01 00:00:0" +:+ pretty n;
     scan_env_of := λ _, scanner_missing |}.

(** A host on which an earlier run left its container behind. *)
Definition host_with_stale_container : state :=
  {| images_db := None;
     containers := {[ container_name_of "ns/app:v1" ]};
     dirs := ∅;
     image_store := ∅ |}.

(** A call that leaves the state as it is, whatever its outcome. *)
Definition reads_only {A} (m : M A) : Prop := ∀ s, (m s).1.2 = s.

(** From [db] to [db'] no row is lost, and the rows of the keys outside
    [keys] are the same. *)
Definition grows_outside (keys : list (string * string))
    (db db' : option table) : Prop :=
  (∀ key, is_Some (row_of db key) → is_Some (row_of db' key))
  ∧ (∀ key, key ∉ keys → row_of db' key = row_of db key).





(** A registry that answers 503 to everything. *)
Definition registry_down : registry :=
  {| requests_get := λ _ _, answer 503 [] None None ∅;
     requests_head := λ _ _, answer 503 [] None None ∅ |}.

Definition demo_env_registry_down : env :=
  {| reg := registry_down;
     slack_channel := "C0";
     chat_postMessage_error := λ _, None;
     now_ist := λ n, "2024-01-01 00:00:0" +:+ pretty n;
     scan_env_of := λ _, demo_scan_env |}.

(** The task the detection plans for a pair against [db]: none when the
    digest does not resolve or is the stored one. *)
Definition changed (r : transport) (db : option table)
    (namespace repo tag : string) : option task :=
  match resolve r namespace repo tag with
  | None => None
  | Some digest =>
      match select_digest db repo tag with
      | Return result =>
          match decide result digest with
          | Scan => Some (repo, tag, digest)
          | Skip => None
          end
      | _ => None
      end
  end.

Definition is_ChatPostMessage (ev : event) : bool :=
  match ev with ChatPostMessage _ _ => true | _ => false end.

(** The notifications a run attempts, in order. *)
Definition notifications (evs : list event) : list event :=
  List.filter is_ChatPostMessage evs.

(** A host on which no scratch directory can be made. *)
Definition no_tmp_names : scan_env :=
  {| tmp_names := [];
     pull_fault := NoFault; create_fault := NoFault;
     export_fault := NoFault; tar_fault := NoFault;
     text_fault := NoFault; text_stdout := EmptyString;
     json_fault := NoFault; json_stdout := EmptyString;
     rm_fault := NoFault; rmtree_fault := None |}.



(** A registry every page of which names a next page. *)
Definition endless_registry : registry :=
  {| requests_get := λ _ _,
       answer 200 ["app"] (Some "https://hub.docker.com/more") None ∅;
     requests_head := demo_head |}.

(** * Theorems *)

(** ** State store and change detection *)

Lemma has_columns_spec t cs :
  has_columns t cs = true ↔ ∀ c, c ∈ cs → c ∈ columns t.
Proof.
  unfold has_columns. rewrite forallb_forall. split.
  - intros H c Hc. apply list_elem_of_In in Hc. apply H in Hc.
    by apply bool_decide_eq_true in Hc.
  - intros H c Hc. apply bool_decide_eq_true, H. by apply list_elem_of_In.
Qed.

Lemma str_ne_false d v : str_ne d v = false ↔ v = TEXT d.
Proof.
  destruct v as [|s|n]; simpl; try (split; [discriminate | congruence]).
  rewrite negb_false_iff, String.eqb_eq. split; congruence.
Qed.

Lemma decide_Skip result d : decide result d = Skip ↔ result = Some (TEXT d).
Proof.
  unfold decide. destruct (str_ne d _) eqn:E.
  - split; [discriminate |]. intros ->. apply not_false_iff_true in E.
    exfalso. apply E. by apply str_ne_false.
  - apply str_ne_false in E. destruct result as [v|]; [| discriminate].
    split; [congruence | done].
Qed.

Lemma decide_Scan result d : decide result d = Scan ↔ result ≠ Some (TEXT d).
Proof.
  rewrite <- decide_Skip. destruct (decide result d); split; congruence.
Qed.

(** C1. The decision is Scan exactly when no row is stored for the pair or
    the stored digest differs from the resolved one, and Skip otherwise;
    overwriting the timestamp and the count of the stored row never changes
    the decision. *)
Theorem decide_change_detection (R : option row) (d : string) :
  (decide (fetchone_digest R) d = Scan
     ↔ R = None ∨ ∃ r, R = Some r ∧ cell r "digest" ≠ TEXT d)
  ∧ (decide (fetchone_digest R) d = Skip
     ↔ ∃ r, R = Some r ∧ cell r "digest" = TEXT d)
  ∧ (∀ (r : row) (ts count : value),
       decide (fetchone_digest
                 (Some (<["last_updated_image_timestamp" := ts]>
                          (<["vulnerabilities_count" := count]> r)))) d
       = decide (fetchone_digest (Some r)) d).
Proof.
  split; [| split].
  - rewrite decide_Scan. destruct R as [r|]; simpl.
    + split.
      * intros H. right. exists r. split; [done | congruence].
      * intros [? | (r' & [= <-] & H)]; [done | congruence].
    + split; [by left | done].
  - rewrite decide_Skip. destruct R as [r|]; simpl.
    + split; [intros [= H]; eauto | intros (r' & [= <-] & ->); done].
    + split; [done | intros (r' & ? & _); done].
  - intros r ts count. unfold fetchone_digest, cell. simpl.
    rewrite lookup_insert_ne by done. by rewrite lookup_insert_ne by done.
Qed.

Lemma cell_new_row t named c :
  cell (new_row t named) c = if bool_decide (c ∈ columns t) then cell named c else NULL.
Proof.
  unfold new_row, cell at 1.
  destruct (list_to_map _ !! c) as [v|] eqn:E.
  - apply elem_of_list_to_map_2, list_elem_of_fmap in E as (c' & [= -> ->] & Hc).
    by rewrite bool_decide_eq_true_2.
  - apply not_elem_of_list_to_map_2 in E. case_bool_decide as Hc; [| done].
    exfalso. apply E. apply list_elem_of_fmap. exists (c, cell named c).
    split; [done |]. apply list_elem_of_fmap. by exists c.
Qed.

Lemma select_after_insert db image_name tag digest ts count t' :
  insert_or_replace db image_name tag digest ts count = Return t' →
  select_digest (Some t') image_name tag = Return (Some (TEXT digest))
  ∧ (∀ r, rows t' !! (image_name, tag) = Some r →
          cell r "vulnerabilities_count" = INTEGER count)
  ∧ (∀ k, k ≠ (image_name, tag) → ∀ db0, db = Some db0 →
          rows t' !! k = rows db0 !! k)
  ∧ (∀ db0, db = Some db0 → columns t' = columns db0).
Proof.
  unfold insert_or_replace. destruct db as [t|]; [| discriminate].
  destruct (has_columns t _) eqn:Hc; [| discriminate]. intros [= <-].
  pose proof (proj1 (has_columns_spec _ _) Hc) as Hin.
  assert (Hd : "digest" ∈ columns t)
    by (apply Hin; rewrite !elem_of_cons; tauto).
  assert (Hv : "vulnerabilities_count" ∈ columns t)
    by (apply Hin; rewrite !elem_of_cons; tauto).
  split; [| split; [| split]].
  - unfold select_digest.
    replace (has_columns _ _) with true.
    2:{ symmetry. apply has_columns_spec. simpl. intros c Hc'. apply Hin.
        rewrite !elem_of_cons in Hc'. rewrite !elem_of_cons. tauto. }
    simpl. rewrite lookup_insert_eq. simpl. rewrite cell_new_row.
    rewrite bool_decide_eq_true_2 by done. reflexivity.
  - simpl. intros r. rewrite lookup_insert_eq. intros [= <-].
    rewrite cell_new_row, bool_decide_eq_true_2 by done. reflexivity.
  - intros k Hk db0 [= <-]. simpl. by rewrite lookup_insert_ne.
  - by intros db0 [= <-].
Qed.

Lemma initialize_db_run (s : state) :
  ∃ t', initialize_db s = ([], set_db (Some t') s, Return tt)
    ∧ columns t' =
        (let t := create_table_if_not_exists (images_db s) in
         columns t
         ++ (if bool_decide ("digest" ∈ columns t) then [] else ["digest"])
         ++ (if bool_decide ("vulnerabilities_count" ∈ columns t) then []
             else ["vulnerabilities_count"]))
    ∧ rows t' =
        (let t := create_table_if_not_exists (images_db s) in
         (λ r : row,
            let r1 := if bool_decide ("digest" ∈ columns t) then r
                      else <["digest" := NULL]> r in
            if bool_decide ("vulnerabilities_count" ∈ columns t) then r1
            else <["vulnerabilities_count" := NULL]> r1) <$> rows t).
Proof.
  unfold initialize_db, bind, get_state, lift, ret, put_state.
  set (t := create_table_if_not_exists (images_db s)). simpl.
  destruct (bool_decide ("digest" ∈ columns t)) eqn:Hd; simpl.
  - destruct (bool_decide ("vulnerabilities_count" ∈ columns t)) eqn:Hv; simpl.
    + exists t. split; [done | split; [symmetry; apply app_nil_r |]].
      symmetry. apply map_fmap_id.
    + unfold alter_table_add_column. rewrite Hv. simpl.
      eexists. split; [reflexivity |]. simpl. done.
  - unfold alter_table_add_column at 1. rewrite Hd. simpl.
    destruct (bool_decide ("vulnerabilities_count" ∈ columns t)) eqn:Hv; simpl.
    + eexists. split; [reflexivity |]. simpl. split; done.
    + unfold alter_table_add_column. simpl.
      rewrite bool_decide_eq_false_2.
      2:{ apply bool_decide_eq_false in Hv.
          rewrite elem_of_app, list_elem_of_singleton. intros [? | [=]]; done. }
      simpl. eexists. split; [reflexivity |]. simpl.
      split; [symmetry; apply (app_assoc _ [_] [_]) |].
      apply map_eq. intros k. rewrite !lookup_fmap.
      by destruct (rows t !! k).
Qed.

(** C9. Opening the store on a table of an older schema does not fail:
    [initialize_db] returns, the two columns are there afterwards, every
    row is kept with NULL in a column that was added and its old values
    elsewhere, and then the lookup and the upsert both return (the lookup
    after an upsert giving the digest just written). *)
Theorem initialize_db_tolerates_older_schema (s : state) (t : table) :
  images_db s = Some t → older_schema t →
  ∃ t',
    initialize_db s = ([], set_db (Some t') s, Return tt)
    ∧ (∀ c, c ∈ columns t'
            ↔ c ∈ columns t ∨ c = "digest" ∨ c = "vulnerabilities_count")
    ∧ (∀ k, rows t' !! k = None ↔ rows t !! k = None)
    ∧ (∀ k r', rows t' !! k = Some r' →
         ∃ r, rows t !! k = Some r
           ∧ (∀ c, c ∈ columns t → cell r' c = cell r c)
           ∧ (∀ c, c ∉ columns t →
                   c = "digest" ∨ c = "vulnerabilities_count" →
                   cell r' c = NULL))
    ∧ (∀ image_name tag,
         select_digest (Some t') image_name tag
         = Return (fetchone_digest (rows t' !! (image_name, tag))))
    ∧ (∀ e n image_name tag digest count,
         ∃ t'',
           update_db e n image_name tag digest count (set_db (Some t') s)
           = ([], set_db (Some t'') s, Return tt)
           ∧ select_digest (Some t'') image_name tag
             = Return (Some (TEXT digest))).
Proof.
  intros Hdb (Hname & Htag & Hts).
  destruct (initialize_db_run s) as (t' & Hrun & Hcols & Hrows).
  rewrite Hdb in Hcols, Hrows. simpl in Hcols, Hrows.
  assert (Hin : ∀ c, c ∈ columns t'
                     ↔ c ∈ columns t ∨ c = "digest" ∨ c = "vulnerabilities_count").
  { intros c. rewrite Hcols, !elem_of_app.
    repeat case_bool_decide; rewrite ?list_elem_of_singleton, ?elem_of_nil;
      split; intros; destruct_or?; subst; tauto. }
  exists t'. split; [done |]. split; [done |].
  split; [| split; [| split]].
  - intros k. rewrite Hrows, lookup_fmap. by destruct (rows t !! k).
  - intros k r'. rewrite Hrows, lookup_fmap.
    destruct (rows t !! k) as [r|]; [| discriminate]. simpl. intros [= <-].
    exists r. split; [done |]. split.
    + intros c Hc. unfold cell.
      repeat case_bool_decide; rewrite ?lookup_insert_ne; congruence.
    + intros c Hc [-> | ->]; unfold cell.
      * rewrite (bool_decide_eq_false_2 _ Hc).
        case_bool_decide; [| rewrite lookup_insert_ne by done];
          by rewrite lookup_insert_eq.
      * rewrite (bool_decide_eq_false_2 _ Hc). by rewrite lookup_insert_eq.
  - intros image_name tag. unfold select_digest.
    replace (has_columns t' _) with true; [done |].
    symmetry. apply has_columns_spec. intros c Hc. apply Hin.
    rewrite !elem_of_cons, elem_of_nil in Hc. destruct_or?; subst; tauto.
  - intros e n image_name tag digest count.
    unfold update_db, bind, get_state, lift, put_state.
    cbn -[insert_or_replace select_digest].
    destruct (insert_or_replace (Some t') image_name tag digest
                (now_ist e n) count) as [t''| |] eqn:Hins; simpl.
    + exists t''. split; [done |]. by apply select_after_insert in Hins as [? _].
    + exfalso. unfold insert_or_replace in Hins.
      replace (has_columns t' _) with true in Hins; [done |].
      symmetry. apply has_columns_spec. intros c Hc. apply Hin.
      rewrite !elem_of_cons, elem_of_nil in Hc. destruct_or?; subst; tauto.
    + exfalso. unfold insert_or_replace in Hins.
      destruct (has_columns t' _); discriminate.
Qed.

Lemma initialize_db_tolerates_older_schema_witness :
  let t := {| columns := ["image_name"; "tag"; "last_updated_image_timestamp"];
              rows := {[ ("app", "v1") :=
                           ({[ "image_name" := TEXT "app" ]} : row) ]} |} in
  let s := {| images_db := Some t; containers := ∅; dirs := ∅;
              image_store := ∅ |} in
  ∃ t', initialize_db s = ([], set_db (Some t') s, Return tt).
Proof.
  intros t s.
  destruct (initialize_db_tolerates_older_schema s t) as (t' & H & _).
  - reflexivity.
  - unfold older_schema; simpl. rewrite !elem_of_cons. tauto.
  - exists t'. exact H.
Defined.

(** ** Registry client *)

Lemma status_ok c : c = 200 → bool_decide (c ≠ 200) = false.
Proof. intros ->. by apply bool_decide_eq_false_2; intros []. Qed.

Lemma status_not_ok c : c ≠ 200 → bool_decide (c ≠ 200) = true.
Proof. apply bool_decide_eq_true_2. Qed.

Lemma while_url_paged r error_line url params pages :
  paged r url params pages →
  truthy (Some url) = true →
  ∀ fuel acc, (length pages ≤ fuel)%nat →
  ∃ evs,
    while_url r error_line fuel (Some url) params acc
    = (evs, Return (acc ++ concat pages))
    ∧ Forall is_HttpGet evs ∧ length evs = length pages.
Proof.
  induction 1 as [url params H200 Hnext | url params url' pages H200 Hnext Hurl' _ IH];
    intros Hurl fuel acc Hfuel.
  - destruct fuel as [|fuel]; [simpl in Hfuel; lia |].
    cbn [while_url get_fault answering answers]. rewrite Hurl. cbn [default from_option id].
    rewrite (status_ok _ H200).
    cbn [concat]. rewrite (app_nil_r (results _)).
    destruct fuel; cbn [while_url get_fault answering answers]; rewrite Hnext;
      (eexists; split; [reflexivity |]);
      (split; [repeat constructor | done]).
  - destruct fuel as [|fuel]; [simpl in Hfuel; lia |].
    cbn [while_url get_fault answering answers]. rewrite Hurl. cbn [default from_option id].
    rewrite (status_ok _ H200).
    rewrite Hnext.
    destruct (IH Hurl' fuel (acc ++ results (body (requests_get r url params))))
      as (evs & -> & Hall & Hlen); [simpl in Hfuel; lia |].
    eexists. split; [| split].
    + cbn [concat]. by rewrite app_assoc.
    + constructor; [exact I | done].
    + simpl. by rewrite Hlen.
Qed.

Lemma while_url_paged_until r error_line code url params pages :
  paged_until r code url params pages →
  truthy (Some url) = true →
  ∀ fuel acc, (length pages < fuel)%nat →
  ∃ evs,
    while_url r error_line fuel (Some url) params acc
    = (evs ++ [Print (error_line code)], Return (acc ++ concat pages))
    ∧ Forall is_HttpGet evs ∧ length evs = S (length pages).
Proof.
  induction 1 as [url params Hcode Hne | url params url' pages H200 Hnext Hurl' _ IH];
    intros Hurl fuel acc Hfuel.
  - destruct fuel as [|fuel]; [lia |].
    cbn [while_url get_fault answering answers]. rewrite Hurl. cbn [default from_option id].
    rewrite status_not_ok by (by rewrite Hcode).
    exists [HttpGet url params]. rewrite Hcode. cbn [concat].
    rewrite app_nil_r. split; [done |]. split; [| done].
    constructor; [exact I | constructor].
  - destruct fuel as [|fuel]; [lia |].
    cbn [while_url get_fault answering answers]. rewrite Hurl. cbn [default from_option id].
    rewrite (status_ok _ H200).
    rewrite Hnext.
    destruct (IH Hurl' fuel (acc ++ results (body (requests_get r url params))))
      as (evs & -> & Hall & Hlen); [simpl in Hfuel; lia |].
    exists (HttpGet url params :: evs). split; [| split].
    + cbn [concat]. by rewrite app_assoc.
    + constructor; [exact I | done].
    + simpl. by rewrite Hlen.
Qed.

(** C5. Both listings follow the next link until there is none: on a source
    of K pages they return the K pages' items in order after exactly K
    requests (given fuel for K requests).  When the page after [pages]
    answers a status other than 200, they report the status on a line of
    their own (the TransportError of the listing) and return the items
    collected so far. *)
Theorem pagination_follows_next_links (r : registry) (fuel : nat)
    (namespace repository : string) (pages : list (list string)) :
  (paged r (repositories_url namespace) [("page_size", 100)] pages →
   (length pages ≤ fuel)%nat →
   ∃ evs, get_all_repositories r fuel namespace = (evs, Return (concat pages))
          ∧ Forall is_HttpGet evs ∧ length evs = length pages)
  ∧ (paged r (tags_url namespace repository) [("page_size", 100)] pages →
     (length pages ≤ fuel)%nat →
     ∃ evs, get_all_tags r fuel namespace repository = (evs, Return (concat pages))
            ∧ Forall is_HttpGet evs ∧ length evs = length pages)
  ∧ (∀ code,
       paged_until r code (repositories_url namespace) [("page_size", 100)] pages →
       (length pages < fuel)%nat →
       ∃ evs, get_all_repositories r fuel namespace
              = (evs ++ [Print ("Error fetching repositories: " +:+ pretty code)],
                 Return (concat pages))
              ∧ Forall is_HttpGet evs ∧ length evs = S (length pages))
  ∧ (∀ code,
       paged_until r code (tags_url namespace repository) [("page_size", 100)] pages →
       (length pages < fuel)%nat →
       ∃ evs, get_all_tags r fuel namespace repository
              = (evs ++ [Print ("Error fetching tags for " +:+ repository +:+ ": "
                                +:+ pretty code)],
                 Return (concat pages))
              ∧ Forall is_HttpGet evs ∧ length evs = S (length pages)).
Proof.
  unfold get_all_repositories, get_all_tags, repositories_url, tags_url.
  split; [| split; [| split]].
  - intros Hp Hfuel.
    by apply (while_url_paged _ _ _ _ _ Hp eq_refl fuel []).
  - intros Hp Hfuel.
    by apply (while_url_paged _ _ _ _ _ Hp eq_refl fuel []).
  - intros code Hp Hfuel.
    by apply (while_url_paged_until _
                (λ c, "Error fetching repositories: " +:+ pretty c)
                _ _ _ _ Hp eq_refl fuel []).
  - intros code Hp Hfuel.
    by apply (while_url_paged_until _
                (λ c, "Error fetching tags for " +:+ repository +:+ ": " +:+ pretty c)
                _ _ _ _ Hp eq_refl fuel []).
Qed.

Lemma pagination_follows_next_links_witness :
  (∃ evs, get_all_tags demo_registry 2 "ns" "app"
          = (evs, Return (concat [["v1"]; ["v2"]]))
          ∧ Forall is_HttpGet evs ∧ length evs = 2%nat)
  ∧ (∃ evs, get_all_tags demo_registry_503 2 "ns" "app"
            = (evs ++ [Print "Error fetching tags for app: 503"],
               Return (concat [["v1"]]))
            ∧ Forall is_HttpGet evs ∧ length evs = 2%nat).
Proof.
  split.
  - apply (proj1 (proj2 (pagination_follows_next_links
                           demo_registry 2 "ns" "app" [["v1"]; ["v2"]]))).
    + exact (paged_next demo_registry (tags_url "ns" "app") [("page_size", 100)]
               "https://hub.docker.com/page2" [["v2"]] eq_refl eq_refl eq_refl
               (paged_last demo_registry "https://hub.docker.com/page2" []
                  eq_refl eq_refl)).
    + simpl. lia.
  - apply (proj2 (proj2 (proj2 (pagination_follows_next_links
                           demo_registry_503 2 "ns" "app" [["v1"]]))) 503).
    + refine (paged_then demo_registry_503 503 (tags_url "ns" "app")
                [("page_size", 100)] "https://hub.docker.com/page2" []
                eq_refl eq_refl eq_refl
                (paged_error demo_registry_503 503
                   "https://hub.docker.com/page2" [] eq_refl _)).
      discriminate.
    + simpl. lia.
Defined.

Lemma while_url_quiet (r : transport) error_line fuel :
  ∀ url params acc,
    Forall is_quiet (while_url r error_line fuel url params acc).1.
Proof.
  induction fuel as [|fuel IH]; intros url params acc; cbn [while_url].
  - by destruct (truthy url).
  - destruct (truthy url); [| done].
    specialize (IH (next (body (requests_get (answers r) (default "" url) params)))
                  []
                  (acc ++ results (body (requests_get (answers r)
                                           (default "" url) params)))).
    destruct (while_url r error_line fuel _ _ _) as [ev o]. cbn in IH.
    destruct (get_fault r (default "" url) params);
      try case_bool_decide; cbn; repeat constructor; done.
Qed.

Lemma get_all_tags_quiet (r : transport) fuel namespace repo :
  Forall is_quiet (get_all_tags r fuel namespace repo).1.
Proof. apply while_url_quiet. Qed.

Lemma get_all_repositories_quiet (r : transport) fuel namespace :
  Forall is_quiet (get_all_repositories r fuel namespace).1.
Proof. apply while_url_quiet. Qed.

Lemma get_image_digest_quiet (r : transport) namespace repo tag :
  Forall is_quiet (get_image_digest r namespace repo tag).1.
Proof.
  unfold get_image_digest.
  destruct (get_fault r _ []); try case_bool_decide;
    try destruct (negb _); try destruct (head_fault r _ _);
    try case_bool_decide; cbn; repeat constructor.
Qed.

(** get_image_digest ends: it returns what [resolve] gives, or it raises. *)
Lemma get_image_digest_total (r : transport) namespace repo tag :
  ∃ evs o, get_image_digest r namespace repo tag = (evs, o)
           ∧ Forall is_quiet evs
           ∧ (o = Return (resolve r namespace repo tag) ∨ ∃ ex, o = Raise ex).
Proof.
  pose proof (get_image_digest_quiet r namespace repo tag) as Hq.
  unfold resolve.
  destruct (get_image_digest r namespace repo tag) as [evs o] eqn:H.
  exists evs, o. split; [done |]. split; [done |].
  destruct o as [d | ex |]; [by left | right; by eexists |].
  exfalso. revert H. unfold get_image_digest.
  destruct (get_fault r _ []); try case_bool_decide;
    try destruct (negb _); try destruct (head_fault r _ _);
    try case_bool_decide; discriminate.
Qed.

Lemma get_image_digest_returns (r : transport) namespace repo tag d :
  (get_image_digest r namespace repo tag).2 = Return d →
  get_image_digest r namespace repo tag
  = ((get_image_digest r namespace repo tag).1,
     Return (resolve r namespace repo tag)).
Proof.
  unfold resolve.
  destruct (get_image_digest r namespace repo tag) as [evs o]. cbn.
  by intros ->.
Qed.


(** ** The monad, step by step *)

Lemma bind_io {A B} (w : list event * outcome A) (k : A → M B) s :
  bind (io w) k s
  = match w.2 with
    | Return a => prepend w.1 (k a s)
    | Raise e => (w.1, s, Raise e)
    | OutOfFuel => (w.1, s, OutOfFuel)
    end.
Proof.
  unfold bind, io, prepend. destruct w as [ev [a | e |]]; simpl; try done.
  by destruct (k a s) as [[ev' s'] o].
Qed.

Lemma bind_run {A B} (m : M A) (k : A → M B) s ev s1 a :
  m s = (ev, s1, Return a) → bind m k s = prepend ev (k a s1).
Proof.
  intros H. unfold bind, prepend. rewrite H.
  by destruct (k a s1) as [[ev' s'] o].
Qed.

Lemma prepend_nil {A} (r : list event * state * outcome A) : prepend [] r = r.
Proof. by destruct r as [[ev s] o]. Qed.

Lemma prepend_prepend {A} ev1 ev2 (r : list event * state * outcome A) :
  prepend ev1 (prepend ev2 r) = prepend (ev1 ++ ev2) r.
Proof. destruct r as [[ev s] o]. unfold prepend. simpl. by rewrite app_assoc. Qed.

Lemma bind_get_state {B} (k : state → M B) s : bind get_state k s = k s s.
Proof. unfold bind, get_state. by destruct (k s s) as [[ev s'] o]. Qed.

Lemma bind_lift {A B} (o : outcome A) (k : A → M B) s :
  bind (lift o) k s
  = match o with
    | Return a => k a s
    | Raise e => ([], s, Raise e)
    | OutOfFuel => ([], s, OutOfFuel)
    end.
Proof.
  unfold bind, lift. destruct o as [a | e |]; try done.
  by destruct (k a s) as [[ev s'] o].
Qed.

Lemma bind_ret {A B} (a : A) (k : A → M B) s : bind (ret a) k s = k a s.
Proof. unfold bind, ret. by destruct (k a s) as [[ev s'] o]. Qed.

Lemma bind_emit {B} (e : event) (k : unit → M B) s :
  bind (emit e) k s = prepend [e] (k tt s).
Proof. unfold bind, emit, prepend. by destruct (k tt s) as [[ev s'] o]. Qed.

Lemma bind_print {B} (line : string) (k : unit → M B) s :
  bind (print line) k s = prepend [Print line] (k tt s).
Proof. apply bind_emit. Qed.

Lemma bind_put_state {B} (s' : state) (k : unit → M B) s :
  bind (put_state s') k s = k tt s'.
Proof. unfold bind, put_state. by destruct (k tt s') as [[ev s''] o]. Qed.

(** ** Detection *)

Lemma ready_select db name tag :
  ready db →
  ∃ t, db = Some t
       ∧ select_digest db name tag
         = Return (fetchone_digest (rows t !! (name, tag))).
Proof.
  intros (t & -> & Hc). exists t. split; [done |]. unfold select_digest.
  replace (has_columns t _) with true; [done |].
  symmetry. apply has_columns_spec. intros c Hin.
  apply (proj1 (has_columns_spec _ _) Hc).
  rewrite !elem_of_cons, elem_of_nil in Hin. rewrite !elem_of_cons.
  destruct_or?; subst; tauto.
Qed.

(** One turn of the loop over the tags whose digest request returned: the
    plan grows by the task of the tag, if it has changed. *)
Lemma for_tag_step e namespace repo tag tags plan s d0 :
  ready (images_db s) →
  (get_image_digest (reg e) namespace repo tag).2 = Return d0 →
  ∃ ev0,
    Forall is_quiet ev0
    ∧ for_tag e namespace repo (tag :: tags) plan s
      = prepend ev0
          (for_tag e namespace repo tags
             (plan ++ option_list (changed (reg e) (images_db s) namespace repo tag))
             s).
Proof.
  intros Hready Hret. cbn [for_tag].
  pose proof (get_image_digest_quiet (reg e) namespace repo tag) as Hq.
  rewrite bind_io, (get_image_digest_returns _ _ _ _ _ Hret). cbn [fst snd].
  unfold changed.
  destruct (resolve (reg e) namespace repo tag) as [digest|] eqn:Hres.
  - rewrite bind_get_state.
    destruct (ready_select _ repo tag Hready) as (t & Ht & Hsel).
    rewrite Hsel, bind_lift. cbv beta iota.
    destruct (decide (fetchone_digest (rows t !! (repo, tag))) digest) eqn:Hdec.
    + rewrite bind_print, prepend_prepend.
      change (option_list None) with (@nil task).
      rewrite (app_nil_r plan). eexists. split; [| reflexivity].
      apply Forall_app. split; [done | by repeat constructor].
    + eexists. split; [exact Hq | reflexivity].
  - change (option_list None) with (@nil task). rewrite (app_nil_r plan).
    eexists. split; [exact Hq | reflexivity].
Qed.

Lemma changed_planned r db namespace repo tag tk :
  changed r db namespace repo tag = Some tk →
  planned r db namespace tk ∧ tk.1.1 = repo ∧ tk.1.2 = tag.
Proof.
  unfold changed, planned.
  destruct (resolve r namespace repo tag) as [digest|] eqn:Hres; [| done].
  destruct (select_digest db repo tag) as [result | |] eqn:Hsel; [| done | done].
  destruct (decide result digest) eqn:Hdec; [done |].
  intros [= <-]. cbn [fst snd]. split; [| done].
  split; [done |]. by exists result.
Qed.

Lemma changed_or_stored r db namespace repo tag d :
  ready db →
  resolve r namespace repo tag = Some d →
  changed r db namespace repo tag = Some (repo, tag, d)
  ∨ select_digest db repo tag = Return (Some (TEXT d)).
Proof.
  intros Hready Hres. unfold changed. rewrite Hres.
  destruct (ready_select _ repo tag Hready) as (t & Ht & ->).
  destruct (decide (fetchone_digest (rows t !! (repo, tag))) d) eqn:Hdec;
    [right | by left].
  apply decide_Skip in Hdec. by rewrite Hdec.
Qed.

Lemma for_tag_spec e namespace repo tags :
  ∀ plan s, ready (images_db s) →
  ∃ ev o,
    for_tag e namespace repo tags plan s = (ev, s, o)
    ∧ Forall is_quiet ev
    ∧ (((∀ a, o ≠ Return a) ∧ ¬ resolves (reg e) namespace repo tags)
       ∨ (resolves (reg e) namespace repo tags
          ∧ ∃ new,
              o = Return (plan ++ new)
              ∧ Forall (planned (reg e) (images_db s) namespace) new
              ∧ Forall (λ tk : task, tk.1.1 = repo ∧ tk.1.2 ∈ tags) new
              ∧ (∀ tag d, tag ∈ tags →
                   resolve (reg e) namespace repo tag = Some d →
                   (repo, tag, d) ∈ new
                   ∨ select_digest (images_db s) repo tag
                     = Return (Some (TEXT d))))).
Proof.
  induction tags as [|tag tags IH]; intros plan s Hready.
  - exists [], (Return plan). cbn [for_tag]. unfold ret.
    split_and!; try by constructor.
    right. split; [constructor |]. exists []. rewrite app_nil_r.
    split_and!; try by constructor.
    intros tag0 d Hin. by apply elem_of_nil in Hin.
  - destruct (get_image_digest_total (reg e) namespace repo tag)
      as (ev0 & o0 & Hrun & Hq0 & [-> | [ex ->]]).
    + destruct (for_tag_step e namespace repo tag tags plan s _ Hready
                  (f_equal snd Hrun)) as (ev1 & Hq1 & ->).
      set (extra := option_list (changed (reg e) (images_db s) namespace repo tag)).
      destruct (IH (plan ++ extra) s Hready) as (ev & o & -> & Hq & Hcase).
      exists (ev1 ++ ev), o. unfold prepend. cbn [fst snd].
      split; [reflexivity |]. split; [by apply Forall_app |].
      destruct Hcase as [[Hno Hnr] | (Hres & new & -> & Hp & Hk & Hall)].
      * left. split; [done |]. intros Hr. by apply Forall_cons in Hr as [_ ?].
      * right. split.
        { constructor; [| done]. eexists. by rewrite Hrun. }
        exists (extra ++ new). split; [by rewrite app_assoc |].
        assert (Hextra : ∀ tk, tk ∈ extra →
                  planned (reg e) (images_db s) namespace tk
                  ∧ tk.1.1 = repo ∧ tk.1.2 = tag).
        { intros tk. unfold extra.
          destruct (changed (reg e) (images_db s) namespace repo tag) as [tk'|]
            eqn:Hch; cbn [option_list].
          - intros ->%list_elem_of_singleton. by apply changed_planned.
          - by intros ?%elem_of_nil. }
        split_and!.
        -- apply Forall_app. split; [| done].
           apply Forall_forall. intros tk Htk. by apply Hextra.
        -- apply Forall_app. split.
           ++ apply Forall_forall. intros tk Htk.
              destruct (Hextra tk Htk) as (_ & ? & ->). split; [done | by left].
           ++ eapply Forall_impl; [exact Hk |]. intros tk [? ?].
              split; [done | by right].
        -- intros tag' d [-> | Hin]%elem_of_cons Hd.
           ++ destruct (changed_or_stored (reg e) (images_db s) namespace repo tag d
                          Hready Hd) as [Hch | ?]; [| by right].
              left. apply elem_of_app. left. unfold extra. rewrite Hch.
              by apply list_elem_of_singleton.
           ++ destruct (Hall tag' d Hin Hd) as [? | ?]; [| by right].
              left. apply elem_of_app. by right.
    + exists ev0, (Raise ex). cbn [for_tag]. rewrite bind_io, Hrun. cbn [fst snd].
      split; [done |]. split; [done |]. left. split; [done |].
      intros Hr. apply Forall_cons in Hr as [[d Hd] _]. rewrite Hrun in Hd.
      discriminate.
Qed.

Lemma for_repo_spec e fuel namespace repos :
  ∀ plan s, ready (images_db s) →
  ∃ ev o,
    for_repo e fuel namespace repos plan s = (ev, s, o)
    ∧ Forall is_quiet ev
    ∧ (((∀ a, o ≠ Return a) ∧ ¬ enumerates (reg e) fuel namespace repos)
       ∨ (enumerates (reg e) fuel namespace repos
          ∧ ∃ new,
              o = Return (plan ++ new)
              ∧ Forall (planned (reg e) (images_db s) namespace) new
              ∧ Forall (enumerated (reg e) fuel namespace repos) new
              ∧ (∀ repo tags tag d,
                   repo ∈ repos →
                   (get_all_tags (reg e) fuel namespace repo).2 = Return tags →
                   tag ∈ tags →
                   resolve (reg e) namespace repo tag = Some d →
                   (repo, tag, d) ∈ new
                   ∨ select_digest (images_db s) repo tag
                     = Return (Some (TEXT d))))).
Proof.
  induction repos as [|repo repos IH]; intros plan s Hready.
  - exists [], (Return plan). cbn [for_repo]. unfold ret.
    split_and!; try by constructor.
    right. split; [constructor |]. exists []. rewrite app_nil_r.
    split_and!; try by constructor.
    intros repo0 tags tag d Hin. by apply elem_of_nil in Hin.
  - cbn [for_repo]. rewrite bind_io.
    pose proof (get_all_tags_quiet (reg e) fuel namespace repo) as Hq0.
    destruct (get_all_tags (reg e) fuel namespace repo) as [ev0 [tags | ex |]]
      eqn:Ho; cbn [fst snd] in *.
    2:{ eexists _, (Raise ex). split_and!; [reflexivity | done |].
        left. split; [done |]. intros Hen.
        apply Forall_cons in Hen as [(tags & Ht & _) _]. rewrite Ho in Ht.
        discriminate. }
    2:{ eexists _, OutOfFuel. split_and!; [reflexivity | done |].
        left. split; [done |]. intros Hen.
        apply Forall_cons in Hen as [(tags & Ht & _) _]. rewrite Ho in Ht.
        discriminate. }
    destruct (for_tag_spec e namespace repo tags plan s Hready)
      as (ev1 & o1 & Hrun & Hq1 & Hcase1).
    destruct Hcase1 as [[Hno1 Hnr1] | (Hres1 & new1 & -> & Hp1 & Hk1 & Hall1)].
    { exists (ev0 ++ ev1), (match o1 with Return _ => OutOfFuel | Raise ex => Raise ex
                                      | OutOfFuel => OutOfFuel end).
      split.
      { unfold bind. rewrite Hrun. unfold prepend.
        destruct o1 as [a | ex |]; [by destruct (Hno1 a) | done | done]. }
      split; [by apply Forall_app |]. left.
      split; [by destruct o1 |]. intros Hen.
      apply Forall_cons in Hen as [(tags' & Ht' & Hr) _]. rewrite Ho in Ht'.
      injection Ht' as <-. done. }
    rewrite (bind_run _ _ _ _ _ _ Hrun), prepend_prepend.
    destruct (IH (plan ++ new1) s Hready) as (ev2 & o & -> & Hq2 & Hcase).
    eexists _, o. unfold prepend. cbn [fst snd].
    split; [reflexivity |].
    split; [by rewrite !Forall_app |].
    destruct Hcase as [[Hno Hne] | (Hen & new2 & -> & Hp2 & Hk2 & Hall2)].
    * left. split; [done |]. intros Hen. by apply Forall_cons in Hen as [_ ?].
    * right. split; [constructor; [exists tags; by rewrite Ho | done] |].
      exists (new1 ++ new2). split; [by rewrite app_assoc |].
      split; [by apply Forall_app |].
      split.
      { apply Forall_app. split.
        - eapply Forall_impl; [exact Hk1 |]. intros tk [Heq Hin].
          unfold enumerated. rewrite Heq. split; [by left |].
          exists tags. by rewrite Ho.
        - eapply Forall_impl; [exact Hk2 |]. intros tk [Hin Htags].
          split; [by right | done]. }
      intros repo' tags' tag d [-> | Hin]%elem_of_cons Htags Htag Hd.
      -- rewrite Ho in Htags. injection Htags as <-.
         destruct (Hall1 tag d Htag Hd) as [? | ?]; [| by right].
         left. apply elem_of_app. by left.
      -- destruct (Hall2 repo' tags' tag d Hin Htags Htag Hd) as [? | ?];
           [| by right].
         left. apply elem_of_app. by right.
Qed.




(** ** Scan executor: the names an invocation acquires *)

Lemma mkdtemp_fresh names s ev s' d :
  mkdtemp names s = (ev, s', Return d) →
  (d ∉ dirs s) ∧ dirs s' = {[d]} ∪ dirs s ∧ containers s' = containers s
  ∧ images_db s' = images_db s ∧ ev = [Mkdtemp d].
Proof.
  unfold mkdtemp.
  destruct (List.find _ names) as [d'|] eqn:Hfind; [| discriminate].
  intros [= <- <- <-]. apply find_some in Hfind as [_ Hd].
  apply negb_true_iff, bool_decide_eq_false in Hd. done.
Qed.

Lemma acquire_run e image_tag s ev s' d c :
  acquire e image_tag s = (ev, s', Return (d, c)) →
  mkdtemp (tmp_names e) s = (ev, s', Return d) ∧ c = container_name_of image_tag.
Proof.
  unfold acquire, bind.
  destruct (mkdtemp (tmp_names e) s) as [[ev0 s0] [d0 | ex |]]; simpl;
    [| discriminate | discriminate].
  rewrite app_nil_r. by intros [= <- <- <- <-].
Qed.

(** C8, as the script has it.  Of two invocations that are alive together
    (the first one's scratch directory exists when the second one starts)
    the scratch directories differ; the container name is a function of
    the image reference alone, the same for both invocations exactly when
    the references agree once [/] and [:] are replaced by [_]. *)
Theorem acquire_names (e1 e2 : scan_env) (tag1 tag2 : string) (s s1 s' s2 : state)
    (ev1 ev2 : list event) (d1 c1 d2 c2 : string) :
  acquire e1 tag1 s = (ev1, s1, Return (d1, c1)) →
  d1 ∈ dirs s' →
  acquire e2 tag2 s' = (ev2, s2, Return (d2, c2)) →
  d1 ≠ d2
  ∧ (c1 = c2 ↔ replace ":" "_" (replace "/" "_" tag1)
               = replace ":" "_" (replace "/" "_" tag2)).
Proof.
  intros [_ ->]%acquire_run Hd1 [H2 ->]%acquire_run.
  apply mkdtemp_fresh in H2 as (Hfresh & _). split; [congruence |].
  unfold container_name_of. split; [| by intros ->].
  intros H. simpl in H. by simplify_eq.
Qed.

Lemma acquire_names_witness :
  let first := acquire demo_scan_env "ns/app:v1" empty_host in
  let second := acquire demo_scan_env "ns/app:v2" first.1.2 in
  "/tmp/tmpa" ≠ "/tmp/tmpb"
  ∧ ("temp_container_ns_app_v1" = "temp_container_ns_app_v2"
     ↔ replace ":" "_" (replace "/" "_" "ns/app:v1")
       = replace ":" "_" (replace "/" "_" "ns/app:v2")).
Proof.
  intros first second.
  apply (acquire_names demo_scan_env demo_scan_env "ns/app:v1" "ns/app:v2"
           empty_host first.1.2 first.1.2 second.1.2
           [Mkdtemp "/tmp/tmpa"] [Mkdtemp "/tmp/tmpb"]).
  - reflexivity.
  - vm_compute. reflexivity.
  - reflexivity.
Defined.

(** C8 as stated fails: two invocations on the same image reference, the
    second started while the first is alive, acquire the same container
    name; so do two invocations on different references that agree after
    the replacement. *)
Lemma container_name_collision :
  let first := acquire demo_scan_env "ns/app:v1" empty_host in
  let second := acquire demo_scan_env "ns/app:v1" first.1.2 in
  first.2 = Return ("/tmp/tmpa", "temp_container_ns_app_v1")
  ∧ second.2 = Return ("/tmp/tmpb", "temp_container_ns_app_v1")
  ∧ container_name_of "ns/b_c:d" = container_name_of "ns/b:c_d".
Proof. vm_compute. done. Qed.

(** ** Scan executor: what the blocks touch *)

Lemma untouched_refl name s : untouched_but name s s.
Proof. by split_and!. Qed.

Lemma untouched_trans name s1 s2 s3 :
  untouched_but name s1 s2 → untouched_but name s2 s3 → untouched_but name s1 s3.
Proof.
  intros (Hd1 & Hi1 & Hc1) (Hd2 & Hi2 & Hc2).
  split_and!; [congruence | congruence |].
  intros x Hx. by rewrite Hc2, Hc1.
Qed.

Lemma keeps_ret {A} name (a : A) : keeps name (ret a).
Proof. intros s ev s' o [= <- <- <-]. split; [apply untouched_refl | done]. Qed.

Lemma keeps_raise {A} name ex : keeps name (@raise A ex).
Proof. intros s ev s' o [= <- <- <-]. split; [apply untouched_refl | done]. Qed.

Lemma keeps_emit name e : keeps name (emit e).
Proof. intros s ev s' o [= <- <- <-]. split; [apply untouched_refl | done]. Qed.

Lemma keeps_bind {A B} name (m : M A) (k : A → M B) :
  keeps name m → (∀ a, keeps name (k a)) → keeps name (bind m k).
Proof.
  intros Hm Hk s ev s' o. unfold bind.
  destruct (m s) as [[ev1 s1] [a | ex |]] eqn:Em.
  - destruct (k a s1) as [[ev2 s2] o2] eqn:Ek. intros [= <- <- <-].
    destruct (Hm _ _ _ _ Em) as [H1 _]. destruct (Hk _ _ _ _ _ Ek) as [H2 Ho].
    split; [by eapply untouched_trans | done].
  - intros [= <- <- <-]. destruct (Hm _ _ _ _ Em) as [H1 _]. done.
  - destruct (Hm _ _ _ _ Em) as [_ Ho]. done.
Qed.

Lemma keeps_try_except {A} name (body : M A) handler :
  keeps name body → (∀ ex, keeps name (handler ex)) →
  keeps name (try_except body handler).
Proof.
  intros Hb Hh s ev s' o. unfold try_except.
  destruct (body s) as [[ev1 s1] [a | ex |]] eqn:Eb.
  - intros [= <- <- <-]. by destruct (Hb _ _ _ _ Eb).
  - destruct (handler ex s1) as [[ev2 s2] o2] eqn:Eh. intros [= <- <- <-].
    destruct (Hb _ _ _ _ Eb) as [H1 _]. destruct (Hh _ _ _ _ _ Eh) as [H2 Ho].
    split; [by eapply untouched_trans | done].
  - by destruct (Hb _ _ _ _ Eb).
Qed.

Lemma keeps_process name f (contract : M (Z * string)) :
  keeps name contract → keeps name (process f contract).
Proof. destruct f; [done | intros _; apply keeps_ret | intros _; apply keeps_raise]. Qed.

Lemma keeps_docker_pull name image_tag : keeps name (docker_pull image_tag).
Proof.
  intros s ev s' o. unfold docker_pull. rewrite bind_get_state, bind_put_state.
  intros [= <- <- <-]. split; [by split_and! | done].
Qed.

Lemma keeps_docker_create name : keeps name (docker_create name).
Proof.
  intros s ev s' o. unfold docker_create. rewrite bind_get_state.
  case_bool_decide.
  - intros [= <- <- <-]. split; [apply untouched_refl | done].
  - rewrite bind_put_state. intros [= <- <- <-]. split; [| done].
    split_and!; [done | done |]. intros x Hx. simpl.
    rewrite elem_of_union, elem_of_singleton. tauto.
Qed.

Lemma keeps_docker_export name : keeps name (docker_export name).
Proof.
  intros s ev s' o. unfold docker_export. rewrite bind_get_state.
  intros [= <- <- <-]. split; [apply untouched_refl | done].
Qed.

Lemma keeps_docker_rm name : keeps name (docker_rm name).
Proof.
  intros s ev s' o. unfold docker_rm. rewrite bind_get_state.
  case_bool_decide.
  - rewrite bind_put_state. intros [= <- <- <-]. split; [| done].
    split_and!; [done | done |]. intros x Hx. simpl.
    rewrite elem_of_difference, elem_of_singleton. tauto.
  - intros [= <- <- <-]. split; [apply untouched_refl | done].
Qed.

Lemma keeps_trufflehog name f stdout : keeps name (trufflehog f stdout).
Proof. destruct f; [apply keeps_ret | apply keeps_ret | apply keeps_raise]. Qed.

Lemma keeps_subprocess_run name cmd check p :
  keeps name p → keeps name (subprocess_run cmd check p).
Proof.
  intros Hp. unfold subprocess_run.
  apply keeps_bind; [apply keeps_emit |]. intros _.
  apply keeps_bind; [done |]. intros completed.
  destruct (_ && _); [apply keeps_raise | apply keeps_ret].
Qed.

Lemma keeps_subprocess_Popen name cmd p :
  keeps name p → keeps name (subprocess_Popen cmd p).
Proof.
  intros Hp. unfold subprocess_Popen.
  apply keeps_bind; [apply keeps_emit |]. intros _.
  apply keeps_bind; [done |]. intros _. apply keeps_ret.
Qed.

Lemma keeps_try_block e image_tag temp_dir name :
  keeps name (try_block e image_tag temp_dir name).
Proof.
  unfold try_block.
  repeat first
    [ apply keeps_ret
    | apply keeps_subprocess_run
    | apply keeps_subprocess_Popen
    | apply keeps_process
    | apply keeps_docker_pull
    | apply keeps_docker_create
    | apply keeps_docker_export
    | apply keeps_trufflehog
    | apply keeps_bind; [| intros ?] ].
Qed.

Lemma keeps_except_block name image_tag count ex :
  keeps name (except_block image_tag count ex).
Proof.
  destruct ex; try apply keeps_raise.
  apply keeps_bind; [apply keeps_emit |]. intros _. apply keeps_ret.
Qed.

Lemma subprocess_run_returns cmd check p s ev s1 c :
  p s = (ev, s1, Return c) →
  (check && bool_decide (c.1 ≠ 0)) = false →
  subprocess_run cmd check p s = (Exec cmd :: ev, s1, Return c).
Proof.
  intros Hp Hc. unfold subprocess_run. rewrite bind_emit.
  rewrite (bind_run _ _ _ _ _ _ Hp), Hc. unfold ret, prepend. cbn.
  by rewrite app_nil_r.
Qed.

Lemma subprocess_run_check_fails cmd p s ev s1 c :
  p s = (ev, s1, Return c) →
  c.1 ≠ 0 →
  subprocess_run cmd true p s
  = (Exec cmd :: ev, s1, Raise (CalledProcessError c.1 cmd)).
Proof.
  intros Hp Hc. unfold subprocess_run. rewrite bind_emit.
  rewrite (bind_run _ _ _ _ _ _ Hp). cbn [andb].
  rewrite bool_decide_eq_true_2 by done. unfold raise, prepend. cbn.
  by rewrite app_nil_r.
Qed.

Lemma subprocess_run_cannot_launch cmd check p s ev s1 ex :
  p s = (ev, s1, Raise ex) →
  subprocess_run cmd check p s = (Exec cmd :: ev, s1, Raise ex).
Proof.
  intros Hp. unfold subprocess_run. rewrite bind_emit.
  unfold bind. by rewrite Hp.
Qed.

Lemma subprocess_Popen_returns cmd p s ev s1 c :
  p s = (ev, s1, Return c) →
  subprocess_Popen cmd p s = (Exec cmd :: ev, s1, Return tt).
Proof.
  intros Hp. unfold subprocess_Popen. rewrite bind_emit.
  rewrite (bind_run _ _ _ _ _ _ Hp). unfold ret, prepend. cbn.
  by rewrite app_nil_r.
Qed.

Lemma docker_pull_run image_tag s :
  subprocess_run ["docker"; "pull"; "--platform"; "linux/amd64"; image_tag] true
    (docker_pull image_tag) s
  = ([Exec ["docker"; "pull"; "--platform"; "linux/amd64"; image_tag]],
     pulled image_tag s, Return (0, EmptyString)).
Proof.
  apply (subprocess_run_returns _ true _ s [] _ (0, EmptyString)); [| done].
  unfold docker_pull. by rewrite bind_get_state, bind_put_state.
Qed.

Lemma docker_rm_run name s :
  ∃ s' c, docker_rm name s = ([], s', Return c)
          ∧ containers s' = containers s ∖ {[name]}
          ∧ dirs s' = dirs s ∧ images_db s' = images_db s.
Proof.
  unfold docker_rm. rewrite bind_get_state. case_bool_decide as Hin.
  - rewrite bind_put_state. by eexists _, _.
  - exists s, (1, EmptyString). split_and!; try done.
    apply set_eq. intros x. rewrite elem_of_difference, elem_of_singleton.
    split; [| tauto]. intros Hx. split; [done |]. by intros ->.
Qed.

(** The [finally] block when neither of its commands is at fault. *)
Lemma finally_block_run e temp_dir name s :
  rm_fault e = NoFault → rmtree_fault e = None →
  ∃ s',
    finally_block e temp_dir name s
    = ([Exec ["docker"; "rm"; name]; Rmtree temp_dir], s', Return tt)
    ∧ containers s' = containers s ∖ {[name]}
    ∧ dirs s' = dirs s ∖ {[temp_dir]}
    ∧ images_db s' = images_db s.
Proof.
  intros Hrm Hrmtree. unfold finally_block. rewrite Hrm, Hrmtree. cbn [process].
  destruct (docker_rm_run name s) as (s1 & c & Hrun & Hc & Hd & Hi).
  rewrite (bind_run _ _ _ _ _ _ (subprocess_run_returns _ false _ _ _ _ _ Hrun eq_refl)).
  unfold rmtree. rewrite bind_emit, bind_get_state. unfold put_state, prepend. cbn.
  eexists. split; [reflexivity |]. cbn. by rewrite Hd.
Qed.

Lemma run_trufflehog_unfold e image_tag s evm s0 temp_dir :
  mkdtemp (tmp_names e) s = (evm, s0, Return temp_dir) →
  run_trufflehog e image_tag s
  = prepend
      (Print ("Running TruffleHog on extracted filesystem of " +:+ image_tag)
       :: evm)
      (try_finally
         (try_except
            (try_block e image_tag temp_dir (container_name_of image_tag))
            (except_block image_tag 0))
         (finally_block e temp_dir (container_name_of image_tag)) s0).
Proof.
  intros Hm. unfold run_trufflehog. rewrite bind_print.
  rewrite (bind_run _ _ _ _ _ _ Hm). by rewrite prepend_prepend.
Qed.

(** X23. Whatever happens to the pull, the create, the export, tar and
    the two scanner runs (an exit status or a command that cannot be
    started), when the two cleanup commands themselves run without fault
    the call ends (it returns or raises) with [docker rm] and [rmtree] as
    its last two actions, and neither the container nor the scratch
    directory exists afterwards; the table, the other containers and the
    other scratch directories are as before. *)
Theorem cleanup_guarantee (e : scan_env) (image_tag : string) (s s' : state)
    (ev : list event) (o : outcome (string * Z)) (temp_dir : string) :
  rm_fault e = NoFault →
  rmtree_fault e = None →
  (mkdtemp (tmp_names e) s).2 = Return temp_dir →
  run_trufflehog e image_tag s = (ev, s', o) →
  (container_name_of image_tag ∉ containers s')
  ∧ (temp_dir ∉ dirs s')
  ∧ o ≠ OutOfFuel
  ∧ (∃ ev0, ev = ev0 ++ [Exec ["docker"; "rm"; container_name_of image_tag];
                         Rmtree temp_dir])
  ∧ dirs s' = dirs s
  ∧ images_db s' = images_db s
  ∧ (∀ x, x ≠ container_name_of image_tag →
          x ∈ containers s' ↔ x ∈ containers s).
Proof.
  intros Hrm Hrmtree Hmk.
  destruct (mkdtemp (tmp_names e) s) as [[evm s0] om] eqn:Hm.
  simpl in Hmk. subst om.
  rewrite (run_trufflehog_unfold _ _ _ _ _ _ Hm).
  apply mkdtemp_fresh in Hm as (Hfresh & Hdirs0 & Hc0 & Hi0 & _).
  unfold try_finally.
  destruct (try_except _ _ s0) as [[evb sb] ob] eqn:Hb.
  pose proof (keeps_try_except (container_name_of image_tag) _ _
                (keeps_try_block e image_tag temp_dir _)
                (keeps_except_block _ image_tag 0) _ _ _ _ Hb)
    as [(Hd & Hi & Hc) Hob].
  destruct (finally_block_run e temp_dir (container_name_of image_tag) sb Hrm Hrmtree)
    as (s2 & Hfin & Hc2 & Hd2 & Hi2).
  assert (Hend : ∀ o', o' ≠ OutOfFuel →
    prepend (Print ("Running TruffleHog on extracted filesystem of " +:+ image_tag)
             :: evm)
      (evb ++ [Exec ["docker"; "rm"; container_name_of image_tag]; Rmtree temp_dir],
       s2, o') = (ev, s', o) →
    (container_name_of image_tag ∉ containers s')
    ∧ (temp_dir ∉ dirs s') ∧ o ≠ OutOfFuel
    ∧ (∃ ev0, ev = ev0 ++ [Exec ["docker"; "rm"; container_name_of image_tag];
                           Rmtree temp_dir])
    ∧ dirs s' = dirs s ∧ images_db s' = images_db s
    ∧ (∀ x, x ≠ container_name_of image_tag →
            x ∈ containers s' ↔ x ∈ containers s)).
  { intros o' Ho'. unfold prepend. cbn [fst snd]. intros [= <- <- <-].
    split_and!.
    - rewrite Hc2, elem_of_difference, elem_of_singleton. tauto.
    - rewrite Hd2, elem_of_difference, elem_of_singleton. tauto.
    - done.
    - exists (Print ("Running TruffleHog on extracted filesystem of " +:+ image_tag)
              :: evm ++ evb).
      simpl. by rewrite <- app_assoc.
    - rewrite Hd2, Hd, Hdirs0. apply set_eq. intros x.
      rewrite elem_of_difference, elem_of_union, !elem_of_singleton.
      split; [tauto |]. intros Hx. split; [by right |]. by intros ->.
    - congruence.
    - intros x Hx. rewrite Hc2, elem_of_difference, elem_of_singleton.
      rewrite (Hc x Hx), Hc0. tauto. }
  destruct ob as [a | ex |]; [| | done]; rewrite Hfin; by apply Hend.
Qed.

Lemma cleanup_guarantee_witness :
  let run := run_trufflehog scanner_missing "ns/app:v1" empty_host in
  ("temp_container_ns_app_v1" ∉ containers run.1.2)
  ∧ ("/tmp/tmpa" ∉ dirs run.1.2)
  ∧ run.2 ≠ OutOfFuel
  ∧ (∃ ev0, run.1.1 = ev0 ++ [Exec ["docker"; "rm"; "temp_container_ns_app_v1"];
                              Rmtree "/tmp/tmpa"])
  ∧ dirs run.1.2 = dirs empty_host
  ∧ images_db run.1.2 = images_db empty_host
  ∧ (∀ x, x ≠ "temp_container_ns_app_v1" →
          x ∈ containers run.1.2 ↔ x ∈ containers empty_host).
Proof.
  intros run.
  apply (cleanup_guarantee scanner_missing "ns/app:v1" empty_host run.1.2
           run.1.1 run.2 "/tmp/tmpa").
  - reflexivity.
  - reflexivity.
  - reflexivity.
  - subst run. by destruct (run_trufflehog _ _ _) as [[ev s'] o].
Defined.

(** C2 fails on the code.  The [finally] block runs [docker rm] and then
    [rmtree], with nothing around either.  On a host where [docker] cannot
    be started the pull fails and [docker rm] raises in its turn, so
    [rmtree] is never reached; where the scratch directory cannot be
    removed [rmtree] itself raises.  Either way the call ends with the
    scratch directory still there. *)
Lemma cleanup_skipped_when_cleanup_fails :
  let run := run_trufflehog docker_missing "ns/app:v1" empty_host in
  let run' := run_trufflehog scratch_locked "ns/app:v1" empty_host in
  bool_decide ("/tmp/tmpa" ∈ dirs run.1.2) = true
  ∧ run.2 = Raise (OSError "No such file or directory: 'docker'")
  ∧ Forall (λ ev, ev ≠ Rmtree "/tmp/tmpa") run.1.1
  ∧ bool_decide ("/tmp/tmpa" ∈ dirs run'.1.2) = true
  ∧ run'.2 = Raise (OSError "Permission denied: '/tmp/tmpa/etc'").
Proof.
  intros run run'. split; [vm_compute; reflexivity |].
  split; [vm_compute; reflexivity |]. split; [| by vm_compute].
  vm_compute. repeat constructor; discriminate.
Qed.

(** ** Scan executor: what a failure becomes *)

Lemma bind_raises {A B} (m : M A) (k : A → M B) s ev s1 ex :
  m s = (ev, s1, Raise ex) → bind m k s = (ev, s1, Raise ex).
Proof. intros H. unfold bind. by rewrite H. Qed.

Lemma run_trufflehog_outcome e image_tag s temp_dir evb sb ob :
  rm_fault e = NoFault →
  rmtree_fault e = None →
  (mkdtemp (tmp_names e) s).2 = Return temp_dir →
  try_except (try_block e image_tag temp_dir (container_name_of image_tag))
    (except_block image_tag 0) (mkdtemp (tmp_names e) s).1.2
  = (evb, sb, ob) →
  ob ≠ OutOfFuel →
  (run_trufflehog e image_tag s).2 = ob.
Proof.
  intros Hrm Hrmtree Hmk Hb Hob.
  destruct (mkdtemp (tmp_names e) s) as [[evm s0] om] eqn:Hm.
  simpl in Hmk, Hb. subst om.
  rewrite (run_trufflehog_unfold _ _ _ _ _ _ Hm). unfold try_finally. rewrite Hb.
  destruct (finally_block_run e temp_dir (container_name_of image_tag) sb Hrm Hrmtree)
    as (s2 & -> & _).
  by destruct ob.
Qed.

Lemma try_block_pull_fails e image_tag temp_dir name s c :
  pull_fault e = ExitStatus c → c ≠ 0 →
  try_block e image_tag temp_dir name s
  = ([Exec (pull_cmd image_tag)], s,
     Raise (CalledProcessError c (pull_cmd image_tag))).
Proof.
  intros Hf Hc. unfold try_block. rewrite Hf. cbn [process].
  apply bind_raises.
  by apply (subprocess_run_check_fails _ (ret (c, EmptyString)) s [] s
              (c, EmptyString)).
Qed.

Lemma try_block_create_fails e image_tag temp_dir s c :
  pull_fault e = NoFault → create_fault e = ExitStatus c → c ≠ 0 →
  try_block e image_tag temp_dir (container_name_of image_tag) s
  = ([Exec (pull_cmd image_tag); Exec (create_cmd image_tag)],
     pulled image_tag s,
     Raise (CalledProcessError c (create_cmd image_tag))).
Proof.
  intros Hp Hf Hc. unfold try_block. rewrite Hp, Hf. cbn [process].
  rewrite (bind_run _ _ _ _ _ _ (docker_pull_run image_tag s)).
  erewrite bind_raises; [reflexivity |].
  by apply (subprocess_run_check_fails _ (ret (c, EmptyString)) _ [] _
              (c, EmptyString)).
Qed.

Lemma process_launches f contract s :
  launches f = true →
  (∃ c, contract s = ([], s, Return c)) →
  ∃ c, process f contract s = ([], s, Return c).
Proof. destruct f; [done | by eexists | done]. Qed.

Lemma trufflehog_launches f stdout s :
  launches f = true →
  ∃ code, trufflehog f stdout s = ([], s, Return (code, stdout)).
Proof. destruct f; [by eexists | by eexists | done]. Qed.

Lemma try_block_completes e image_tag temp_dir s :
  pull_fault e = NoFault → create_fault e = NoFault →
  container_name_of image_tag ∉ containers s →
  launches (export_fault e) = true → launches (tar_fault e) = true →
  launches (text_fault e) = true → launches (json_fault e) = true →
  ∃ evb sb,
    try_block e image_tag temp_dir (container_name_of image_tag) s
    = (evb, sb, Return (text_stdout e, count_findings (json_stdout e))).
Proof.
  intros Hp Hcr Hfree Hex Htar Htext Hjson. unfold try_block.
  rewrite Hp, Hcr. cbn [process].
  rewrite (bind_run _ _ _ _ _ _ (docker_pull_run image_tag s)).
  set (s1 := set_containers ({[container_name_of image_tag]} ∪ containers s)
               (pulled image_tag s)).
  rewrite (bind_run _ _ (pulled image_tag s) [Exec (create_cmd image_tag)] s1
             (0, EmptyString)).
  2:{ apply (subprocess_run_returns _ true _ (pulled image_tag s) [] s1
               (0, EmptyString)); [| done].
      unfold docker_create. rewrite bind_get_state.
      rewrite bool_decide_eq_false_2 by done. by rewrite bind_put_state. }
  destruct (process_launches (export_fault e)
              (docker_export (container_name_of image_tag)) s1 Hex) as [c1 H1].
  { unfold docker_export. rewrite bind_get_state. by eexists. }
  rewrite (bind_run _ _ _ _ _ _ (subprocess_Popen_returns _ _ _ _ _ _ H1)).
  destruct (process_launches (tar_fault e) tar_extract s1 Htar) as [c2 H2].
  { by eexists. }
  rewrite (bind_run _ _ _ _ _ _ (subprocess_Popen_returns _ _ _ _ _ _ H2)).
  destruct (trufflehog_launches _ (text_stdout e) s1 Htext) as [c3 H3].
  rewrite (bind_run _ _ _ _ _ _ (subprocess_run_returns _ false _ _ _ _ _ H3 eq_refl)).
  destruct (trufflehog_launches _ (json_stdout e) s1 Hjson) as [c4 H4].
  rewrite (bind_run _ _ _ _ _ _ (subprocess_run_returns _ false _ _ _ _ _ H4 eq_refl)).
  unfold ret, prepend. cbn. by eexists _, _.
Qed.

(** C3, as the script has it.  With the cleanup commands running without
    fault: when the pull, or after it the create, exits with a status other
    than 0, the call returns the text of the error as report and 0 as
    count.  An exit status of the export, of tar or of either scanner run
    is never looked at: the call then returns the output of the first
    scanner run and the number of non-blank lines of the second. *)
Theorem scan_failure_capture (e : scan_env) (image_tag : string) (s : state)
    (temp_dir : string) :
  rm_fault e = NoFault →
  rmtree_fault e = None →
  (mkdtemp (tmp_names e) s).2 = Return temp_dir →
  (∀ c, pull_fault e = ExitStatus c → c ≠ 0 →
     (run_trufflehog e image_tag s).2
     = Return (scan_error_text image_tag
                 (CalledProcessError c (pull_cmd image_tag)), 0))
  ∧ (∀ c, pull_fault e = NoFault → create_fault e = ExitStatus c → c ≠ 0 →
       (run_trufflehog e image_tag s).2
       = Return (scan_error_text image_tag
                   (CalledProcessError c (create_cmd image_tag)), 0))
  ∧ (pull_fault e = NoFault → create_fault e = NoFault →
     container_name_of image_tag ∉ containers s →
     launches (export_fault e) = true → launches (tar_fault e) = true →
     launches (text_fault e) = true → launches (json_fault e) = true →
     (run_trufflehog e image_tag s).2
     = Return (text_stdout e, count_findings (json_stdout e))).
Proof.
  intros Hrm Hrmtree Hmk. split_and!.
  - intros c Hf Hc.
    eapply (run_trufflehog_outcome _ _ _ _ _ _ _ Hrm Hrmtree Hmk); [| done].
    unfold try_except.
    rewrite (try_block_pull_fails _ _ _ _ _ c Hf Hc).
    cbn [except_block]. rewrite bind_print. unfold ret, prepend. cbn.
    reflexivity.
  - intros c Hp Hf Hc.
    eapply (run_trufflehog_outcome _ _ _ _ _ _ _ Hrm Hrmtree Hmk); [| done].
    unfold try_except.
    rewrite (try_block_create_fails _ _ _ _ c Hp Hf Hc).
    cbn [except_block]. rewrite bind_print. unfold ret, prepend. cbn.
    reflexivity.
  - intros Hp Hcr Hfree Hex Htar Htext Hjson.
    destruct (mkdtemp (tmp_names e) s) as [[evm s0] om] eqn:Hm.
    simpl in Hmk. subst om.
    pose proof (mkdtemp_fresh _ _ _ _ _ Hm) as (_ & _ & Hc0 & _).
    destruct (try_block_completes e image_tag temp_dir s0 Hp Hcr) as (evb & sb & Hb);
      [by rewrite Hc0 | done | done | done | done |].
    eapply (run_trufflehog_outcome _ _ _ temp_dir _ _ _ Hrm Hrmtree);
      [by rewrite Hm | | done].
    rewrite Hm. cbn [fst snd]. unfold try_except. by rewrite Hb.
Qed.

Lemma scan_failure_capture_witness :
  (run_trufflehog pull_fails "ns/app:v1" empty_host).2
  = Return (scan_error_text "ns/app:v1"
              (CalledProcessError 1 (pull_cmd "ns/app:v1")), 0).
Proof.
  apply (proj1 (scan_failure_capture pull_fails "ns/app:v1" empty_host
                  "/tmp/tmpa" eq_refl eq_refl eq_refl) 1).
  - reflexivity.
  - discriminate.
Defined.

(** C3 as stated fails.  The export and the --json run exit with status 1:
    the call returns the scanner's output as report and counts 2 findings.
    The scanner cannot be started: the OSError leaves the call. *)
Lemma scan_failure_not_captured :
  (run_trufflehog export_and_scanner_fail "ns/app:v1" empty_host).2
  = Return ("Found verified result", 2)
  ∧ (run_trufflehog scanner_missing "ns/app:v1" empty_host).2
    = Raise (OSError "No such file or directory: 'trufflehog'").
Proof. vm_compute. done. Qed.

Example scan_error_text_pull :
  scan_error_text "ns/app:v1" (CalledProcessError 1 (pull_cmd "ns/app:v1"))
  = "Error during scanning ns/app:v1: Command '['docker', 'pull', '--platform', 'linux/amd64', 'ns/app:v1']' returned non-zero exit status 1.".
Proof. reflexivity. Qed.

(** ** Run coordinator: the order of the events *)

Lemma emits_ret {A} P (a : A) : emits P (ret a).
Proof. intros s ev s' o [= <- <- <-]. constructor. Qed.

Lemma emits_raise {A} P ex : emits P (@raise A ex).
Proof. intros s ev s' o [= <- <- <-]. constructor. Qed.

Lemma emits_lift {A} P (o : outcome A) : emits P (lift o).
Proof. intros s ev s' o' [= <- <- <-]. constructor. Qed.

Lemma emits_get_state P : emits P get_state.
Proof. intros s ev s' o [= <- <- <-]. constructor. Qed.

Lemma emits_put_state P s0 : emits P (put_state s0).
Proof. intros s ev s' o [= <- <- <-]. constructor. Qed.

Lemma emits_emit (P : event → Prop) e : P e → emits P (emit e).
Proof. intros He s ev s' o [= <- <- <-]. by constructor. Qed.

Lemma emits_bind {A B} P (m : M A) (k : A → M B) :
  emits P m → (∀ a, emits P (k a)) → emits P (bind m k).
Proof.
  intros Hm Hk s ev s' o. unfold bind.
  destruct (m s) as [[ev1 s1] [a | ex |]] eqn:Em.
  - destruct (k a s1) as [[ev2 s2] o2] eqn:Ek. intros [= <- <- <-].
    apply Forall_app. split; [by eapply Hm | by eapply Hk].
  - intros [= <- <- <-]. by eapply Hm.
  - intros [= <- <- <-]. by eapply Hm.
Qed.

Lemma emits_try_except {A} P (body : M A) handler :
  emits P body → (∀ ex, emits P (handler ex)) → emits P (try_except body handler).
Proof.
  intros Hb Hh s ev s' o. unfold try_except.
  destruct (body s) as [[ev1 s1] [a | ex |]] eqn:Eb.
  - intros [= <- <- <-]. by eapply Hb.
  - destruct (handler ex s1) as [[ev2 s2] o2] eqn:Eh. intros [= <- <- <-].
    apply Forall_app. split; [by eapply Hb | by eapply Hh].
  - intros [= <- <- <-]. by eapply Hb.
Qed.

Lemma emits_try_finally {A} P (body : M A) final :
  emits P body → emits P final → emits P (try_finally body final).
Proof.
  intros Hb Hf s ev s' o. unfold try_finally.
  destruct (body s) as [[ev1 s1] ob] eqn:Eb.
  destruct (final s1) as [[ev2 s2] [[] | ex |]] eqn:Ef;
    destruct ob; intros [= <- <- <-];
    try (apply Forall_app; split; [by eapply Hb | by eapply Hf]);
    by eapply Hb.
Qed.

Lemma emits_mkdtemp (P : event → Prop) names :
  (∀ d, P (Mkdtemp d)) → emits P (mkdtemp names).
Proof.
  intros HP s ev s' o. unfold mkdtemp. destruct (List.find _ names).
  - intros [= <- <- <-]. by constructor.
  - intros [= <- <- <-]. constructor.
Qed.

Lemma emits_if {A} P (b : bool) (m1 m2 : M A) :
  emits P m1 → emits P m2 → emits P (if b then m1 else m2).
Proof. by destruct b. Qed.

Lemma emits_process P f contract : emits P contract → emits P (process f contract).
Proof. destruct f; [done | intros _; apply emits_ret | intros _; apply emits_raise]. Qed.

Lemma emits_trufflehog P f stdout : emits P (trufflehog f stdout).
Proof. destruct f; [apply emits_ret | apply emits_ret | apply emits_raise]. Qed.

Lemma emits_except_block P image_tag count ex :
  (∀ line, P (Print line)) → emits P (except_block image_tag count ex).
Proof.
  intros HP. destruct ex; try apply emits_raise.
  apply emits_bind; [by apply emits_emit |]. intros _. apply emits_ret.
Qed.

Ltac emits_steps :=
  repeat first
    [ apply emits_ret | apply emits_raise | apply emits_lift
    | apply emits_get_state | apply emits_put_state
    | apply emits_emit; solve [auto]
    | apply emits_mkdtemp; solve [auto]
    | apply emits_trufflehog
    | apply emits_except_block; solve [auto]
    | apply emits_process
    | apply emits_if
    | apply emits_try_finally
    | apply emits_try_except; [| intros ?]
    | apply emits_bind; [| intros ?] ].

Lemma emits_run_trufflehog (P : event → Prop) e image_tag :
  (∀ line, P (Print line)) → (∀ d, P (Mkdtemp d)) →
  (∀ cmd, P (Exec cmd)) → (∀ d, P (Rmtree d)) →
  emits P (run_trufflehog e image_tag).
Proof.
  intros Hprint Hmk Hexec Hrm.
  unfold run_trufflehog, try_block, finally_block, subprocess_run,
    subprocess_Popen, rmtree, docker_pull, docker_create, docker_export,
    tar_extract, docker_rm, print.
  emits_steps.
  destruct (rmtree_fault e); emits_steps.
Qed.

Lemma scan_message_not_summary channel repo tag scan_results count :
  ¬ is_summary (ChatPostMessage channel
                  (scan_message_of repo tag scan_results count)).
Proof.
  intros (ch & rest & [= _ H]). revert H.
  unfold scan_message_of.
  destruct (0 <? count); intros H;
    apply (f_equal (λ s, match s with
                         | String a (String b _) => Some (a, b)
                         | _ => None
                         end)) in H;
    lazy in H; discriminate.
Qed.

Lemma not_summary_other (ev : event) :
  match ev with ChatPostMessage _ _ => False | _ => True end → ¬ is_summary ev.
Proof. intros H (ch & rest & ->). done. Qed.

Lemma emits_io {A} (P : event → Prop) (w : list event * outcome A) :
  Forall P w.1 → emits P (io w).
Proof. intros H s ev s' o [= <- <- <-]. done. Qed.

Lemma emits_send_message_to_slack (P : event → Prop) e n message :
  P (ChatPostMessage (slack_channel e) message) → (∀ line, P (Print line)) →
  emits P (send_message_to_slack e n message).
Proof.
  intros Hpost Hprint. unfold send_message_to_slack, chat_postMessage, print.
  apply emits_try_except.
  - emits_steps. destruct (chat_postMessage_error e n); emits_steps.
  - intros ex. destruct ex; emits_steps.
Qed.

Lemma emits_for_image e namespace images_to_scan :
  ∀ i, emits (λ ev, ¬ is_summary ev) (for_image e namespace i images_to_scan).
Proof.
  induction images_to_scan as [|[[repo tag] digest] rest IH]; intros i;
    cbn [for_image]; [apply emits_ret |].
  apply emits_bind.
  { apply emits_run_trufflehog; intros; by apply not_summary_other. }
  intros r. apply emits_bind.
  { unfold update_db. emits_steps. }
  intros _. apply emits_bind; [| intros _; apply IH].
  apply emits_send_message_to_slack.
  - apply scan_message_not_summary.
  - intros line. by apply not_summary_other.
Qed.

Lemma emits_for_tag e namespace repo tags :
  ∀ plan, emits is_quiet (for_tag e namespace repo tags plan).
Proof.
  induction tags as [|tag tags IH]; intros plan; cbn [for_tag]; [apply emits_ret |].
  apply emits_bind.
  { apply emits_io, get_image_digest_quiet. }
  intros [digest|]; [| apply IH].
  apply emits_bind; [apply emits_get_state |]. intros s0.
  apply emits_bind; [apply emits_lift |]. intros result.
  destruct (decide result digest); [| apply IH].
  apply emits_bind; [by apply emits_emit |]. intros _. apply IH.
Qed.

Lemma emits_for_repo e fuel namespace repos :
  ∀ plan, emits is_quiet (for_repo e fuel namespace repos plan).
Proof.
  induction repos as [|repo repos IH]; intros plan; cbn [for_repo];
    [apply emits_ret |].
  apply emits_bind; [apply emits_io, get_all_tags_quiet |]. intros tags.
  apply emits_bind; [apply emits_for_tag |]. intros plan'. apply IH.
Qed.

Lemma emits_plan_images e fuel namespace :
  emits is_quiet (plan_images e fuel namespace).
Proof.
  unfold plan_images. apply emits_bind.
  - intros s ev s' o. destruct (initialize_db_run s) as (t' & -> & _).
    intros [= <- <- <-]. constructor.
  - intros _. apply emits_bind; [apply emits_io, get_all_repositories_quiet |].
    intros repos. apply emits_for_repo.
Qed.

Lemma quiet_not_scan_nor_post (ev : event) :
  is_quiet ev → ¬ is_scan_action ev ∧ ¬ is_summary ev.
Proof.
  destruct ev; simpl; try done; intros _; (split; [tauto |]);
    by apply not_summary_other.
Qed.

Lemma bind_assoc {A B C} (m : M A) (k1 : A → M B) (k2 : B → M C) s :
  bind (bind m k1) k2 s = bind m (λ a, bind (k1 a) k2) s.
Proof.
  unfold bind. destruct (m s) as [[ev s1] [a | ex |]]; try done.
  destruct (k1 a s1) as [[ev1 s2] [b | ex |]]; try done.
  destruct (k2 b s2) as [[ev2 s3] o]. by rewrite app_assoc.
Qed.

Lemma send_message_to_slack_run e n message s :
  ∃ line,
    send_message_to_slack e n message s
    = ([ChatPostMessage (slack_channel e) message; Print line], s, Return tt).
Proof.
  unfold send_message_to_slack, try_except, chat_postMessage.
  rewrite bind_assoc, bind_emit.
  destruct (chat_postMessage_error e n) as [error|].
  - rewrite (bind_raises _ _ s [] s (SlackApiError error)) by done.
    cbn. by eexists.
  - rewrite bind_ret. cbn. by eexists.
Qed.

(** C7. Take a sweep that reaches its plan.  Up to there it only sends
    requests and prints: no scan action and no notification.  When the plan
    is not empty, the next event is the summary notification, whose text
    gives the number of tasks in decimal and the time the scan started,
    and no event after it is a notification that starts as the summary
    does; so exactly one summary is emitted and every scan action comes
    after it.  When the plan is empty the sweep prints its no-op line and
    returns: no scan action and no notification at all. *)
Theorem summary_precedes_scans (e : env) (fuel : nat) (namespace : string)
    (s sp : state) (evp : list event) (plan : list task) :
  plan_images e fuel namespace s = (evp, sp, Return plan) →
  Forall (λ ev, ¬ is_scan_action ev ∧ ¬ is_summary ev) evp
  ∧ match plan with
    | [] =>
        scan_images e fuel namespace s
        = (evp ++ [Print "No new or updated images to scan."], sp, Return tt)
    | _ :: _ =>
        ∃ evs s' o,
          scan_images e fuel namespace s
          = (evp ++ ChatPostMessage (slack_channel e)
                      ("Number of Public Docker images to be scanned: "
                       +:+ pretty (List.length plan) +:+ "." +:+ nl
                       +:+ "Scan started at " +:+ now_ist e 0 +:+ " IST.")
                    :: evs, s', o)
          ∧ Forall (λ ev, ¬ is_summary ev) evs
    end.
Proof.
  intros Hplan. split.
  - eapply Forall_impl; [by eapply emits_plan_images |].
    apply quiet_not_scan_nor_post.
  - unfold scan_images. rewrite (bind_run _ _ _ _ _ _ Hplan).
    destruct plan as [|tk plan]; [done |].
    unfold execute_plan.
    destruct (send_message_to_slack_run e 0
                (summary_message (List.length (tk :: plan)) (now_ist e 0)) sp)
      as (line & Hsend).
    rewrite (bind_run _ _ _ _ _ _ Hsend).
    destruct (for_image e namespace 0 (tk :: plan) sp) as [[ev2 s2] o2] eqn:Hfor.
    exists (Print line :: ev2), s2, o2. split; [done |].
    constructor; [by apply not_summary_other |].
    by eapply (emits_for_image e namespace (tk :: plan) 0).
Qed.

Lemma summary_precedes_scans_witness :
  let r := plan_images demo_env 5 "ns" empty_host in
  Forall (λ ev, ¬ is_scan_action ev ∧ ¬ is_summary ev) r.1.1
  ∧ ∃ evs s' o,
      scan_images demo_env 5 "ns" empty_host
      = (r.1.1 ++ ChatPostMessage "C0"
                    ("Number of Public Docker images to be scanned: "
                     +:+ pretty 2%nat +:+ "." +:+ nl
                     +:+ "Scan started at " +:+ "2024-01-01 00:00:00" +:+ " IST.")
               :: evs, s', o)
      ∧ Forall (λ ev, ¬ is_summary ev) evs.
Proof.
  intros r.
  refine (summary_precedes_scans demo_env 5 "ns" empty_host r.1.2 r.1.1
            [("app", "v1", "sha:one"); ("app", "v2", "sha:new")] _).
  vm_compute. reflexivity.
Defined.

(** ** Run coordinator: what the sweep leaves in the store *)

Lemma set_db_same s db : images_db s = db → set_db db s = s.
Proof. intros <-. by destruct s. Qed.

Lemma ready_columns t :
  ready (Some t) ↔
  "image_name" ∈ columns t ∧ "tag" ∈ columns t ∧ "digest" ∈ columns t
  ∧ "last_updated_image_timestamp" ∈ columns t
  ∧ "vulnerabilities_count" ∈ columns t.
Proof.
  unfold ready. split.
  - intros (t' & [= <-] & Hc). rewrite has_columns_spec in Hc.
    split_and!; apply Hc; rewrite !elem_of_cons; tauto.
  - intros (H1 & H2 & H3 & H4 & H5). exists t. split; [done |].
    apply has_columns_spec. intros c Hc.
    rewrite !elem_of_cons, elem_of_nil in Hc. destruct_or?; subst; tauto.
Qed.

Lemma initialize_db_ready s :
  well_formed_store (images_db s) →
  ∃ t', initialize_db s = ([], set_db (Some t') s, Return tt) ∧ ready (Some t').
Proof.
  intros Hwf. destruct (initialize_db_run s) as (t' & Hrun & Hcols & _).
  exists t'. split; [done |]. apply ready_columns. rewrite Hcols. clear Hcols Hrun.
  destruct (images_db s) as [t|] eqn:Hdb; cbn.
  - destruct (Hwf t eq_refl) as (H1 & H2 & H3).
    rewrite !elem_of_app.
    repeat case_bool_decide; rewrite ?list_elem_of_singleton; tauto.
  - split_and!; apply list_elem_of_In; simpl; auto 10.
Qed.

Lemma initialize_db_noop s :
  ready (images_db s) → initialize_db s = ([], s, Return tt).
Proof.
  intros Hready. destruct Hready as (t & Hdb & Hc).
  assert (Hr : ready (Some t)) by (by exists t).
  apply ready_columns in Hr as (_ & _ & Hd & _ & Hv).
  unfold initialize_db. rewrite bind_get_state, Hdb. cbn [create_table_if_not_exists].
  rewrite !bool_decide_eq_true_2 by done. cbn [negb].
  rewrite !bind_ret. unfold put_state. by rewrite set_db_same.
Qed.

Lemma finally_block_db e temp_dir name s ev s' o :
  finally_block e temp_dir name s = (ev, s', o) →
  images_db s' = images_db s ∧ o ≠ OutOfFuel.
Proof.
  unfold finally_block, bind.
  destruct (subprocess_run _ false _ s) as [[ev1 s1] o1] eqn:H1.
  pose proof (keeps_subprocess_run name _ false _
                (keeps_process name (rm_fault e) _ (keeps_docker_rm name))
                _ _ _ _ H1) as [(_ & Hi & _) Ho1].
  destruct o1 as [c | ex |]; [| by intros [= <- <- <-] | done].
  unfold rmtree. rewrite bind_emit. destruct (rmtree_fault e).
  - unfold raise, prepend. cbn. by intros [= <- <- <-].
  - rewrite bind_get_state. unfold put_state, prepend. cbn. by intros [= <- <- <-].
Qed.

Lemma run_trufflehog_db e image_tag s ev s' o :
  run_trufflehog e image_tag s = (ev, s', o) →
  images_db s' = images_db s ∧ o ≠ OutOfFuel.
Proof.
  destruct (mkdtemp (tmp_names e) s) as [[evm s0] om] eqn:Hm.
  assert (Hmk : images_db s0 = images_db s
                ∧ ((∃ d, om = Return d) ∨ (∃ ex, om = Raise ex ∧ s0 = s))).
  { revert Hm. unfold mkdtemp. destruct (List.find _ _).
    - intros [= <- <- <-]. split; [done |]. left. by eexists.
    - intros [= <- <- <-]. split; [done |]. right. by eexists. }
  destruct Hmk as [Hi0 [[d ->] | (ex & -> & ->)]].
  - rewrite (run_trufflehog_unfold _ _ _ _ _ _ Hm). unfold try_finally.
    destruct (try_except _ _ s0) as [[evb sb] ob] eqn:Hb.
    pose proof (keeps_try_except (container_name_of image_tag) _ _
                  (keeps_try_block e image_tag d _)
                  (keeps_except_block _ image_tag 0) _ _ _ _ Hb)
      as [(_ & Hi & _) Hob].
    destruct (finally_block e d (container_name_of image_tag) sb)
      as [[evf sf] o2] eqn:Hf.
    apply finally_block_db in Hf as [Hif Ho2].
    destruct ob as [a | ex |]; [| | done];
      destruct o2 as [[] | ex' |]; try done;
      unfold prepend; cbn; intros [= <- <- <-]; split; congruence.
  - unfold run_trufflehog. rewrite bind_print.
    rewrite (bind_raises _ _ _ _ _ _ Hm). unfold prepend. cbn.
    by intros [= <- <- <-].
Qed.

Lemma update_db_run e n image_name tag digest count s :
  ready (images_db s) →
  ∃ t', update_db e n image_name tag digest count s
        = ([], set_db (Some t') s, Return tt)
        ∧ insert_or_replace (images_db s) image_name tag digest (now_ist e n) count
          = Return t'
        ∧ ready (Some t').
Proof.
  intros (t & Hdb & Hc). unfold update_db. rewrite bind_get_state.
  assert (∃ t', insert_or_replace (images_db s) image_name tag digest
                  (now_ist e n) count = Return t'
                ∧ columns t' = columns t) as (t' & Hins & Hcols).
  { rewrite Hdb. unfold insert_or_replace. rewrite Hc. by eexists. }
  exists t'. rewrite Hins, bind_lift. split; [done |]. split; [done |].
  exists t'. split; [done |]. unfold has_columns. rewrite Hcols. exact Hc.
Qed.

Lemma select_insert_other db image_name tag digest ts count t' name' tag' :
  ready db →
  insert_or_replace db image_name tag digest ts count = Return t' →
  (name', tag') ≠ (image_name, tag) →
  select_digest (Some t') name' tag' = select_digest db name' tag'.
Proof.
  intros (t & -> & Hc) Hins Hne.
  destruct (select_after_insert _ _ _ _ _ _ _ Hins) as (_ & _ & Hrows & Hcols).
  unfold select_digest. unfold has_columns. rewrite (Hcols t eq_refl).
  by rewrite (Hrows _ Hne t eq_refl).
Qed.

Lemma for_image_step e namespace i repo tag digest rest s evr s2 report count :
  ready (images_db s) →
  run_trufflehog (scan_env_of e i) (namespace +:+ "/" +:+ repo +:+ ":" +:+ tag) s
  = (evr, s2, Return (report, count)) →
  ∃ t' line,
    insert_or_replace (images_db s) repo tag digest (now_ist e (S i)) count
    = Return t'
    ∧ ready (Some t')
    ∧ for_image e namespace i ((repo, tag, digest) :: rest) s
      = prepend (evr ++ [ChatPostMessage (slack_channel e)
                           (scan_message_of repo tag report count);
                         Print line])
          (for_image e namespace (S i) rest (set_db (Some t') s2)).
Proof.
  intros Hready Hrun.
  pose proof (run_trufflehog_db _ _ _ _ _ _ Hrun) as [Hdb _].
  destruct (update_db_run e (S i) repo tag digest count s2) as (t' & Hup & Hins & Hr').
  { by rewrite Hdb. }
  destruct (send_message_to_slack_run e (S i)
              (scan_message_of repo tag report count) (set_db (Some t') s2))
    as (line & Hsend).
  exists t', line. rewrite <- Hdb. split; [done |]. split; [done |].
  cbn [for_image]. rewrite (bind_run _ _ _ _ _ _ Hrun). cbn [fst snd].
  rewrite (bind_run _ _ _ _ _ _ Hup), (bind_run _ _ _ _ _ _ Hsend).
  by rewrite prepend_nil, prepend_prepend.
Qed.

Lemma for_image_raises e namespace i repo tag digest rest s evr s2 o :
  run_trufflehog (scan_env_of e i) (namespace +:+ "/" +:+ repo +:+ ":" +:+ tag) s
  = (evr, s2, o) →
  (∀ a, o ≠ Return a) →
  (for_image e namespace i ((repo, tag, digest) :: rest) s).2 ≠ Return tt.
Proof.
  intros Hrun Ho. cbn [for_image]. unfold bind at 1. rewrite Hrun.
  destruct o as [a | ex |]; [by destruct (Ho a) | done | done].
Qed.

Lemma prepend_inv {A} ev0 (r : list event * state * outcome A) ev s o :
  prepend ev0 r = (ev, s, o) → ∃ ev', r = (ev', s, o) ∧ ev = ev0 ++ ev'.
Proof. destruct r as [[ev' s'] o']. unfold prepend. cbn. intros [= <- <- <-]. eauto. Qed.

Lemma for_image_digests e namespace plan :
  ∀ i s ev s',
    ready (images_db s) →
    Forall (λ tk : task, resolve (reg e) namespace tk.1.1 tk.1.2 = Some tk.2) plan →
    for_image e namespace i plan s = (ev, s', Return tt) →
    ready (images_db s')
    ∧ ∀ repo tag d,
        resolve (reg e) namespace repo tag = Some d →
        (repo, tag, d) ∈ plan
        ∨ select_digest (images_db s) repo tag = Return (Some (TEXT d)) →
        select_digest (images_db s') repo tag = Return (Some (TEXT d)).
Proof.
  induction plan as [|[[repo0 tag0] d0] rest IH]; intros i s ev s' Hready Hplan.
  - cbn [for_image]. intros [= <- <-]. split; [done |].
    intros repo tag d _ [Hin | ?]; [by apply elem_of_nil in Hin | done].
  - apply Forall_cons in Hplan as [Hd0 Hrest]. cbn [fst snd] in Hd0.
    intros Hfor.
    destruct (run_trufflehog (scan_env_of e i)
                (namespace +:+ "/" +:+ repo0 +:+ ":" +:+ tag0) s)
      as [[evr s2] [[report count] | ex |]] eqn:Hrun.
    2,3: (exfalso;
          apply (for_image_raises e namespace i repo0 tag0 d0 rest _ _ _ _ Hrun);
          [done | by rewrite Hfor]).
    destruct (for_image_step e namespace i repo0 tag0 d0 rest _ _ _ _ _ Hready Hrun)
      as (t' & line & Hins & Hr' & Hstep).
    rewrite Hstep in Hfor. apply prepend_inv in Hfor as (ev' & Hfor & _).
    destruct (IH (S i) (set_db (Some t') s2) ev' s' Hr' Hrest Hfor) as [Hrs' Hsel].
    split; [done |].
    intros repo tag d Hres Hcase. apply Hsel; [done |]. cbn [images_db set_db].
    destruct (bool_decide ((repo, tag) = (repo0, tag0))) eqn:Hkey;
      [apply bool_decide_eq_true in Hkey as [= -> ->]
      | apply bool_decide_eq_false in Hkey as Hne].
    + right. rewrite Hd0 in Hres. injection Hres as <-.
      by apply select_after_insert in Hins as [? _].
    + destruct Hcase as [[Heq | Hin]%elem_of_cons | Hold].
      * injection Heq as -> -> ->. done.
      * by left.
      * right. by rewrite (select_insert_other _ _ _ _ _ _ _ _ _ Hready Hins Hne).
Qed.

Lemma ready_well_formed db : ready db → well_formed_store db.
Proof.
  intros (t & -> & Hc) t' [= <-].
  assert (Hr : ready (Some t)) by (by exists t).
  apply ready_columns in Hr. unfold older_schema. tauto.
Qed.

Lemma plan_images_run e fuel namespace s :
  well_formed_store (images_db s) →
  ∃ t0 ev o,
    plan_images e fuel namespace s = (ev, set_db (Some t0) s, o)
    ∧ ready (Some t0)
    ∧ (ready (images_db s) → images_db s = Some t0)
    ∧ (((∀ a, o ≠ Return a)
        ∧ ¬ ∃ repos, (get_all_repositories (reg e) fuel namespace).2 = Return repos
                     ∧ enumerates (reg e) fuel namespace repos)
       ∨ ∃ repos plan,
           (get_all_repositories (reg e) fuel namespace).2 = Return repos
           ∧ enumerates (reg e) fuel namespace repos
           ∧ o = Return plan
           ∧ Forall (planned (reg e) (Some t0) namespace) plan
           ∧ Forall (enumerated (reg e) fuel namespace repos) plan
           ∧ (∀ repo tags tag d,
                repo ∈ repos →
                (get_all_tags (reg e) fuel namespace repo).2 = Return tags →
                tag ∈ tags →
                resolve (reg e) namespace repo tag = Some d →
                (repo, tag, d) ∈ plan
                ∨ select_digest (Some t0) repo tag = Return (Some (TEXT d)))).
Proof.
  intros Hwf. destruct (initialize_db_ready s Hwf) as (t0 & Hinit & Hr0).
  exists t0. unfold plan_images. rewrite (bind_run _ _ _ _ _ _ Hinit), prepend_nil.
  rewrite bind_io.
  assert (Hsame : ready (images_db s) → images_db s = Some t0).
  { intros Hr. rewrite (initialize_db_noop s Hr) in Hinit.
    injection Hinit as Hs. by rewrite Hs at 1. }
  destruct (get_all_repositories (reg e) fuel namespace) as [ev0 [repos | ex |]]
    eqn:Ho; cbn [fst snd].
  2:{ eexists _, (Raise ex). split; [reflexivity |]. split; [done |].
      split; [done |]. left. split; [done |]. intros (repos & Hr & _).
      discriminate. }
  2:{ eexists _, OutOfFuel. split; [reflexivity |]. split; [done |].
      split; [done |]. left. split; [done |]. intros (repos & Hr & _).
      discriminate. }
  destruct (for_repo_spec e fuel namespace repos [] (set_db (Some t0) s) Hr0)
    as (ev & o & Hrun & _ & Hcase).
  rewrite Hrun. eexists _, o. unfold prepend. cbn [fst snd].
  split; [reflexivity |]. split; [done |]. split; [done |].
  destruct Hcase as [[Hno Hne] | (Hen & new & -> & Hp & Hk & Hall)].
  + left. split; [done |]. intros (repos' & Hr' & Hen').
    injection Hr' as <-. done.
  + right. exists repos, new. by split_and!.
Qed.

Lemma execute_plan_digests e namespace plan sp ev s' :
  ready (images_db sp) →
  Forall (λ tk : task, resolve (reg e) namespace tk.1.1 tk.1.2 = Some tk.2) plan →
  execute_plan e namespace plan sp = (ev, s', Return tt) →
  ready (images_db s')
  ∧ ∀ repo tag d,
      resolve (reg e) namespace repo tag = Some d →
      (repo, tag, d) ∈ plan
      ∨ select_digest (images_db sp) repo tag = Return (Some (TEXT d)) →
      select_digest (images_db s') repo tag = Return (Some (TEXT d)).
Proof.
  intros Hready Hplan. destruct plan as [|tk plan].
  - cbn. intros [= <- <-]. split; [done |].
    intros repo tag d _ [Hin | ?]; [by apply elem_of_nil in Hin | done].
  - unfold execute_plan.
    destruct (send_message_to_slack_run e 0
                (summary_message (List.length (tk :: plan)) (now_ist e 0)) sp)
      as (line & Hsend).
    rewrite (bind_run _ _ _ _ _ _ Hsend).
    intros (ev' & Hfor & _)%prepend_inv.
    by apply (for_image_digests e namespace (tk :: plan) 0 sp ev' s').
Qed.

Lemma planned_resolved r db namespace plan :
  Forall (planned r db namespace) plan →
  Forall (λ tk : task, resolve r namespace tk.1.1 tk.1.2 = Some tk.2) plan.
Proof. intros H. eapply Forall_impl; [exact H |]. by intros tk [? _]. Qed.

Lemma scan_images_inv e fuel namespace s ev s' :
  scan_images e fuel namespace s = (ev, s', Return tt) →
  ∃ evp sp plan ev',
    plan_images e fuel namespace s = (evp, sp, Return plan)
    ∧ execute_plan e namespace plan sp = (ev', s', Return tt).
Proof.
  unfold scan_images, bind.
  destruct (plan_images e fuel namespace s) as [[evp sp] [plan | ex |]];
    [| discriminate | discriminate].
  destruct (execute_plan e namespace plan sp) as [[ev' s2] o] eqn:He.
  intros [= <- <- ->]. by exists evp, sp, plan, ev'.
Qed.

Lemma stored_pair_not_planned e fuel namespace s evp sp plan repo tag digest :
  ready (images_db s) →
  select_digest (images_db s) repo tag = Return (Some (TEXT digest)) →
  resolve (reg e) namespace repo tag = Some digest →
  plan_images e fuel namespace s = (evp, sp, Return plan) →
  ∀ d, (repo, tag, d) ∉ plan.
Proof.
  intros Hready Hsel Hres Hplan d Hin.
  destruct (plan_images_run e fuel namespace s (ready_well_formed _ Hready))
    as (t0 & ev & o & Hrun & _ & Hsame & Hcase).
  rewrite Hplan in Hrun. injection Hrun as _ _ <-.
  destruct Hcase as [[Hno _] | (repos & plan' & _ & _ & [= <-] & Hp & _)];
    [by destruct (Hno plan) |].
  rewrite Forall_forall in Hp.
  destruct (Hp _ Hin) as [Hd (result & Hsel' & Hdec)]. cbn [fst snd] in *.
  rewrite Hres in Hd. injection Hd as <-.
  rewrite <- (Hsame Hready), Hsel in Hsel'. injection Hsel' as <-.
  assert (decide (Some (TEXT digest)) digest = Skip) by (by apply decide_Skip).
  congruence.
Qed.

(** C4. A sweep that returned leaves a store on which a second sweep over
    the same registry (the same answers to the same requests, hence the
    same resolved digests) returns as well, with an empty plan: it scans
    nothing, prints its no-op line and leaves the host as it is. *)
Theorem sweep_idempotent (e1 e2 : env) (fuel : nat) (namespace : string)
    (s s1 : state) (ev1 : list event) :
  well_formed_store (images_db s) →
  reg e2 = reg e1 →
  scan_images e1 fuel namespace s = (ev1, s1, Return tt) →
  ∃ evp2,
    plan_images e2 fuel namespace s1 = (evp2, s1, Return [])
    ∧ scan_images e2 fuel namespace s1
      = (evp2 ++ [Print "No new or updated images to scan."], s1, Return tt).
Proof.
  intros Hwf Hreg (evp & sp & plan1 & ev' & Hplan1 & Hexec)%scan_images_inv.
  destruct (plan_images_run e1 fuel namespace s Hwf)
    as (t0 & ev & o & Hrun & Hr0 & _ & Hcase).
  rewrite Hplan1 in Hrun. injection Hrun as _ -> <-.
  destruct Hcase as [[Hno _] | (repos & plan' & Hrepos & Hen & [= <-] & Hp & Hk & Hall)];
    [by destruct (Hno plan1) |].
  destruct (execute_plan_digests e1 namespace plan1 (set_db (Some t0) s) _ _ Hr0
              (planned_resolved _ _ _ _ Hp) Hexec) as [Hr1 Hsel1].
  cbn [images_db set_db] in Hsel1.
  destruct (plan_images_run e2 fuel namespace s1 (ready_well_formed _ Hr1))
    as (t1 & evp2 & o2 & Hrun2 & _ & Hsame & Hcase2).
  pose proof (Hsame Hr1) as Hdb1.
  rewrite (set_db_same s1 (Some t1) Hdb1) in Hrun2.
  rewrite Hreg in Hcase2.
  destruct Hcase2 as [[_ Hne] | (repos2 & plan2 & Hrepos2 & _ & -> & Hp2 & Hk2 & _)].
  { destruct Hne. by exists repos. }
  rewrite Hrepos in Hrepos2. injection Hrepos2 as <-.
  assert (plan2 = []) as ->.
  { destruct plan2 as [|[[repo tag] d] plan2]; [done |]. exfalso.
    apply Forall_cons in Hp2 as [[Hres (result & Hsel & Hdec)] _].
    apply Forall_cons in Hk2 as [[Hin (tags & Htags & Htag)] _].
    cbn [fst snd] in *.
    pose proof (Hsel1 repo tag d Hres (Hall repo tags tag d Hin Htags Htag Hres))
      as Hstored.
    rewrite Hdb1, Hsel in Hstored. injection Hstored as ->.
    assert (decide (Some (TEXT d)) d = Skip) by (by apply decide_Skip).
    congruence. }
  exists evp2. split; [done |].
  unfold scan_images. rewrite (bind_run _ _ _ _ _ _ Hrun2). reflexivity.
Qed.

Lemma sweep_idempotent_witness :
  let first := scan_images demo_env 5 "ns" empty_host in
  ∃ evp2,
    plan_images demo_env 5 "ns" first.1.2 = (evp2, first.1.2, Return [])
    ∧ scan_images demo_env 5 "ns" first.1.2
      = (evp2 ++ [Print "No new or updated images to scan."], first.1.2,
         Return tt).
Proof.
  intros first.
  apply (sweep_idempotent demo_env demo_env 5 "ns" empty_host first.1.2 first.1.1).
  - intros t. discriminate.
  - reflexivity.
  - vm_compute. reflexivity.
Defined.

(** C10, as the script has it.  Each iteration of the scanning loop whose
    scan returns upserts the row of the pair with the digest planned for
    it and the count the scan returned; a scan whose pull or create exits
    with a failure status returns with count 0, so that row is written
    too.  After a sweep that returned, every planned pair is stored with
    the digest resolved when it was planned, and a later sweep that
    resolves the same digest for the pair does not plan it again. *)
Theorem executed_task_recorded (e : env) (fuel : nat) (namespace : string)
    (s sp s' : state) (evp ev : list event) (plan : list task) :
  well_formed_store (images_db s) →
  plan_images e fuel namespace s = (evp, sp, Return plan) →
  execute_plan e namespace plan sp = (ev, s', Return tt) →
  (∀ i repo tag digest rest s1 evr s2 report count,
     ready (images_db s1) →
     run_trufflehog (scan_env_of e i)
       (namespace +:+ "/" +:+ repo +:+ ":" +:+ tag) s1
     = (evr, s2, Return (report, count)) →
     ∃ t' line r,
       for_image e namespace i ((repo, tag, digest) :: rest) s1
       = prepend (evr ++ [ChatPostMessage (slack_channel e)
                            (scan_message_of repo tag report count);
                          Print line])
           (for_image e namespace (S i) rest (set_db (Some t') s2))
       ∧ rows t' !! (repo, tag) = Some r
       ∧ cell r "digest" = TEXT digest
       ∧ cell r "vulnerabilities_count" = INTEGER count)
  ∧ (∀ i image_tag s1 temp_dir c,
       pull_fault (scan_env_of e i) = ExitStatus c → c ≠ 0 →
       rm_fault (scan_env_of e i) = NoFault →
       rmtree_fault (scan_env_of e i) = None →
       (mkdtemp (tmp_names (scan_env_of e i)) s1).2 = Return temp_dir →
       ∃ report,
         (run_trufflehog (scan_env_of e i) image_tag s1).2 = Return (report, 0))
  ∧ (∀ i image_tag s1 temp_dir c,
       pull_fault (scan_env_of e i) = NoFault →
       create_fault (scan_env_of e i) = ExitStatus c → c ≠ 0 →
       rm_fault (scan_env_of e i) = NoFault →
       rmtree_fault (scan_env_of e i) = None →
       (mkdtemp (tmp_names (scan_env_of e i)) s1).2 = Return temp_dir →
       ∃ report,
         (run_trufflehog (scan_env_of e i) image_tag s1).2 = Return (report, 0))
  ∧ (∀ repo tag digest,
       (repo, tag, digest) ∈ plan →
       resolve (reg e) namespace repo tag = Some digest
       ∧ select_digest (images_db s') repo tag = Return (Some (TEXT digest))
       ∧ ∀ e2 fuel2 s2 evp2 sp2 plan2,
           images_db s2 = images_db s' →
           resolve (reg e2) namespace repo tag = Some digest →
           plan_images e2 fuel2 namespace s2 = (evp2, sp2, Return plan2) →
           ∀ d, (repo, tag, d) ∉ plan2).
Proof.
  intros Hwf Hplan Hexec. split_and!.
  - intros i repo tag digest rest s1 evr s2 report count Hready Hrun.
    destruct (for_image_step e namespace i repo tag digest rest _ _ _ _ _ Hready Hrun)
      as (t' & line & Hins & Hr' & Hstep).
    destruct (select_after_insert _ _ _ _ _ _ _ Hins) as (Hsel & Hcount & _).
    destruct (ready_select _ repo tag Hr') as (t'' & [= <-] & Hsel').
    rewrite Hsel in Hsel'. injection Hsel' as Hfetch.
    destruct (rows t' !! (repo, tag)) as [r|] eqn:Hrow; [| discriminate].
    exists t', line, r. split_and!; [done | done | | by apply Hcount].
    cbn in Hfetch. congruence.
  - intros i image_tag s1 temp_dir c Hf Hc Hrm Hrmtree Hmk. eexists.
    eapply (run_trufflehog_outcome _ _ _ _ _ _ _ Hrm Hrmtree Hmk); [| done].
    unfold try_except.
    rewrite (try_block_pull_fails _ _ _ _ _ c Hf Hc).
    cbn [except_block]. rewrite bind_print. unfold ret, prepend. cbn.
    reflexivity.
  - intros i image_tag s1 temp_dir c Hp Hf Hc Hrm Hrmtree Hmk. eexists.
    eapply (run_trufflehog_outcome _ _ _ _ _ _ _ Hrm Hrmtree Hmk); [| done].
    unfold try_except.
    rewrite (try_block_create_fails _ _ _ _ c Hp Hf Hc).
    cbn [except_block]. rewrite bind_print. unfold ret, prepend. cbn.
    reflexivity.
  - intros repo tag digest Hin.
    destruct (plan_images_run e fuel namespace s Hwf)
      as (t0 & ev0 & o & Hrun & Hr0 & _ & Hcase).
    rewrite Hplan in Hrun. injection Hrun as _ -> <-.
    destruct Hcase as [[Hno _] | (repos & plan' & _ & _ & [= <-] & Hp & _)];
      [by destruct (Hno plan) |].
    destruct (execute_plan_digests e namespace plan (set_db (Some t0) s) _ _ Hr0
                (planned_resolved _ _ _ _ Hp) Hexec) as [Hr1 Hsel1].
    rewrite Forall_forall in Hp. destruct (Hp _ Hin) as [Hres _].
    cbn [fst snd] in Hres.
    pose proof (Hsel1 repo tag digest Hres (or_introl Hin)) as Hstored.
    split; [done |]. split; [done |].
    intros e2 fuel2 s2 evp2 sp2 plan2 Hdb Hres2 Hplan2.
    apply (stored_pair_not_planned e2 fuel2 namespace s2 evp2 sp2 plan2
             repo tag digest); [by rewrite Hdb | by rewrite Hdb | done | done].
Qed.

Lemma executed_task_recorded_witness :
  let planned := plan_images demo_env_pull_fails 5 "ns" empty_host in
  let swept := execute_plan demo_env_pull_fails "ns"
                 [("app", "v1", "sha:one"); ("app", "v2", "sha:new")]
                 planned.1.2 in
  resolve demo_registry "ns" "app" "v1" = Some "sha:one"
  ∧ select_digest (images_db swept.1.2) "app" "v1" = Return (Some (TEXT "sha:one"))
  ∧ ∀ e2 fuel2 s2 evp2 sp2 plan2,
      images_db s2 = images_db swept.1.2 →
      resolve (reg e2) "ns" "app" "v1" = Some "sha:one" →
      plan_images e2 fuel2 "ns" s2 = (evp2, sp2, Return plan2) →
      ∀ d, ("app", "v1", d) ∉ plan2.
Proof.
  intros planned swept.
  refine (proj2 (proj2 (proj2
            (executed_task_recorded demo_env_pull_fails 5 "ns"
               empty_host planned.1.2 swept.1.2 planned.1.1 swept.1.1
               [("app", "v1", "sha:one"); ("app", "v2", "sha:new")]
               _ _ _)))
            "app" "v1" "sha:one" _).
  - intros t. discriminate.
  - vm_compute. reflexivity.
  - vm_compute. reflexivity.
  - apply list_elem_of_In. simpl. auto.
Defined.

(** C10 as stated fails.  The export and the [--json] run exit with
    status 1: the scan has failed, yet the row the sweep stores carries the
    count 2, not 0.  The scanner cannot be started: the sweep ends with the
    OSError at the first task, no row is written, and the plan of the next
    sweep holds both tasks again, the failed one included. *)
Lemma failed_scan_counted_or_retried :
  let swept := scan_images demo_env_export_fails 5 "ns" empty_host in
  let aborted := scan_images demo_env_scanner_missing 5 "ns" empty_host in
  swept.2 = Return tt
  ∧ (∃ t r, images_db swept.1.2 = Some t
            ∧ rows t !! ("app", "v1") = Some r
            ∧ cell r "vulnerabilities_count" = INTEGER 2)
  ∧ aborted.2 = Raise (OSError "No such file or directory: 'trufflehog'")
  ∧ select_digest (images_db aborted.1.2) "app" "v1" = Return None
  ∧ (plan_images demo_env_scanner_missing 5 "ns" aborted.1.2).2
    = Return [("app", "v1", "sha:one"); ("app", "v2", "sha:new")].
Proof.
  intros swept aborted. split; [vm_compute; reflexivity |]. split.
  { eexists _, _. split; [vm_compute; reflexivity |].
    split; vm_compute; reflexivity. }
  split; [vm_compute; reflexivity |]. split; vm_compute; reflexivity.
Qed.

(** * Further properties of the script *)

(** ** State store *)

(** X1. Upserting a key twice leaves the store as the second upsert alone
    would: the row of the key holds the latest values and nothing else
    differs. *)
Theorem update_db_last_write_wins (e : env) (n m : nat)
    (image_name tag d1 d2 : string) (c1 c2 : Z) (s : state) :
  ready (images_db s) →
  (update_db e n image_name tag d1 c1;;; update_db e m image_name tag d2 c2) s
  = update_db e m image_name tag d2 c2 s.
Proof.
  intros Hready.
  destruct (update_db_run e n image_name tag d1 c1 s Hready) as (t1 & Hup1 & Hins1 & Hr1).
  rewrite (bind_run _ _ _ _ _ _ Hup1), prepend_nil.
  destruct Hready as (t & Hdb & Hc).
  unfold update_db. rewrite !bind_get_state. cbn [images_db set_db].
  rewrite Hdb in Hins1 |- *. unfold insert_or_replace in Hins1. rewrite Hc in Hins1.
  injection Hins1 as <-. unfold insert_or_replace. cbn [columns rows].
  unfold has_columns at 1. cbn [columns]. fold (has_columns t
    ["image_name"; "tag"; "digest"; "last_updated_image_timestamp";
     "vulnerabilities_count"]).
  rewrite Hc, !bind_lift. unfold put_state, set_db. cbn.
  rewrite insert_insert_eq. reflexivity.
Qed.

Lemma update_db_last_write_wins_witness :
  let s := (plan_images demo_env 5 "ns" empty_host).1.2 in
  (update_db demo_env 1 "app" "v1" "sha:old" 3;;;
   update_db demo_env 2 "app" "v1" "sha:new" 0) s
  = update_db demo_env 2 "app" "v1" "sha:new" 0 s.
Proof.
  intros s. apply update_db_last_write_wins.
  eexists. split; [reflexivity |]. vm_compute. reflexivity.
Defined.

Lemma cell_named image_name tag digest ts count c :
  cell (<["image_name" := TEXT image_name]>
        (<["tag" := TEXT tag]>
        (<["digest" := TEXT digest]>
        (<["last_updated_image_timestamp" := TEXT ts]>
        (<["vulnerabilities_count" := INTEGER count]> (∅ : row)))))) c
  = if String.eqb c "image_name" then TEXT image_name
    else if String.eqb c "tag" then TEXT tag
    else if String.eqb c "digest" then TEXT digest
    else if String.eqb c "last_updated_image_timestamp" then TEXT ts
    else if String.eqb c "vulnerabilities_count" then INTEGER count
    else NULL.
Proof.
  unfold cell.
  destruct (String.eqb_spec c "image_name") as [-> | ?]; [by simplify_map_eq |].
  rewrite lookup_insert_ne by done.
  destruct (String.eqb_spec c "tag") as [-> | ?]; [by simplify_map_eq |].
  rewrite lookup_insert_ne by done.
  destruct (String.eqb_spec c "digest") as [-> | ?]; [by simplify_map_eq |].
  rewrite lookup_insert_ne by done.
  destruct (String.eqb_spec c "last_updated_image_timestamp") as [-> | ?];
    [by simplify_map_eq |].
  rewrite lookup_insert_ne by done.
  destruct (String.eqb_spec c "vulnerabilities_count") as [-> | ?];
    [by simplify_map_eq |].
  rewrite lookup_insert_ne by done. by rewrite lookup_empty.
Qed.

(** X2. An upsert on a ready store returns; reading the row back gives the
    five values written, NULL in every other column of the table, and the
    rows of all other keys and the columns are as before. *)
Theorem update_db_row_round_trip (e : env) (n : nat)
    (image_name tag digest : string) (count : Z) (s : state) :
  ready (images_db s) →
  ∃ t t' r,
    images_db s = Some t
    ∧ update_db e n image_name tag digest count s
      = ([], set_db (Some t') s, Return tt)
    ∧ columns t' = columns t
    ∧ rows t' !! (image_name, tag) = Some r
    ∧ cell r "image_name" = TEXT image_name
    ∧ cell r "tag" = TEXT tag
    ∧ cell r "digest" = TEXT digest
    ∧ cell r "last_updated_image_timestamp" = TEXT (now_ist e n)
    ∧ cell r "vulnerabilities_count" = INTEGER count
    ∧ (∀ c, c ∉ written_columns → cell r c = NULL)
    ∧ (∀ key, key ≠ (image_name, tag) → rows t' !! key = rows t !! key).
Proof.
  intros Hready.
  destruct (update_db_run e n image_name tag digest count s Hready)
    as (t' & Hup & Hins & Hr').
  destruct Hready as (t & Hdb & Hc).
  pose proof (proj1 (has_columns_spec _ _) Hc) as Hin.
  rewrite Hdb in Hins. unfold insert_or_replace in Hins. rewrite Hc in Hins.
  injection Hins as <-.
  eexists t, _, _. split; [done |]. split; [exact Hup |]. cbn [columns rows].
  split; [done |]. split; [apply lookup_insert_eq |].
  split_and!.
  - rewrite cell_new_row, cell_named, bool_decide_eq_true_2; [done |].
    apply Hin. rewrite !elem_of_cons. tauto.
  - rewrite cell_new_row, cell_named, bool_decide_eq_true_2; [done |].
    apply Hin. rewrite !elem_of_cons. tauto.
  - rewrite cell_new_row, cell_named, bool_decide_eq_true_2; [done |].
    apply Hin. rewrite !elem_of_cons. tauto.
  - rewrite cell_new_row, cell_named, bool_decide_eq_true_2; [done |].
    apply Hin. rewrite !elem_of_cons. tauto.
  - rewrite cell_new_row, cell_named, bool_decide_eq_true_2; [done |].
    apply Hin. rewrite !elem_of_cons. tauto.
  - intros c Hc'. rewrite cell_new_row, cell_named.
    unfold written_columns in Hc'. rewrite !elem_of_cons, elem_of_nil in Hc'.
    destruct (String.eqb_spec c "image_name") as [-> | ?]; [tauto |].
    destruct (String.eqb_spec c "tag") as [-> | ?]; [tauto |].
    destruct (String.eqb_spec c "digest") as [-> | ?]; [tauto |].
    destruct (String.eqb_spec c "last_updated_image_timestamp") as [-> | ?];
      [tauto |].
    destruct (String.eqb_spec c "vulnerabilities_count") as [-> | ?]; [tauto |].
    by case_bool_decide.
  - intros key Hkey. by rewrite lookup_insert_ne.
Qed.

Lemma update_db_row_round_trip_witness :
  let s := (plan_images demo_env 5 "ns" empty_host).1.2 in
  ∃ t t' r,
    images_db s = Some t
    ∧ update_db demo_env 1 "app" "v1" "sha:one" 2 s
      = ([], set_db (Some t') s, Return tt)
    ∧ columns t' = columns t
    ∧ rows t' !! ("app", "v1") = Some r
    ∧ cell r "image_name" = TEXT "app"
    ∧ cell r "tag" = TEXT "v1"
    ∧ cell r "digest" = TEXT "sha:one"
    ∧ cell r "last_updated_image_timestamp" = TEXT (now_ist demo_env 1)
    ∧ cell r "vulnerabilities_count" = INTEGER 2
    ∧ (∀ c, c ∉ written_columns → cell r c = NULL)
    ∧ (∀ key, key ≠ ("app", "v1") → rows t' !! key = rows t !! key).
Proof.
  intros s. apply update_db_row_round_trip.
  eexists. split; [reflexivity |]. vm_compute. reflexivity.
Defined.

(** X3. On a store that is not ready (no table yet, or a table without one
    of the five columns the statement names) the upsert raises an
    OperationalError and writes nothing. *)
Theorem update_db_needs_ready_store (e : env) (n : nat)
    (image_name tag digest : string) (count : Z) (s : state) :
  ¬ ready (images_db s) →
  ∃ msg, update_db e n image_name tag digest count s
         = ([], s, Raise (OperationalError msg)).
Proof.
  intros Hnot. unfold update_db. rewrite bind_get_state.
  unfold insert_or_replace.
  destruct (images_db s) as [t|] eqn:Hdb.
  - destruct (has_columns t _) eqn:Hc.
    + destruct Hnot. by exists t.
    + rewrite bind_lift. by eexists.
  - rewrite bind_lift. by eexists.
Qed.

Lemma update_db_needs_ready_store_witness :
  ∃ msg, update_db demo_env 1 "app" "v1" "sha:one" 2 empty_host
         = ([], empty_host, Raise (OperationalError msg)).
Proof.
  apply update_db_needs_ready_store. intros (t & Hdb & _). discriminate.
Defined.

(** X4. initialize_db is idempotent: after a call that returned, a second
    call changes nothing and returns as well.  A call that returned has
    emitted nothing and has kept exactly the keys of the table it found;
    with no table at all it always returns, leaving an empty table with
    the five columns.  (Whether the call returns on a table whose columns
    differ from the script's only in letter case is not part of this
    statement: there SQLite refuses the ALTER.) *)
Theorem initialize_db_idempotent (s : state) :
  (images_db s = None →
   ∃ t', initialize_db s = ([], set_db (Some t') s, Return tt)
         ∧ columns t' = written_columns ∧ rows t' = ∅)
  ∧ (∀ ev s1,
       initialize_db s = (ev, s1, Return tt) →
       ev = []
       ∧ initialize_db s1 = ([], s1, Return tt)
       ∧ (initialize_db;;; initialize_db) s = initialize_db s
       ∧ ∀ t, images_db s = Some t →
              ∃ t1, images_db s1 = Some t1 ∧ dom (rows t1) = dom (rows t)).
Proof.
  destruct (initialize_db_run s) as (t' & Hrun & Hcols & Hrows). split.
  - intros Hdb. exists t'. split; [done |].
    rewrite Hdb in Hcols, Hrows. cbn in Hcols, Hrows.
    split; [done |]. by rewrite Hrows, fmap_empty.
  - intros ev s1. rewrite Hrun. intros [= <- <-].
    assert (Hagain : initialize_db (set_db (Some t') s)
                     = ([], set_db (Some t') s, Return tt)).
    { destruct (initialize_db_run (set_db (Some t') s))
        as (t2 & Hrun2 & Hcols2 & Hrows2).
      rewrite Hrun2.
      cbn [images_db set_db create_table_if_not_exists] in Hcols2, Hrows2.
      assert (Hd : "digest" ∈ columns t').
      { rewrite Hcols. set (t := create_table_if_not_exists (images_db s)).
        cbv zeta. rewrite !elem_of_app.
        destruct (bool_decide ("digest" ∈ columns t)) eqn:E.
        - left. by apply bool_decide_eq_true in E.
        - right. left. by apply list_elem_of_singleton. }
      assert (Hv : "vulnerabilities_count" ∈ columns t').
      { rewrite Hcols. set (t := create_table_if_not_exists (images_db s)).
        cbv zeta. rewrite !elem_of_app.
        destruct (bool_decide ("vulnerabilities_count" ∈ columns t)) eqn:E.
        - left. by apply bool_decide_eq_true in E.
        - right. right. by apply list_elem_of_singleton. }
      rewrite !bool_decide_eq_true_2 in Hcols2, Hrows2 by done.
      rewrite !app_nil_r in Hcols2. rewrite map_fmap_id in Hrows2.
      destruct t' as [cs' rs'], t2 as [cs2 rs2]. cbn in *. by subst. }
    split; [done |]. split; [done |]. split.
    + by rewrite (bind_run _ _ _ _ _ _ Hrun), prepend_nil, Hagain.
    + intros t Hdb. exists t'. split; [done |].
      rewrite Hdb in Hrows. cbn in Hrows. by rewrite Hrows, dom_fmap_L.
Qed.

Lemma initialize_db_idempotent_witness :
  let first := initialize_db empty_host in
  first.1.1 = []
  ∧ initialize_db first.1.2 = ([], first.1.2, Return tt)
  ∧ (initialize_db;;; initialize_db) empty_host = initialize_db empty_host
  ∧ ∀ t, images_db empty_host = Some t →
         ∃ t1, images_db first.1.2 = Some t1 ∧ dom (rows t1) = dom (rows t).
Proof.
  intros first.
  apply (proj2 (initialize_db_idempotent empty_host) first.1.1 first.1.2).
  reflexivity.
Defined.

(** X5. After the store is opened on a table of an older schema that had
    no [digest] column, the decision is Scan for every pair and every
    resolved digest: the first sweep after the migration scans every image
    whose digest resolves. *)
Theorem migration_rescans_everything (s : state) (t : table) :
  images_db s = Some t →
  "digest" ∉ columns t →
  "image_name" ∈ columns t →
  "tag" ∈ columns t →
  ∃ t',
    initialize_db s = ([], set_db (Some t') s, Return tt)
    ∧ ∀ image_name tag digest,
        ∃ result,
          select_digest (Some t') image_name tag = Return result
          ∧ decide result digest = Scan.
Proof.
  intros Hdb Hnd Hname Htag.
  destruct (initialize_db_run s) as (t' & Hrun & Hcols & Hrows).
  rewrite Hdb in Hcols, Hrows. cbn in Hcols, Hrows.
  rewrite (bool_decide_eq_false_2 _ Hnd) in Hcols, Hrows.
  exists t'. split; [done |]. intros image_name tag digest.
  exists (fetchone_digest (rows t' !! (image_name, tag))). split.
  - unfold select_digest. replace (has_columns t' _) with true; [done |].
    symmetry. apply has_columns_spec. intros c Hc. rewrite Hcols, !elem_of_app.
    rewrite !elem_of_cons, elem_of_nil in Hc.
    destruct Hc as [-> | [-> | [-> | []]]]; [| by left | by left].
    right. left. by apply list_elem_of_singleton.
  - apply decide_Scan. rewrite Hrows, lookup_fmap.
    destruct (rows t !! (image_name, tag)) as [r|]; [| done]. cbn.
    unfold cell. case_bool_decide.
    + by rewrite lookup_insert_eq.
    + rewrite lookup_insert_ne by done. by rewrite lookup_insert_eq.
Qed.

Lemma migration_rescans_everything_witness :
  let t := {| columns := ["image_name"; "tag"; "last_updated_image_timestamp"];
              rows := {[ ("app", "v1") :=
                           ({[ "image_name" := TEXT "app" ]} : row) ]} |} in
  let s := {| images_db := Some t; containers := ∅; dirs := ∅;
              image_store := ∅ |} in
  ∃ t',
    initialize_db s = ([], set_db (Some t') s, Return tt)
    ∧ ∀ image_name tag digest,
        ∃ result,
          select_digest (Some t') image_name tag = Return result
          ∧ decide result digest = Scan.
Proof.
  intros t s. apply (migration_rescans_everything s t).
  - reflexivity.
  - subst t. cbn [columns]. rewrite !elem_of_cons, elem_of_nil.
    intros [H | [H | [H | []]]]; discriminate H.
  - subst t. cbn [columns]. rewrite !elem_of_cons. tauto.
  - subst t. cbn [columns]. rewrite !elem_of_cons. tauto.
Defined.

(** ** Registry client *)

(** X6. get_image_digest sends exactly one GET, the token request, and it
    comes first.  A manifest request is sent only after a token was
    obtained, to the manifest URL of the tag and with that token as bearer.
    The call returns a digest exactly when both requests answer 200, the
    token is not empty and the answer carries the digest header. *)
Theorem get_image_digest_requests (r : registry)
    (namespace repository tag : string) :
  let token_response := requests_get r (token_url namespace repository) [] in
  let response :=
    requests_head r (manifest_url namespace repository tag)
      (manifest_headers (token (body token_response))) in
  ∃ evs d,
    get_image_digest r namespace repository tag
    = (HttpGet (token_url namespace repository) [] :: evs, Return d)
    ∧ Forall (λ ev, ¬ is_HttpGet ev) evs
    ∧ (∀ url hs, HttpHead url hs ∈ evs →
         status_code token_response = 200
         ∧ truthy (token (body token_response)) = true
         ∧ url = manifest_url namespace repository tag
         ∧ hs = manifest_headers (token (body token_response)))
    ∧ (∀ digest, d = Some digest ↔
         status_code token_response = 200
         ∧ truthy (token (body token_response)) = true
         ∧ status_code response = 200
         ∧ headers response !! "Docker-Content-Digest" = Some digest).
Proof.
  intros token_response response.
  unfold get_image_digest. cbn [get_fault head_fault answering answers].
  fold (token_url namespace repository). fold token_response.
  case_bool_decide as H1.
  { eexists _, _. split; [reflexivity |]. split; [repeat constructor; tauto |].
    split.
    - intros url hs [[=] | Hin%elem_of_nil]%elem_of_cons. done.
    - intros digest. split; [done | tauto]. }
  destruct (truthy (token (body token_response))) eqn:Ht; cbn [negb].
  2:{ eexists _, _. split; [reflexivity |]. split; [repeat constructor; tauto |].
      split.
      - intros url hs [[=] | Hin%elem_of_nil]%elem_of_cons. done.
      - intros digest. split; [done |]. intros (_ & ? & _). done. }
  fold (manifest_url namespace repository tag).
  fold (manifest_headers (token (body token_response))). fold response.
  assert (H200 : status_code token_response = 200).
  { destruct (Z.eq_dec (status_code token_response) 200); [done |].
    by destruct H1. }
  case_bool_decide as H3.
  - eexists _, _. split; [reflexivity |]. split; [repeat constructor; tauto |].
    split.
    + intros url hs [[= -> ->] | [[=] | Hin%elem_of_nil]%elem_of_cons]%elem_of_cons;
        done.
    + intros digest. split; [done | tauto].
  - eexists _, _. split; [reflexivity |]. split; [repeat constructor; tauto |].
    split.
    + intros url hs [[= -> ->] | Hin%elem_of_nil]%elem_of_cons; done.
    + intros digest. split; [| tauto]. intros Hd. by split_and!.
Qed.

Lemma while_url_looping (r : registry) (error_line : Z → string)
    (looping : string → list (string * Z) → Prop) :
  (∀ url params, looping url params →
     status_code (requests_get r url params) = 200
     ∧ ∃ url', next (body (requests_get r url params)) = Some url'
               ∧ truthy (Some url') = true ∧ looping url' []) →
  ∀ fuel url params acc,
    looping url params → truthy (Some url) = true →
    ∃ evs, while_url r error_line fuel (Some url) params acc = (evs, OutOfFuel)
           ∧ Forall is_HttpGet evs ∧ length evs = fuel.
Proof.
  intros Hclosed. induction fuel as [|fuel IH]; intros url params acc Hl Hurl.
  - cbn [while_url get_fault answering answers]. rewrite Hurl. by exists [].
  - cbn [while_url get_fault answering answers]. rewrite Hurl. cbn [default from_option id].
    destruct (Hclosed _ _ Hl) as (H200 & url' & Hnext & Hurl' & Hl').
    rewrite (status_ok _ H200), Hnext.
    destruct (IH url' [] (acc ++ results (body (requests_get r url params)))
                Hl' Hurl') as (evs & -> & Hall & Hlen).
    eexists. split; [reflexivity |]. split; [by constructor |].
    simpl. by rewrite Hlen.
Qed.

(** X7. The listing loops end only when a page names no next page or
    answers an error.  On a registry whose pages keep naming a next page
    (a cycle, say) neither listing returns: whatever the number of requests
    allowed, all of them are spent on GETs and the loop is still running. *)
Theorem pagination_cycle_never_ends (r : registry)
    (namespace repository : string)
    (looping : string → list (string * Z) → Prop) :
  (∀ url params, looping url params →
     status_code (requests_get r url params) = 200
     ∧ ∃ url', next (body (requests_get r url params)) = Some url'
               ∧ truthy (Some url') = true ∧ looping url' []) →
  (looping (repositories_url namespace) [("page_size", 100)] →
   ∀ fuel, ∃ evs,
     get_all_repositories r fuel namespace = (evs, OutOfFuel)
     ∧ Forall is_HttpGet evs ∧ length evs = fuel)
  ∧ (looping (tags_url namespace repository) [("page_size", 100)] →
     ∀ fuel, ∃ evs,
       get_all_tags r fuel namespace repository = (evs, OutOfFuel)
       ∧ Forall is_HttpGet evs ∧ length evs = fuel).
Proof.
  intros Hclosed. split; intros Hl fuel.
  - by apply (while_url_looping r _ looping Hclosed fuel _ _ [] Hl).
  - by apply (while_url_looping r _ looping Hclosed fuel _ _ [] Hl).
Qed.

Lemma pagination_cycle_never_ends_witness :
  (∀ fuel, ∃ evs,
     get_all_repositories endless_registry fuel "ns" = (evs, OutOfFuel)
     ∧ Forall is_HttpGet evs ∧ length evs = fuel)
  ∧ (∀ fuel, ∃ evs,
       get_all_tags endless_registry fuel "ns" "app" = (evs, OutOfFuel)
       ∧ Forall is_HttpGet evs ∧ length evs = fuel).
Proof.
  assert (H := pagination_cycle_never_ends endless_registry "ns" "app"
                 (λ _ _, True)).
  split.
  - apply H; [| exact I]. intros url params _. split; [reflexivity |].
    eexists. split; [reflexivity |]. split; [reflexivity | exact I].
  - apply H; [| exact I]. intros url params _. split; [reflexivity |].
    eexists. split; [reflexivity |]. split; [reflexivity | exact I].
Defined.

Lemma while_url_follows_up (r : registry) (error_line : Z → string) :
  ∀ fuel url acc,
    Forall follows_up (while_url r error_line fuel url [] acc).1.
Proof.
  induction fuel as [|fuel IH]; intros url acc; cbn [while_url get_fault answering answers].
  - by destruct (truthy url).
  - destruct (truthy url); [| done].
    case_bool_decide; [by repeat constructor |].
    specialize (IH (next (body (requests_get r (default "" url) [])))
                  (acc ++ results (body (requests_get r (default "" url) [])))).
    destruct (while_url r error_line fuel _ _ _) as [ev o]. cbn in *.
    by constructor.
Qed.

Lemma while_url_first_request (r : registry) (error_line : Z → string)
    (fuel : nat) (url : string) (params : list (string * Z)) (acc : list string) :
  truthy (Some url) = true →
  ∃ rest,
    (while_url r error_line (S fuel) (Some url) params acc).1
    = HttpGet url params :: rest
    ∧ Forall follows_up rest.
Proof.
  intros Hurl. cbn [while_url get_fault answering answers]. rewrite Hurl. cbn [default from_option id].
  case_bool_decide; [eexists; split; [reflexivity | by repeat constructor] |].
  pose proof (while_url_follows_up r error_line fuel
                (next (body (requests_get r url params)))
                (acc ++ results (body (requests_get r url params)))) as Hrest.
  destruct (while_url r error_line fuel _ _ _) as [ev o]. cbn in *.
  by eexists.
Qed.

(** X8. Both listings send [page_size] with their first request only, the
    one to the listing URL: every later request of the loop carries no
    parameters at all, so the size of the following pages is whatever the
    registry put into the [next] link. *)
Theorem page_size_sent_with_first_request_only (r : registry) (fuel : nat)
    (namespace repository : string) :
  (∃ rest,
     (get_all_repositories r (S fuel) namespace).1
     = HttpGet (repositories_url namespace) [("page_size", 100)] :: rest
     ∧ Forall follows_up rest)
  ∧ (∃ rest,
       (get_all_tags r (S fuel) namespace repository).1
       = HttpGet (tags_url namespace repository) [("page_size", 100)] :: rest
       ∧ Forall follows_up rest).
Proof.
  split.
  - by apply while_url_first_request.
  - by apply while_url_first_request.
Qed.

(** ** Scan executor: the count and the names *)

Lemma lstrip_empty s : lstrip s = "" ↔ all_space s = true.
Proof.
  induction s as [|c s IH]; [done |]. cbn [lstrip all_space].
  destruct (isspace c); [done |]. split; discriminate.
Qed.

Lemma all_space_lstrip s : all_space (lstrip s) = all_space s.
Proof.
  induction s as [|c s IH]; [done |]. cbn [lstrip all_space].
  destruct (isspace c) eqn:E; [done |]. cbn [all_space]. by rewrite E.
Qed.

Lemma all_space_rev_app a b :
  all_space (String.rev_app a b) = all_space a && all_space b.
Proof.
  revert b. induction a as [|c a IH]; intros b; [done |].
  cbn [String.rev_app all_space]. rewrite IH. cbn [all_space].
  destruct (isspace c), (all_space a), (all_space b); done.
Qed.

Lemma all_space_empty s : all_space s = false → s ≠ "".
Proof. by intros H ->. Qed.

Lemma strip_empty s : String.eqb (strip s) "" = all_space s.
Proof.
  destruct (all_space s) eqn:E.
  - apply String.eqb_eq. unfold strip.
    by rewrite (proj2 (lstrip_empty s) E).
  - apply String.eqb_neq. apply all_space_empty. unfold strip, String.rev.
    rewrite all_space_rev_app, all_space_lstrip, all_space_rev_app,
      all_space_lstrip, E. done.
Qed.

Lemma split_cons sep s : ∃ h t, split sep s = h :: t.
Proof.
  induction s as [|c s (h & t & IH)]; [by eexists _, _ |]. cbn [split].
  destruct (Ascii.eqb c sep); [by eexists _, _ |]. rewrite IH. by eexists _, _.
Qed.

Lemma blank_prefix c s :
  isspace c = true →
  List.filter negb (List.map all_space (split "010" (String c s)))
  = List.filter negb (List.map all_space (split "010" s)).
Proof.
  intros Hc. cbn [split]. destruct (Ascii.eqb c "010"); [reflexivity |].
  destruct (split_cons "010" s) as (h & t & ->). cbn [List.map all_space].
  by rewrite Hc.
Qed.

Lemma blank_suffix c s :
  isspace c = true →
  List.map all_space (split "010" (s +:+ String c ""))
  = List.map all_space (split "010" s)
    ++ (if Ascii.eqb c "010" then [true] else []).
Proof.
  intros Hc. induction s as [|a s IH].
  - change ("" +:+ String c "") with (String c ""). cbn [split].
    destruct (Ascii.eqb c "010"); [reflexivity |].
    cbn [List.map all_space app]. by rewrite Hc.
  - change (String a s +:+ String c "") with (String a (s +:+ String c "")).
    cbn [split]. destruct (Ascii.eqb a "010").
    { cbn [List.map]. by rewrite IH. }
    destruct (split_cons "010" s) as (h & t & Hs).
    destruct (split_cons "010" (s +:+ String c "")) as (h' & t' & Hs').
    rewrite Hs, Hs' in IH |- *. cbn [List.map app] in IH |- *.
    injection IH as Hh Ht. cbn [all_space]. by rewrite Hh, Ht.
Qed.

Lemma length_nonblank s :
  length (nonblank_lines s)
  = length (List.filter negb (List.map all_space (split "010" s))).
Proof.
  unfold nonblank_lines. induction (split "010" s) as [|h t IH]; [done |].
  cbn. destruct (all_space h); cbn; by rewrite IH.
Qed.

Lemma nonblank_lstrip s :
  length (nonblank_lines (lstrip s)) = length (nonblank_lines s).
Proof.
  induction s as [|c s IH]; [done |]. cbn [lstrip].
  destruct (isspace c) eqn:Hc; [| done].
  by rewrite IH, !length_nonblank, blank_prefix.
Qed.

Lemma rev_app_append a b c :
  String.rev_app a (b +:+ c) = String.rev_app a b +:+ c.
Proof.
  revert b. induction a as [|x a IH]; intros b; [done |].
  cbn [String.rev_app]. by rewrite <- IH.
Qed.

Lemma rev_app_rev_app a b c :
  String.rev_app (String.rev_app a b) c = String.rev_app b (a +:+ c).
Proof.
  revert b c. induction a as [|x a IH]; intros b c; [done |].
  cbn [String.rev_app]. by rewrite IH.
Qed.

Lemma rev_rev s : String.rev (String.rev s) = s.
Proof.
  unfold String.rev. rewrite rev_app_rev_app. cbn [String.rev_app].
  induction s as [|c s IH]; [done |].
  change (String c s +:+ "") with (String c (s +:+ "")). by rewrite IH.
Qed.

Lemma nonblank_rev_lstrip s :
  length (nonblank_lines (String.rev (lstrip s)))
  = length (nonblank_lines (String.rev s)).
Proof.
  induction s as [|c s IH]; [done |]. cbn [lstrip].
  destruct (isspace c) eqn:Hc; [| done].
  rewrite IH. unfold String.rev at 2. cbn [String.rev_app].
  change (String c "") with ("" +:+ String c "").
  rewrite (rev_app_append s "" (String c "")). fold (String.rev s).
  rewrite !length_nonblank, (blank_suffix _ _ Hc).
  rewrite List.filter_app. destruct (Ascii.eqb c "010"); cbn; by rewrite app_nil_r.
Qed.

Lemma all_space_lines s : all_space s = forallb all_space (split "010" s).
Proof.
  induction s as [|c s IH]; [done |]. cbn [all_space split].
  destruct (Ascii.eqb_spec c "010") as [-> | Hne]; [by rewrite IH |].
  destruct (split_cons "010" s) as (h & t & Hs). rewrite Hs in IH |- *.
  cbn [forallb all_space] in IH |- *. rewrite IH.
  by destruct (isspace c), (all_space h), (forallb all_space t).
Qed.

(** X9. The count run_trufflehog returns is the number of lines of the
    JSON output that hold something else than white space: stripping the
    whole output first changes nothing, blank lines inside it, before it
    and after it are skipped alike.  The count is 0 exactly when the output
    is empty or white space only. *)
Theorem count_findings_counts_nonblank_lines (scan_results_json : string) :
  count_findings scan_results_json
  = Z.of_nat (length (nonblank_lines scan_results_json))
  ∧ (count_findings scan_results_json = 0 ↔ all_space scan_results_json = true).
Proof.
  assert (H : count_findings scan_results_json
              = Z.of_nat (length (nonblank_lines scan_results_json))).
  { unfold count_findings. f_equal.
    transitivity (length (nonblank_lines (strip scan_results_json))).
    - unfold nonblank_lines. f_equal. apply List.filter_ext. intros line.
      by rewrite strip_empty.
    - unfold strip. by rewrite nonblank_rev_lstrip, rev_rev, nonblank_lstrip. }
  split; [done |]. rewrite H, all_space_lines. unfold nonblank_lines.
  induction (split "010" scan_results_json) as [|h t IH]; [done |].
  cbn. destruct (all_space h); cbn; [done |]. split; [lia | done].
Qed.

Lemma chars_replace old new s :
  chars (replace old new s)
  = (λ c, if Ascii.eqb c old then new else c) <$> chars s.
Proof. induction s as [|c s IH]; [done |]. cbn. by rewrite IH. Qed.

Lemma chars_append a b : chars (a +:+ b) = chars a ++ chars b.
Proof.
  induction a as [|c a IH]; [done |].
  change (String c a +:+ b) with (String c (a +:+ b)). cbn. by rewrite IH.
Qed.

(** X10. The container name is [temp_container_] followed by the image
    reference with every [/] and every [:] turned into [_] and every other
    character left in its place: the name has 15 characters more than the
    reference and holds neither [/] nor [:]. *)
Theorem container_name_of_characters (image_tag : string) :
  chars (container_name_of image_tag)
  = chars "temp_container_"
    ++ ((λ c, if bool_decide (c = "/"%char ∨ c = ":"%char) then "_"%char else c)
          <$> chars image_tag)
  ∧ Forall (λ c, c ≠ "/"%char ∧ c ≠ ":"%char) (chars (container_name_of image_tag))
  ∧ length (chars (container_name_of image_tag))
    = (15 + length (chars image_tag))%nat.
Proof.
  assert (H : chars (container_name_of image_tag)
              = chars "temp_container_"
                ++ ((λ c, if bool_decide (c = "/"%char ∨ c = ":"%char)
                          then "_"%char else c) <$> chars image_tag)).
  { unfold container_name_of. rewrite chars_append, !chars_replace.
    f_equal. rewrite <- list_fmap_compose. apply list_fmap_ext.
    intros _ c _. cbn.
    destruct (Ascii.eqb_spec c "/") as [-> | H1]; [done |].
    destruct (Ascii.eqb_spec c ":") as [-> | H2]; [done |].
    rewrite bool_decide_eq_false_2; [done | tauto]. }
  split; [done |]. rewrite H. split.
  - apply Forall_app. split; [repeat constructor; done |].
    apply Forall_fmap, Forall_forall. intros c _. cbn.
    case_bool_decide as Hc; [done | tauto].
  - by rewrite length_app, length_fmap.
Qed.

(** ** Scan executor: the commands of a scan *)

Lemma state_eq (a b : state) :
  images_db a = images_db b → containers a = containers b → dirs a = dirs b →
  image_store a = image_store b →
  a = b.
Proof. destruct a, b. cbn. by intros -> -> -> ->. Qed.

Lemma add_remove (x : string) (X : gset string) :
  x ∉ X → ({[x]} ∪ X) ∖ {[x]} = X.
Proof.
  intros Hx. apply set_eq. intros y.
  rewrite elem_of_difference, elem_of_union, !elem_of_singleton.
  split; [by intros [[? | ?] ?] |].
  intros Hy. split; [by right |]. by intros ->.
Qed.

Lemma mkdtemp_returns names s temp_dir :
  (mkdtemp names s).2 = Return temp_dir →
  mkdtemp names s = ([Mkdtemp temp_dir], set_dirs ({[temp_dir]} ∪ dirs s) s,
                     Return temp_dir)
  ∧ temp_dir ∉ dirs s.
Proof.
  unfold mkdtemp.
  destruct (List.find _ names) as [d|] eqn:Hfind; [| discriminate].
  cbn. intros [= ->]. split; [done |].
  apply find_some in Hfind as [_ Hd].
  by apply negb_true_iff, bool_decide_eq_false in Hd.
Qed.

(** The try block up to the scanner, when the image is pulled, the
    container is created and the export and tar can be started. *)
Lemma try_block_extracts e image_tag temp_dir s :
  pull_fault e = NoFault → create_fault e = NoFault →
  container_name_of image_tag ∉ containers s →
  launches (export_fault e) = true → launches (tar_fault e) = true →
  try_block e image_tag temp_dir (container_name_of image_tag) s
  = prepend [Exec (pull_cmd image_tag); Exec (create_cmd image_tag);
             Exec (export_cmd (container_name_of image_tag));
             Exec (tar_cmd temp_dir)]
      ((result <- subprocess_run (scan_cmd temp_dir) false
                    (trufflehog (text_fault e) (text_stdout e));;
        result_json <- subprocess_run (scan_json_cmd temp_dir) false
                         (trufflehog (json_fault e) (json_stdout e));;
        ret (result.2, count_findings result_json.2))
         (set_containers ({[container_name_of image_tag]} ∪ containers s)
            (pulled image_tag s))).
Proof.
  intros Hp Hcr Hfree Hex Htar. unfold try_block.
  rewrite Hp, Hcr. cbn [process].
  rewrite (bind_run _ _ _ _ _ _ (docker_pull_run image_tag s)).
  set (s1 := set_containers ({[container_name_of image_tag]} ∪ containers s)
               (pulled image_tag s)).
  rewrite (bind_run _ _ (pulled image_tag s) [Exec (create_cmd image_tag)] s1
             (0, EmptyString)).
  2:{ apply (subprocess_run_returns _ true _ (pulled image_tag s) [] s1
               (0, EmptyString)); [| done].
      unfold docker_create. rewrite bind_get_state.
      rewrite bool_decide_eq_false_2 by done. by rewrite bind_put_state. }
  destruct (process_launches (export_fault e)
              (docker_export (container_name_of image_tag)) s1 Hex) as [c1 H1].
  { unfold docker_export. rewrite bind_get_state. by eexists. }
  rewrite (bind_run _ _ _ _ _ _ (subprocess_Popen_returns _ _ _ _ _ _ H1)).
  destruct (process_launches (tar_fault e) tar_extract s1 Htar) as [c2 H2].
  { by eexists. }
  rewrite (bind_run _ _ _ _ _ _ (subprocess_Popen_returns _ _ _ _ _ _ H2)).
  by rewrite !prepend_prepend.
Qed.

Lemma cleanup_restores e temp_dir name s s0 :
  rm_fault e = NoFault → rmtree_fault e = None →
  images_db s0 = images_db s →
  containers s0 ∖ {[name]} = containers s →
  dirs s0 ∖ {[temp_dir]} = dirs s →
  image_store s0 = image_store s →
  finally_block e temp_dir name s0
  = ([Exec (rm_cmd name); Rmtree temp_dir], s, Return tt).
Proof.
  intros Hrm Hrmtree Hi Hc Hd Him. unfold finally_block. rewrite Hrm, Hrmtree.
  cbn [process].
  destruct (docker_rm_run name s0) as (s1 & c & Hrun & Hc1 & Hd1 & Hi1).
  assert (Him1 : image_store s1 = image_store s0).
  { revert Hrun. unfold docker_rm. rewrite bind_get_state.
    case_bool_decide; [rewrite bind_put_state |]; by intros [= <- _]. }
  rewrite (bind_run _ _ _ _ _ _ (subprocess_run_returns _ false _ _ _ _ _ Hrun eq_refl)).
  unfold rmtree. rewrite bind_emit, bind_get_state. unfold put_state, prepend.
  cbn [fst snd app]. f_equal. f_equal. apply state_eq; cbn; congruence.
Qed.

(** X11. A scan on which nothing fails prints its line, makes the scratch
    directory, runs seven commands in this order (pull, create, export,
    tar, the scanner, the scanner with [--json], [docker rm]) and removes
    the scratch directory.  It returns the output of the first scanner run
    with the count of the second.  The table, the containers and the
    scratch directories are afterwards exactly as before; the pulled image
    is not removed, it stays in the image store of the daemon.  An exit
    status of the export, of tar or of a scanner run changes none of
    this. *)
Theorem clean_scan_trace (e : scan_env) (image_tag : string) (s : state)
    (temp_dir : string) :
  pull_fault e = NoFault → create_fault e = NoFault →
  launches (export_fault e) = true → launches (tar_fault e) = true →
  launches (text_fault e) = true → launches (json_fault e) = true →
  rm_fault e = NoFault → rmtree_fault e = None →
  container_name_of image_tag ∉ containers s →
  (mkdtemp (tmp_names e) s).2 = Return temp_dir →
  run_trufflehog e image_tag s
  = ([Print (running_line image_tag); Mkdtemp temp_dir;
      Exec (pull_cmd image_tag); Exec (create_cmd image_tag);
      Exec (export_cmd (container_name_of image_tag)); Exec (tar_cmd temp_dir);
      Exec (scan_cmd temp_dir); Exec (scan_json_cmd temp_dir);
      Exec (rm_cmd (container_name_of image_tag)); Rmtree temp_dir],
     pulled image_tag s,
     Return (text_stdout e, count_findings (json_stdout e))).
Proof.
  intros Hp Hcr Hex Htar Htext Hjson Hrm Hrmtree Hfree Hmk.
  destruct (mkdtemp_returns _ _ _ Hmk) as [Hm Hfresh].
  rewrite (run_trufflehog_unfold _ _ _ _ _ _ Hm).
  unfold try_finally, try_except.
  rewrite (try_block_extracts e image_tag temp_dir
             (set_dirs ({[temp_dir]} ∪ dirs s) s) Hp Hcr Hfree Hex Htar).
  set (s1 := set_containers _ _).
  destruct (trufflehog_launches _ (text_stdout e) s1 Htext) as [c3 H3].
  rewrite (bind_run _ _ _ _ _ _ (subprocess_run_returns _ false _ _ _ _ _ H3 eq_refl)).
  destruct (trufflehog_launches _ (json_stdout e) s1 Hjson) as [c4 H4].
  rewrite (bind_run _ _ _ _ _ _ (subprocess_run_returns _ false _ _ _ _ _ H4 eq_refl)).
  unfold ret, prepend. cbn -[count_findings].
  rewrite (cleanup_restores e temp_dir (container_name_of image_tag)
             (pulled image_tag s) s1 Hrm Hrmtree).
  - reflexivity.
  - reflexivity.
  - cbn. by apply add_remove.
  - cbn. by apply add_remove.
  - reflexivity.
Qed.

Lemma clean_scan_trace_witness :
  run_trufflehog demo_scan_env "ns/app:v1" empty_host
  = ([Print (running_line "ns/app:v1"); Mkdtemp "/tmp/tmpa";
      Exec (pull_cmd "ns/app:v1"); Exec (create_cmd "ns/app:v1");
      Exec (export_cmd (container_name_of "ns/app:v1")); Exec (tar_cmd "/tmp/tmpa");
      Exec (scan_cmd "/tmp/tmpa"); Exec (scan_json_cmd "/tmp/tmpa");
      Exec (rm_cmd (container_name_of "ns/app:v1")); Rmtree "/tmp/tmpa"],
     pulled "ns/app:v1" empty_host,
     Return (text_stdout demo_scan_env, count_findings (json_stdout demo_scan_env))).
Proof.
  apply clean_scan_trace; try reflexivity.
  cbn. apply not_elem_of_empty.
Defined.

(** X12. When a container of the name is already there (left by an earlier
    run, or by a scan of another reference that maps to the same name),
    [docker create] exits with 1: the scan runs no export and no scanner,
    it returns the error text with count 0, and its cleanup removes that
    container.  The image pulled before stays in the image store; the
    table and the scratch directories are as before. *)
Theorem stale_container_fails_the_scan (e : scan_env) (image_tag : string)
    (s : state) (temp_dir : string) :
  pull_fault e = NoFault → create_fault e = NoFault →
  rm_fault e = NoFault → rmtree_fault e = None →
  container_name_of image_tag ∈ containers s →
  (mkdtemp (tmp_names e) s).2 = Return temp_dir →
  run_trufflehog e image_tag s
  = ([Print (running_line image_tag); Mkdtemp temp_dir;
      Exec (pull_cmd image_tag); Exec (create_cmd image_tag);
      Print (scan_error_text image_tag
               (CalledProcessError 1 (create_cmd image_tag)));
      Exec (rm_cmd (container_name_of image_tag)); Rmtree temp_dir],
     pulled image_tag
       (set_containers (containers s ∖ {[container_name_of image_tag]}) s),
     Return (scan_error_text image_tag
               (CalledProcessError 1 (create_cmd image_tag)), 0)).
Proof.
  intros Hp Hcr Hrm Hrmtree Hstale Hmk.
  destruct (mkdtemp_returns _ _ _ Hmk) as [Hm Hfresh].
  rewrite (run_trufflehog_unfold _ _ _ _ _ _ Hm).
  set (s0 := set_dirs ({[temp_dir]} ∪ dirs s) s).
  assert (Hb : try_block e image_tag temp_dir (container_name_of image_tag) s0
               = ([Exec (pull_cmd image_tag); Exec (create_cmd image_tag)],
                  pulled image_tag s0,
                  Raise (CalledProcessError 1 (create_cmd image_tag)))).
  { unfold try_block. rewrite Hp, Hcr. cbn [process].
    rewrite (bind_run _ _ _ _ _ _ (docker_pull_run image_tag s0)).
    erewrite bind_raises; [reflexivity |].
    apply (subprocess_run_check_fails _ _ (pulled image_tag s0) []
             (pulled image_tag s0) (1, EmptyString)); [| done].
    unfold docker_create. rewrite bind_get_state.
    by rewrite bool_decide_eq_true_2. }
  unfold try_finally, try_except. rewrite Hb.
  cbn [except_block]. rewrite bind_print. unfold ret, prepend. cbn [fst snd app].
  rewrite (cleanup_restores e temp_dir (container_name_of image_tag)
             (pulled image_tag
                (set_containers (containers s ∖ {[container_name_of image_tag]}) s))
             (pulled image_tag s0) Hrm Hrmtree).
  - reflexivity.
  - reflexivity.
  - reflexivity.
  - cbn. by apply add_remove.
  - reflexivity.
Qed.

Lemma stale_container_fails_the_scan_witness :
  run_trufflehog demo_scan_env "ns/app:v1" host_with_stale_container
  = ([Print (running_line "ns/app:v1"); Mkdtemp "/tmp/tmpa";
      Exec (pull_cmd "ns/app:v1"); Exec (create_cmd "ns/app:v1");
      Print (scan_error_text "ns/app:v1"
               (CalledProcessError 1 (create_cmd "ns/app:v1")));
      Exec (rm_cmd (container_name_of "ns/app:v1")); Rmtree "/tmp/tmpa"],
     pulled "ns/app:v1"
       (set_containers (containers host_with_stale_container
                        ∖ {[container_name_of "ns/app:v1"]})
          host_with_stale_container),
     Return (scan_error_text "ns/app:v1"
               (CalledProcessError 1 (create_cmd "ns/app:v1")), 0)).
Proof.
  apply stale_container_fails_the_scan; reflexivity.
Defined.

(** ** Run coordinator: what a failed scan does to the sweep *)

(** X13. The scanner cannot be started (it is not installed, say): the
    OSError is not caught anywhere.  The loop over the plan ends there with
    that error, after the cleanup of the scan: nothing is written to the
    store and nothing is sent for this task, and the tasks after it are
    not looked at.  The table, the containers and the scratch directories
    are as before; the image pulled for the task stays in the image
    store. *)
Theorem scanner_that_cannot_start_stops_the_sweep (e : env) (namespace : string)
    (i : nat) (repo tag digest : string) (rest : list task) (s : state)
    (temp_dir msg : string) :
  pull_fault (scan_env_of e i) = NoFault →
  create_fault (scan_env_of e i) = NoFault →
  launches (export_fault (scan_env_of e i)) = true →
  launches (tar_fault (scan_env_of e i)) = true →
  text_fault (scan_env_of e i) = CannotLaunch msg →
  rm_fault (scan_env_of e i) = NoFault →
  rmtree_fault (scan_env_of e i) = None →
  container_name_of (image_ref namespace repo tag) ∉ containers s →
  (mkdtemp (tmp_names (scan_env_of e i)) s).2 = Return temp_dir →
  for_image e namespace i ((repo, tag, digest) :: rest) s
  = ([Print (running_line (image_ref namespace repo tag)); Mkdtemp temp_dir;
      Exec (pull_cmd (image_ref namespace repo tag));
      Exec (create_cmd (image_ref namespace repo tag));
      Exec (export_cmd (container_name_of (image_ref namespace repo tag)));
      Exec (tar_cmd temp_dir); Exec (scan_cmd temp_dir);
      Exec (rm_cmd (container_name_of (image_ref namespace repo tag)));
      Rmtree temp_dir],
     pulled (image_ref namespace repo tag) s, Raise (OSError msg)).
Proof.
  intros Hp Hcr Hex Htar Htext Hrm Hrmtree Hfree Hmk.
  set (se := scan_env_of e i) in *. set (image_tag := image_ref namespace repo tag) in *.
  destruct (mkdtemp_returns _ _ _ Hmk) as [Hm Hfresh].
  cbn [for_image]. fold (image_ref namespace repo tag). fold image_tag. fold se.
  apply bind_raises.
  rewrite (run_trufflehog_unfold _ _ _ _ _ _ Hm).
  transitivity
    (prepend [Print (running_line image_tag); Mkdtemp temp_dir]
       ([Exec (pull_cmd image_tag); Exec (create_cmd image_tag);
         Exec (export_cmd (container_name_of image_tag));
         Exec (tar_cmd temp_dir); Exec (scan_cmd temp_dir);
         Exec (rm_cmd (container_name_of image_tag)); Rmtree temp_dir],
        pulled image_tag s, @Raise (string * Z) (OSError msg))); [| reflexivity].
  f_equal.
  unfold try_finally, try_except.
  rewrite (try_block_extracts se image_tag temp_dir
             (set_dirs ({[temp_dir]} ∪ dirs s) s) Hp Hcr Hfree Hex Htar).
  set (s1 := set_containers _ _).
  rewrite (bind_raises _ _ s1 [Exec (scan_cmd temp_dir)] s1 (OSError msg)).
  2:{ apply subprocess_run_cannot_launch. by rewrite Htext. }
  unfold prepend. cbn [fst snd app except_block]. unfold raise.
  rewrite (cleanup_restores se temp_dir (container_name_of image_tag)
             (pulled image_tag s) s1 Hrm Hrmtree).
  - reflexivity.
  - reflexivity.
  - cbn. by apply add_remove.
  - cbn. by apply add_remove.
  - reflexivity.
Qed.

Lemma scanner_that_cannot_start_stops_the_sweep_witness :
  for_image demo_env_scanner_missing "ns" 0
    [("app", "v1", "sha:one"); ("app", "v2", "sha:new")] empty_host
  = ([Print (running_line (image_ref "ns" "app" "v1")); Mkdtemp "/tmp/tmpa";
      Exec (pull_cmd (image_ref "ns" "app" "v1"));
      Exec (create_cmd (image_ref "ns" "app" "v1"));
      Exec (export_cmd (container_name_of (image_ref "ns" "app" "v1")));
      Exec (tar_cmd "/tmp/tmpa"); Exec (scan_cmd "/tmp/tmpa");
      Exec (rm_cmd (container_name_of (image_ref "ns" "app" "v1")));
      Rmtree "/tmp/tmpa"],
     pulled (image_ref "ns" "app" "v1") empty_host,
     Raise (OSError "No such file or directory: 'trufflehog'")).
Proof.
  apply scanner_that_cannot_start_stops_the_sweep; try reflexivity.
  cbn. apply not_elem_of_empty.
Defined.

Lemma insert_or_replace_cells db image_name tag digest ts count t' :
  insert_or_replace db image_name tag digest ts count = Return t' →
  ∃ r, rows t' !! (image_name, tag) = Some r
       ∧ cell r "digest" = TEXT digest
       ∧ cell r "vulnerabilities_count" = INTEGER count.
Proof.
  unfold insert_or_replace. destruct db as [t|]; [| discriminate].
  destruct (has_columns t _) eqn:Hc; [| discriminate].
  pose proof (proj1 (has_columns_spec _ _) Hc) as Hin.
  intros [= <-]. eexists. cbn [rows]. split; [apply lookup_insert_eq |].
  split.
  - rewrite cell_new_row, cell_named, bool_decide_eq_true_2; [done |].
    apply Hin. rewrite !elem_of_cons. tauto.
  - rewrite cell_new_row, cell_named, bool_decide_eq_true_2; [done |].
    apply Hin. rewrite !elem_of_cons. tauto.
Qed.

(** X14. An image that cannot be pulled is recorded as scanned and clean:
    the error is printed, but the notification sent for the task is the
    one of a scan without findings, the store gets the resolved digest
    with count 0 (so later sweeps skip the image until its digest
    changes), and the loop goes on with the next task. *)
Theorem failed_pull_is_recorded_as_clean (e : env) (namespace : string)
    (i : nat) (repo tag digest : string) (rest : list task) (s : state)
    (temp_dir : string) (c : Z) :
  ready (images_db s) →
  pull_fault (scan_env_of e i) = ExitStatus c → c ≠ 0 →
  rm_fault (scan_env_of e i) = NoFault →
  rmtree_fault (scan_env_of e i) = None →
  (mkdtemp (tmp_names (scan_env_of e i)) s).2 = Return temp_dir →
  ∃ t' r line,
    for_image e namespace i ((repo, tag, digest) :: rest) s
    = prepend
        [Print (running_line (image_ref namespace repo tag)); Mkdtemp temp_dir;
         Exec (pull_cmd (image_ref namespace repo tag));
         Print (scan_error_text (image_ref namespace repo tag)
                  (CalledProcessError c (pull_cmd (image_ref namespace repo tag))));
         Exec (rm_cmd (container_name_of (image_ref namespace repo tag)));
         Rmtree temp_dir;
         ChatPostMessage (slack_channel e)
           ("No vulnerabilities found in " +:+ repo +:+ ":" +:+ tag +:+ ".");
         Print line]
        (for_image e namespace (S i) rest
           (set_db (Some t')
              (set_containers
                 (containers s ∖ {[container_name_of (image_ref namespace repo tag)]})
                 s)))
    ∧ rows t' !! (repo, tag) = Some r
    ∧ cell r "digest" = TEXT digest
    ∧ cell r "vulnerabilities_count" = INTEGER 0.
Proof.
  intros Hready Hpull Hc Hrm Hrmtree Hmk.
  set (se := scan_env_of e i) in *. set (image_tag := image_ref namespace repo tag) in *.
  destruct (mkdtemp_returns _ _ _ Hmk) as [Hm Hfresh].
  assert (Hrun :
    run_trufflehog se image_tag s
    = ([Print (running_line image_tag); Mkdtemp temp_dir;
        Exec (pull_cmd image_tag);
        Print (scan_error_text image_tag (CalledProcessError c (pull_cmd image_tag)));
        Exec (rm_cmd (container_name_of image_tag)); Rmtree temp_dir],
       set_containers (containers s ∖ {[container_name_of image_tag]}) s,
       Return (scan_error_text image_tag
                 (CalledProcessError c (pull_cmd image_tag)), 0))).
  { rewrite (run_trufflehog_unfold _ _ _ _ _ _ Hm).
    unfold try_finally, try_except.
    rewrite (try_block_pull_fails _ _ _ _ _ c Hpull Hc).
    cbn [except_block]. rewrite bind_print. unfold ret, prepend. cbn [fst snd app].
    rewrite (cleanup_restores se temp_dir (container_name_of image_tag)
               (set_containers (containers s ∖ {[container_name_of image_tag]}) s)
               _ Hrm Hrmtree).
    - reflexivity.
    - reflexivity.
    - reflexivity.
    - cbn. by apply add_remove.
    - reflexivity. }
  destruct (for_image_step e namespace i repo tag digest rest s _ _ _ _ Hready Hrun)
    as (t' & line & Hins & _ & Hstep).
  destruct (insert_or_replace_cells _ _ _ _ _ _ _ Hins) as (r & Hr & Hd & Hv).
  exists t', r, line. split; [| done]. rewrite Hstep. reflexivity.
Qed.

Lemma failed_pull_is_recorded_as_clean_witness :
  let s := (plan_images demo_env_pull_fails 5 "ns" empty_host).1.2 in
  ∃ t' r line,
    for_image demo_env_pull_fails "ns" 0
      [("app", "v1", "sha:one"); ("app", "v2", "sha:new")] s
    = prepend
        [Print (running_line (image_ref "ns" "app" "v1")); Mkdtemp "/tmp/tmpa";
         Exec (pull_cmd (image_ref "ns" "app" "v1"));
         Print (scan_error_text (image_ref "ns" "app" "v1")
                  (CalledProcessError 1 (pull_cmd (image_ref "ns" "app" "v1"))));
         Exec (rm_cmd (container_name_of (image_ref "ns" "app" "v1")));
         Rmtree "/tmp/tmpa";
         ChatPostMessage (slack_channel demo_env_pull_fails)
           ("No vulnerabilities found in " +:+ "app" +:+ ":" +:+ "v1" +:+ ".");
         Print line]
        (for_image demo_env_pull_fails "ns" 1 [("app", "v2", "sha:new")]
           (set_db (Some t')
              (set_containers
                 (containers s ∖ {[container_name_of (image_ref "ns" "app" "v1")]})
                 s)))
    ∧ rows t' !! ("app", "v1") = Some r
    ∧ cell r "digest" = TEXT "sha:one"
    ∧ cell r "vulnerabilities_count" = INTEGER 0.
Proof.
  intros s.
  apply (failed_pull_is_recorded_as_clean demo_env_pull_fails "ns" 0 "app" "v1"
           "sha:one" [("app", "v2", "sha:new")] s "/tmp/tmpa" 1).
  - eexists. split; [reflexivity |]. vm_compute. reflexivity.
  - reflexivity.
  - discriminate.
  - reflexivity.
  - reflexivity.
  - reflexivity.
Defined.

(** ** Run coordinator: what the detection and the sweep leave alone *)

Lemma bind_state {A B} (m : M A) (k : A → M B) s :
  (bind m k s).1.2
  = match (m s).2 with
    | Return a => (k a (m s).1.2).1.2
    | _ => (m s).1.2
    end.
Proof.
  unfold bind. destruct (m s) as [[ev s1] [a | ex |]]; cbn; [| done | done].
  by destruct (k a s1) as [[ev' s2] o].
Qed.

Lemma reads_only_bind {A B} (m : M A) (k : A → M B) :
  reads_only m → (∀ a, reads_only (k a)) → reads_only (bind m k).
Proof.
  intros Hm Hk s. rewrite bind_state. specialize (Hm s).
  destruct (m s) as [[ev s1] [a | ex |]]; cbn in *; [| done | done].
  subst s1. apply Hk.
Qed.

Lemma reads_only_for_tag e namespace repo tags :
  ∀ plan, reads_only (for_tag e namespace repo tags plan).
Proof.
  induction tags as [|tag tags IH]; intros plan; cbn [for_tag]; [done |].
  apply reads_only_bind; [done |]. intros [digest|]; [| apply IH].
  apply reads_only_bind; [done |]. intros s.
  apply reads_only_bind; [done |]. intros result.
  destruct (decide result digest); [| apply IH].
  apply reads_only_bind; [done |]. intros _. apply IH.
Qed.

Lemma reads_only_for_repo e fuel namespace repos :
  ∀ plan, reads_only (for_repo e fuel namespace repos plan).
Proof.
  induction repos as [|repo repos IH]; intros plan; cbn [for_repo]; [done |].
  apply reads_only_bind; [done |]. intros tags.
  apply reads_only_bind; [apply reads_only_for_tag |]. intros plan'. apply IH.
Qed.

(** X15. The detection writes nothing: whatever the registry answers and
    however the detection ends (also when a lookup fails or a listing does
    not end), the host is afterwards as initialize_db left it.  No row is
    written before the scans start. *)
Theorem detection_writes_nothing (e : env) (fuel : nat) (namespace : string)
    (s : state) :
  (plan_images e fuel namespace s).1.2 = (initialize_db s).1.2.
Proof.
  unfold plan_images. rewrite bind_state.
  destruct (initialize_db_run s) as (t' & -> & _). cbn [fst snd].
  apply reads_only_bind; [done |]. intros repos. apply reads_only_for_repo.
Qed.

Lemma grows_refl keys db : grows_outside keys db db.
Proof. by split. Qed.

Lemma grows_trans keys db1 db2 db3 :
  grows_outside keys db1 db2 → grows_outside keys db2 db3 →
  grows_outside keys db1 db3.
Proof.
  intros [Ha1 Hb1] [Ha2 Hb2]. split.
  - intros key H. by apply Ha2, Ha1.
  - intros key H. by rewrite Hb2, Hb1.
Qed.

Lemma grows_mono keys keys' db db' :
  (∀ key, key ∈ keys → key ∈ keys') →
  grows_outside keys db db' → grows_outside keys' db db'.
Proof.
  intros Hsub [Ha Hb]. split; [done |].
  intros key Hkey. apply Hb. intros Hin. by apply Hkey, Hsub.
Qed.

Lemma update_db_grows e n image_name tag digest count s :
  grows_outside [(image_name, tag)] (images_db s)
    (images_db (update_db e n image_name tag digest count s).1.2).
Proof.
  unfold update_db. rewrite bind_get_state, bind_state. unfold lift.
  cbn [fst snd].
  destruct (insert_or_replace (images_db s) image_name tag digest (now_ist e n) count)
    as [t' | ex |] eqn:Hins; [| apply grows_refl | apply grows_refl].
  cbn [put_state fst snd set_db images_db].
  unfold insert_or_replace in Hins. destruct (images_db s) as [t|]; [| done].
  destruct (has_columns t _); [| done]. injection Hins as <-.
  split; cbn [row_of rows].
  - intros key Hkey.
    destruct (bool_decide (key = (image_name, tag))) eqn:E.
    + apply bool_decide_eq_true in E as ->. by rewrite lookup_insert_eq.
    + apply bool_decide_eq_false in E. by rewrite lookup_insert_ne.
  - intros key Hkey. rewrite lookup_insert_ne; [done |].
    intros <-. apply Hkey. by apply list_elem_of_singleton.
Qed.

Lemma for_image_grows e namespace plan :
  ∀ i s,
    grows_outside (plan.*1) (images_db s)
      (images_db (for_image e namespace i plan s).1.2).
Proof.
  induction plan as [|[[repo tag] digest] rest IH]; intros i s; cbn [for_image].
  - apply grows_refl.
  - rewrite bind_state.
    destruct (run_trufflehog (scan_env_of e i)
                (namespace +:+ "/" +:+ repo +:+ ":" +:+ tag) s)
      as [[evr s2] o] eqn:Hrun.
    apply run_trufflehog_db in Hrun as [Hdb _]. cbn [fst snd].
    rewrite <- Hdb.
    destruct o as [r | ex |]; [| apply grows_refl | apply grows_refl].
    rewrite bind_state.
    pose proof (update_db_grows e (S i) repo tag digest r.2 s2) as Hup.
    destruct (update_db e (S i) repo tag digest r.2 s2) as [[evu s3] ou].
    cbn [fst snd] in *.
    apply (grows_mono _ (((repo, tag, digest) :: rest).*1)) in Hup.
    2:{ intros key ->%list_elem_of_singleton. cbn. by left. }
    destruct ou as [[] | ex |]; [| done | done].
    rewrite bind_state.
    destruct (send_message_to_slack_run e (S i)
                (scan_message_of repo tag r.1 r.2) s3) as (line & ->).
    cbn [fst snd].
    eapply grows_trans; [exact Hup |].
    eapply grows_mono; [| apply IH]. intros key Hkey. cbn. by right.
Qed.

(** X16. The execution of a plan never deletes a row and touches only the
    rows of the pairs in the plan, however it ends: a row of a pair without
    a task is afterwards exactly as it was before. *)
Theorem execute_plan_touches_planned_rows_only (e : env) (namespace : string)
    (plan : list task) (s : state) :
  grows_outside (plan.*1) (images_db s)
    (images_db (execute_plan e namespace plan s).1.2).
Proof.
  destruct plan as [|tk plan]; [apply grows_refl |].
  unfold execute_plan. rewrite bind_state.
  destruct (send_message_to_slack_run e 0
              (summary_message (List.length (tk :: plan)) (now_ist e 0)) s)
    as (line & ->).
  cbn [fst snd]. apply for_image_grows.
Qed.

(** ** Run coordinator: Slack and the registry as points of failure *)











Lemma get_all_repositories_error (r : transport) fuel namespace :
  answered (get_fault r (repositories_url namespace) [("page_size", 100)]) →
  status_code (requests_get (answers r) (repositories_url namespace)
                 [("page_size", 100)])
  ≠ 200 →
  get_all_repositories r (S fuel) namespace
  = ([HttpGet (repositories_url namespace) [("page_size", 100)];
      Print ("Error fetching repositories: "
             +:+ pretty (status_code
                           (requests_get (answers r) (repositories_url namespace)
                              [("page_size", 100)])))],
     Return []).
Proof.
  intros Ha H. unfold get_all_repositories. cbn [while_url].
  change (truthy (Some _)) with true. cbn [default from_option id].
  fold (repositories_url namespace).
  destruct (get_fault r _ _) as [| ex | ex]; [| by destruct (Ha ex) |];
    by rewrite (status_not_ok _ H).
Qed.

(** X18. When the listing of the repositories is answered with a failure
    on its first page (the registry is down, the namespace does not
    exist), the sweep does not fail: it prints the status, finds nothing to
    scan, prints its no-op line and returns, with no notification sent.
    The store is as initialize_db left it. *)
Theorem listing_outage_looks_like_nothing_to_do (e : env) (fuel : nat)
    (namespace : string) (s : state) :
  answered (get_fault (reg e) (repositories_url namespace) [("page_size", 100)]) →
  status_code (requests_get (answers (reg e)) (repositories_url namespace)
                 [("page_size", 100)]) ≠ 200 →
  ∃ t',
    initialize_db s = ([], set_db (Some t') s, Return tt)
    ∧ scan_images e (S fuel) namespace s
      = ([HttpGet (repositories_url namespace) [("page_size", 100)];
          Print ("Error fetching repositories: "
                 +:+ pretty (status_code
                               (requests_get (answers (reg e))
                                  (repositories_url namespace)
                                  [("page_size", 100)])));
          Print "No new or updated images to scan."],
         set_db (Some t') s, Return tt).
Proof.
  intros Ha H. destruct (initialize_db_run s) as (t' & Hinit & _).
  exists t'. split; [done |].
  unfold scan_images, plan_images. rewrite bind_assoc.
  rewrite (bind_run _ _ _ _ _ _ Hinit), prepend_nil.
  rewrite bind_assoc, bind_io, (get_all_repositories_error _ _ _ Ha H).
  cbn [fst snd for_repo]. rewrite bind_ret. reflexivity.
Qed.

Lemma listing_outage_looks_like_nothing_to_do_witness :
  ∃ t',
    initialize_db empty_host = ([], set_db (Some t') empty_host, Return tt)
    ∧ scan_images demo_env_registry_down 1 "ns" empty_host
      = ([HttpGet (repositories_url "ns") [("page_size", 100)];
          Print ("Error fetching repositories: "
                 +:+ pretty (status_code
                               (requests_get (answers (reg demo_env_registry_down))
                                  (repositories_url "ns") [("page_size", 100)])));
          Print "No new or updated images to scan."],
         set_db (Some t') empty_host, Return tt).
Proof.
  apply listing_outage_looks_like_nothing_to_do.
  - intros ex. discriminate.
  - cbn. discriminate.
Defined.

(** ** Run coordinator: the plan as a function of the listings *)

Lemma for_tag_changed e namespace repo tags :
  ∀ plan s, ready (images_db s) →
  resolves (reg e) namespace repo tags →
  ∃ ev,
    for_tag e namespace repo tags plan s
    = (ev, s, Return (plan ++ omap (changed (reg e) (images_db s) namespace repo)
                                tags)).
Proof.
  induction tags as [|tag tags IH]; intros plan s Hready Hres.
  - exists []. cbn [for_tag omap list_omap]. unfold ret. by rewrite app_nil_r.
  - apply Forall_cons in Hres as [[d Hd] Hres].
    destruct (for_tag_step e namespace repo tag tags plan s d Hready Hd)
      as (ev0 & _ & ->).
    destruct (IH (plan ++ option_list
                            (changed (reg e) (images_db s) namespace repo tag))
                 s Hready Hres) as (ev & ->).
    eexists. unfold prepend. cbn [fst snd omap list_omap].
    destruct (changed (reg e) (images_db s) namespace repo tag) as [tk|];
      cbn [option_list].
    + by rewrite <- app_assoc.
    + by rewrite app_nil_r.
Qed.

Lemma for_repo_changed e fuel namespace (tags_of : string → list string) repos :
  ∀ plan s, ready (images_db s) →
  (∀ repo, repo ∈ repos →
     (get_all_tags (reg e) fuel namespace repo).2 = Return (tags_of repo)
     ∧ resolves (reg e) namespace repo (tags_of repo)) →
  ∃ ev,
    for_repo e fuel namespace repos plan s
    = (ev, s,
       Return (plan ++ (repos ≫= λ repo,
                          omap (changed (reg e) (images_db s) namespace repo)
                            (tags_of repo)))).
Proof.
  induction repos as [|repo repos IH]; intros plan s Hready Htags.
  - exists []. cbn [for_repo]. unfold ret. by rewrite app_nil_r.
  - cbn [for_repo]. destruct (Htags repo) as [Hlist Hres]; [by left |].
    rewrite bind_io, Hlist.
    destruct (for_tag_changed e namespace repo (tags_of repo) plan s Hready Hres)
      as (ev1 & H1).
    rewrite (bind_run _ _ _ _ _ _ H1).
    destruct (IH (plan ++ omap (changed (reg e) (images_db s) namespace repo)
                           (tags_of repo)) s Hready) as (ev2 & ->).
    { intros repo' Hin. apply Htags. by right. }
    eexists. unfold prepend. cbn [fst snd]. rewrite bind_cons.
    by rewrite <- app_assoc.
Qed.

(** X19. On a store that has the five columns, when the listings return
    and every digest request of a listed pair ends with a digest or None,
    the plan is a function of the listings, the resolved digests and the
    stored digests: in the order of the listings, one task for every listed
    pair whose digest resolves and is not the stored one, as often as the
    pair is listed.  The detection leaves the host as it is. *)
Theorem plan_is_the_changed_pairs_in_listing_order (e : env) (fuel : nat)
    (namespace : string) (s : state) (repos : list string)
    (tags_of : string → list string) :
  ready (images_db s) →
  (get_all_repositories (reg e) fuel namespace).2 = Return repos →
  (∀ repo, repo ∈ repos →
     (get_all_tags (reg e) fuel namespace repo).2 = Return (tags_of repo)) →
  (∀ repo, repo ∈ repos → resolves (reg e) namespace repo (tags_of repo)) →
  ∃ ev,
    plan_images e fuel namespace s
    = (ev, s,
       Return (repos ≫= λ repo,
                 omap (changed (reg e) (images_db s) namespace repo)
                   (tags_of repo))).
Proof.
  intros Hready Hrepos Htags Hres. unfold plan_images.
  rewrite (bind_run _ _ _ _ _ _ (initialize_db_noop s Hready)), prepend_nil.
  rewrite bind_io, Hrepos.
  destruct (for_repo_changed e fuel namespace tags_of repos [] s Hready)
    as (ev & ->); [by split; [apply Htags | apply Hres] |].
  eexists. unfold prepend. cbn [fst snd app]. reflexivity.
Qed.

Lemma plan_is_the_changed_pairs_in_listing_order_witness :
  let s := (plan_images demo_env 5 "ns" empty_host).1.2 in
  ∃ ev,
    plan_images demo_env 5 "ns" s
    = (ev, s,
       Return (["app"] ≫= λ repo,
                 omap (changed (reg demo_env) (images_db s) "ns" repo)
                   ["v1"; "v2"])).
Proof.
  intros s.
  apply (plan_is_the_changed_pairs_in_listing_order demo_env 5 "ns" s ["app"]
           (λ _, ["v1"; "v2"])).
  - eexists. split; [reflexivity |]. vm_compute. reflexivity.
  - vm_compute. reflexivity.
  - intros repo ->%list_elem_of_singleton. vm_compute. reflexivity.
  - intros repo ->%list_elem_of_singleton.
    repeat constructor; eexists; vm_compute; reflexivity.
Defined.

(** ** Scan executor: failures outside the try block *)

(** X20. The scratch directory is made before the [try]: when it cannot
    be made the error leaves run_trufflehog at once.  Only the first line
    has been printed, no command is run, no cleanup is attempted and the
    host is as before. *)
Theorem no_scratch_directory_no_scan (e : scan_env) (image_tag : string)
    (s : state) (ex : exn) :
  (mkdtemp (tmp_names e) s).2 = Raise ex →
  run_trufflehog e image_tag s = ([Print (running_line image_tag)], s, Raise ex).
Proof.
  intros H. unfold run_trufflehog. rewrite bind_print.
  destruct (mkdtemp (tmp_names e) s) as [[evm s0] om] eqn:Hm. cbn in H. subst om.
  rewrite (bind_raises _ _ _ _ _ _ Hm).
  revert Hm. unfold mkdtemp. destruct (List.find _ _); [discriminate |].
  by intros [= <- <-].
Qed.

Lemma no_scratch_directory_no_scan_witness :
  run_trufflehog no_tmp_names "ns/app:v1" empty_host
  = ([Print (running_line "ns/app:v1")], empty_host,
     Raise (OSError "No usable temporary directory name found")).
Proof. apply no_scratch_directory_no_scan. reflexivity. Defined.

(** X21. When [docker rm] cannot be started, the [finally] block is left
    at its first statement: whatever the scan found or raised, the call
    raises the OSError of [docker rm], that command is the last event (the
    scratch directory is not removed) and the directory is still there. *)
Theorem failed_cleanup_replaces_the_result (e : scan_env) (image_tag : string)
    (s : state) (temp_dir msg : string) :
  (mkdtemp (tmp_names e) s).2 = Return temp_dir →
  rm_fault e = CannotLaunch msg →
  ∃ evs s',
    run_trufflehog e image_tag s = (evs, s', Raise (OSError msg))
    ∧ last evs = Some (Exec (rm_cmd (container_name_of image_tag)))
    ∧ temp_dir ∈ dirs s'.
Proof.
  intros Hmk Hrm. destruct (mkdtemp_returns _ _ _ Hmk) as [Hm _].
  rewrite (run_trufflehog_unfold _ _ _ _ _ _ Hm).
  set (s0 := set_dirs ({[temp_dir]} ∪ dirs s) s).
  destruct (try_except (try_block e image_tag temp_dir (container_name_of image_tag))
              (except_block image_tag 0) s0) as [[evb sb] ob] eqn:Hb.
  pose proof (keeps_try_except (container_name_of image_tag) _ _
                (keeps_try_block e image_tag temp_dir _)
                (keeps_except_block _ image_tag 0) _ _ _ _ Hb)
    as [(Hd & _ & _) Hob].
  assert (Hf : finally_block e temp_dir (container_name_of image_tag) sb
               = ([Exec (rm_cmd (container_name_of image_tag))], sb,
                  Raise (OSError msg))).
  { unfold finally_block. rewrite Hrm. cbn [process].
    apply bind_raises. by apply subprocess_run_cannot_launch. }
  unfold try_finally. rewrite Hb, Hf.
  exists (Print (running_line image_tag) :: Mkdtemp temp_dir
          :: evb ++ [Exec (rm_cmd (container_name_of image_tag))]), sb.
  split; [by destruct ob |]. split.
  - by rewrite !app_comm_cons, last_snoc.
  - rewrite Hd. cbn. apply elem_of_union_l. by apply elem_of_singleton.
Qed.

Lemma failed_cleanup_replaces_the_result_witness :
  ∃ evs s',
    run_trufflehog docker_missing "ns/app:v1" empty_host
    = (evs, s', Raise (OSError "No such file or directory: 'docker'"))
    ∧ last evs = Some (Exec (rm_cmd (container_name_of "ns/app:v1")))
    ∧ "/tmp/tmpa" ∈ dirs s'.
Proof.
  apply failed_cleanup_replaces_the_result; reflexivity.
Defined.

(** ** Run coordinator: the notifications of a sweep *)

Lemma notifications_app ev1 ev2 :
  notifications (ev1 ++ ev2) = notifications ev1 ++ notifications ev2.
Proof. apply List.filter_app. Qed.

Lemma notifications_none evs :
  Forall (λ ev, is_ChatPostMessage ev = false) evs → notifications evs = [].
Proof.
  induction 1 as [|ev evs Hev _ IH]; [done |].
  unfold notifications in *. cbn. by rewrite Hev.
Qed.

Lemma run_trufflehog_notifies_nothing e image_tag s evr s2 o :
  run_trufflehog e image_tag s = (evr, s2, o) → notifications evr = [].
Proof.
  intros Hrun. apply notifications_none.
  by apply (emits_run_trufflehog (λ ev, is_ChatPostMessage ev = false)
              e image_tag) in Hrun.
Qed.

Lemma update_db_events e n image_name tag digest count s :
  (update_db e n image_name tag digest count s).1.1 = [].
Proof.
  unfold update_db. rewrite bind_get_state. unfold bind, lift, put_state.
  by destruct (insert_or_replace _ _ _ _ _ _).
Qed.

Lemma for_image_notifications e namespace plan :
  ∀ i s ev s',
    for_image e namespace i plan s = (ev, s', Return tt) →
    length (notifications ev) = length plan
    ∧ Forall (λ ev, ∃ text, ev = ChatPostMessage (slack_channel e) text)
        (notifications ev).
Proof.
  induction plan as [|[[repo tag] digest] rest IH]; intros i s ev s';
    cbn [for_image].
  - by intros [= <- <-].
  - destruct (run_trufflehog (scan_env_of e i)
                (namespace +:+ "/" +:+ repo +:+ ":" +:+ tag) s)
      as [[evr s2] [r | ex |]] eqn:Hrun.
    2:{ by rewrite (bind_raises _ _ _ _ _ _ Hrun). }
    2:{ unfold bind. by rewrite Hrun. }
    rewrite (bind_run _ _ _ _ _ _ Hrun).
    pose proof (update_db_events e (S i) repo tag digest r.2 s2) as Hevu.
    destruct (update_db e (S i) repo tag digest r.2 s2)
      as [[evu s3] [[] | ex |]] eqn:Hup.
    2:{ rewrite (bind_raises _ _ _ _ _ _ Hup). unfold prepend. by cbn. }
    2:{ unfold bind at 1. rewrite Hup. unfold prepend. by cbn. }
    cbn in Hevu. subst evu.
    rewrite (bind_run _ _ _ _ _ _ Hup), prepend_nil.
    destruct (send_message_to_slack_run e (S i)
                (scan_message_of repo tag r.1 r.2) s3) as (line & Hsend).
    rewrite (bind_run _ _ _ _ _ _ Hsend), prepend_prepend.
    intros (ev' & Hrest & ->)%prepend_inv.
    destruct (IH _ _ _ _ Hrest) as [Hlen Hall].
    rewrite !notifications_app, (run_trufflehog_notifies_nothing _ _ _ _ _ _ Hrun).
    cbn. split; [by rewrite Hlen |]. constructor; [by eexists | done].
Qed.

(** X22. An execution of the plan that returns has attempted one
    notification for the summary and one for every task of the plan, all
    to the configured channel, and none when the plan is empty: whether
    Slack accepted them or not. *)
Theorem one_notification_per_task (e : env) (namespace : string)
    (plan : list task) (s s' : state) (ev : list event) :
  execute_plan e namespace plan s = (ev, s', Return tt) →
  length (notifications ev)
  = match plan with [] => 0%nat | _ :: _ => S (length plan) end
  ∧ Forall (λ ev, ∃ text, ev = ChatPostMessage (slack_channel e) text)
      (notifications ev).
Proof.
  destruct plan as [|tk plan]; [by intros [= <- <-] |].
  unfold execute_plan.
  destruct (send_message_to_slack_run e 0
              (summary_message (List.length (tk :: plan)) (now_ist e 0)) s)
    as (line & Hsend).
  rewrite (bind_run _ _ _ _ _ _ Hsend).
  intros (ev' & Hrest & ->)%prepend_inv.
  destruct (for_image_notifications _ _ _ _ _ _ _ Hrest) as [Hlen Hall].
  rewrite notifications_app. cbn.
  split; [by rewrite Hlen |]. constructor; [by eexists | done].
Qed.

Lemma one_notification_per_task_witness :
  let plan := [("app", "v1", "sha:one"); ("app", "v2", "sha:new")] in
  let s := (plan_images demo_env 5 "ns" empty_host).1.2 in
  let run := execute_plan demo_env "ns" plan s in
  length (notifications run.1.1) = 3%nat
  ∧ Forall (λ ev, ∃ text, ev = ChatPostMessage (slack_channel demo_env) text)
      (notifications run.1.1).
Proof.
  intros plan s run.
  apply (one_notification_per_task demo_env "ns" plan s run.1.2 run.1.1).
  vm_compute. reflexivity.
Defined.

(** ** Registry client: requests that raise *)



